(** * Knot Resolver library core: a shallow embedding of
      lib/context.c, lib/dnssec.c and lib/utils.c

    C integers are modelled as [Z]; the places where the source narrows
    them (uint8_t, uint32_t) are written out.  Pointers that the source
    tests against NULL are [option]s.  Functions of libknot, libdnssec and
    of the resolver's own modules that are not part of these three files
    are kept abstract, as type classes: every theorem about the code holds
    for all of their implementations.

    A call that a failed [assert] aborts has no result: where the source
    can run into [assert(false)], the function gives an [option], and
    whether the build compiles assertions in is the parameter [Build].

    Part I holds the embedding, Part II concrete implementations of the
    abstract interfaces (to run the model), Part III the theorems. *)

From stdpp Require Import base list numbers.
From Stdlib Require Import ZArith Lia List Bool.
Import ListNotations.
Local Open Scope Z_scope.

(** * Part I: the embedding *)

(** ** lib/defines.h (not among the sources): the return-code macros.

    [kr_ok()] and [kr_error(x)] are only known by the way the three files
    use them, so they are an interface with the two facts that use relies
    on: success is 0 and the error of a positive errno is negative. *)
Class Defines := {
  kr_ok : Z;
  kr_error : Z -> Z;
  kr_ok_zero : kr_ok = 0;
  kr_error_neg : forall e, 0 < e -> kr_error e < 0
}.

(** The errno values of <errno.h> on Linux. *)
Definition ENOENT : Z := 2.
Definition ENOMEM : Z := 12.
Definition EEXIST : Z := 17.
Definition EINVAL : Z := 22.

(** C truth value of an integer expression. *)
Definition c_true (x : Z) : bool := negb (x =? 0).

(** <assert.h>: whether the build defines NDEBUG, which compiles the
    assertions out. *)
Class Build := {
  NDEBUG : bool
}.

(** [assert(false); return r;]: built with NDEBUG the call returns [r];
    built with assertions the assert aborts the process, and the call
    has no result. *)
Definition assert_false_return `{Build} {A : Type} (r : A) : option A :=
  if NDEBUG then Some r else None.

(** Names and record data are byte strings, as in libknot
    ([typedef uint8_t knot_dname_t]). *)
Abbreviation knot_dname_t := (list Z) (only parsing).
Abbreviation knot_rdata_t := (list Z) (only parsing).
(** An rdataset: its records in order; [rr_count] is the length. *)
Abbreviation knot_rdataset_t := (list (list Z)) (only parsing).

Record knot_rrset_t := {
  owner : knot_dname_t;
  type : Z;
  rclass : Z;
  rrs : knot_rdataset_t
}.

Definition KNOT_RRTYPE_RRSIG : Z := 46.

(** ** lib/context.c *)
Module Context.

(** The delegation map and the cache are other modules of the resolver;
    their teardown functions are taken as state transformers. *)
Class Collaborators := {
  kr_delegmap : Type;
  kr_cache : Type;
  kr_delegmap_deinit : kr_delegmap -> kr_delegmap;
  kr_cache_close : kr_cache -> kr_cache
}.

Record kr_context `{Collaborators} := {
  dp_map : kr_delegmap;
  cache : kr_cache
}.

(** [kr_context_deinit]: tears down the two members, then [return -1].
    The result is the return value and the context left behind. *)
Definition kr_context_deinit `{Collaborators} (ctx : kr_context) : Z * kr_context :=
  let dp := kr_delegmap_deinit (dp_map ctx) in
  let ca := kr_cache_close (cache ctx) in
  (-1, {| dp_map := dp; cache := ca |}).

End Context.

(** ** lib/dnssec.c *)
Module Dnssec.

(** *** DNSKEY flag predicates *)

(** [wire_read_u16]: the first two bytes, big-endian (libknot's wire.h).
    Reading past a shorter buffer is undefined in C; the model reads 0. *)
Definition wire_read_u16 (p : list Z) : Z :=
  Z.lor (Z.shiftl (nth 0 p 0) 8) (nth 1 p 0).

Definition kr_dnssec_key_zsk (dnskey_rdata : list Z) : bool :=
  c_true (Z.land (wire_read_u16 dnskey_rdata) 0x0100).

Definition kr_dnssec_key_ksk (dnskey_rdata : list Z) : bool :=
  c_true (Z.land (wire_read_u16 dnskey_rdata) 0x0001).

Definition kr_dnssec_key_revoked (dnskey_rdata : list Z) : bool :=
  c_true (Z.land (wire_read_u16 dnskey_rdata) 0x0080).

(** *** The collaborators of the validator *)

Inductive knot_section_t := KNOT_ANSWER | KNOT_AUTHORITY | KNOT_ADDITIONAL.

(** A parsed packet: [knot_pkt_section] gives a section's RR sets in
    order ([sec->count] is the length, [knot_pkt_rr(sec, i)] the lookup). *)
Record knot_pkt_t := {
  knot_pkt_section : knot_section_t -> list knot_rrset_t
}.

(** libknot's name functions and RRSIG/DNSKEY field accessors, in the
    positional form dnssec.c calls them ([(rdataset, position)]). *)
Class Libknot := {
  knot_dname_is_equal : knot_dname_t -> knot_dname_t -> bool;
  knot_dname_cmp : knot_dname_t -> knot_dname_t -> Z;
  knot_dname_labels : knot_dname_t -> Z;
  knot_dname_is_wildcard : knot_dname_t -> bool;
  knot_rrsig_signer_name : knot_rdataset_t -> nat -> option knot_dname_t;
  knot_rrsig_type_covered : knot_rdataset_t -> nat -> Z;
  knot_rrsig_labels : knot_rdataset_t -> nat -> Z;
  knot_rrsig_sig_expiration : knot_rdataset_t -> nat -> Z;
  knot_rrsig_sig_inception : knot_rdataset_t -> nat -> Z;
  knot_rrsig_algorithm : knot_rdataset_t -> nat -> Z;
  knot_rrsig_key_tag : knot_rdataset_t -> nat -> Z;
  knot_dnskey_alg : knot_rdataset_t -> nat -> Z
}.

(** libdnssec's key object.  [dnssec_key_new] gives its return code and
    the fresh key; the setters give their return code and the key after. *)
Class Libdnssec := {
  dnssec_key_t : Type;
  DNSSEC_EOK : Z;
  dnssec_key_new : Z * dnssec_key_t;
  dnssec_key_set_rdata : dnssec_key_t -> list Z -> Z * dnssec_key_t;
  dnssec_key_set_dname : dnssec_key_t -> knot_dname_t -> Z * dnssec_key_t;
  dnssec_key_get_keytag : dnssec_key_t -> Z
}.

(** The resolver's lib/dnssec/signature.c, nsec.c and nsec3.c. *)
Class Validators `{Libdnssec} := {
  kr_check_signature :
    knot_rrset_t -> nat -> dnssec_key_t -> knot_rrset_t -> Z -> Z;
  kr_authenticate_referral : knot_rrset_t -> dnssec_key_t -> Z;
  kr_nsec_wildcard_answer_response_check :
    knot_pkt_t -> knot_section_t -> knot_dname_t -> Z;
  kr_nsec3_wildcard_answer_response_check :
    knot_pkt_t -> knot_section_t -> knot_dname_t -> Z -> Z
}.

Section Validator.
Context `{Defines} `{Libknot} `{Libdnssec} `{!Validators}.

(** [kr_dnssec_key_from_rdata]: the return code and the key stored through
    the out-parameter ([rdlen] is the length of [rdata]). *)
Definition kr_dnssec_key_from_rdata (kown : option knot_dname_t)
    (rdata : option (list Z)) : Z * option dnssec_key_t :=
  match rdata with
  | None => (kr_error EINVAL, None)
  | Some rdata =>
    if (Z.of_nat (length rdata) =? 0) then (kr_error EINVAL, None) else
    let '(ret, new_key) := dnssec_key_new in
    if negb (ret =? DNSSEC_EOK) then (kr_error ENOMEM, None) else
    let '(ret, new_key) := dnssec_key_set_rdata new_key rdata in
    if negb (ret =? DNSSEC_EOK) then (kr_error ENOMEM, None) else
    match kown with
    | Some kown =>
      let '(ret, new_key) := dnssec_key_set_dname new_key kown in
      if negb (ret =? DNSSEC_EOK) then (kr_error ENOMEM, None)
      else (kr_ok, Some new_key)
    | None => (kr_ok, Some new_key)
    end
  end.

Definition FLG_WILDCARD_EXPANSION : Z := 0x01.

(** [validate_rrsig_rr]: the return code and [*flags] after the call.
    [flags], [covered], [rrsigs] and [keys] are never NULL at the one
    call site; [key] and [zone_name] keep their NULL test. *)
Definition validate_rrsig_rr (flags : Z) (covered rrsigs : knot_rrset_t)
    (sig_pos : nat) (keys : knot_rrset_t) (key_pos : nat)
    (key : option dnssec_key_t) (zone_name : option knot_dname_t)
    (timestamp : Z) : Z * Z :=
  match key, zone_name with
  | Some key, Some zone_name =>
    (* bullet 1 *)
    if negb (rclass covered =? rclass rrsigs)
       || negb (knot_dname_is_equal (owner covered) (owner rrsigs))
    then (kr_error EINVAL, flags) else
    (* bullet 2 *)
    match knot_rrsig_signer_name (rrs rrsigs) sig_pos with
    | None => (kr_error EINVAL, flags)
    | Some signer_name =>
      if negb (knot_dname_cmp signer_name zone_name =? 0)
      then (kr_error EINVAL, flags) else
      (* bullet 3 *)
      let tcovered := knot_rrsig_type_covered (rrs rrsigs) sig_pos in
      if negb (tcovered =? type covered) then (kr_error EINVAL, flags) else
      (* bullet 4 *)
      let rrsig_labels := knot_rrsig_labels (rrs rrsigs) sig_pos in
      let dname_labels := knot_dname_labels (owner covered) in
      let dname_labels :=
        if knot_dname_is_wildcard (owner covered)
        then dname_labels - 1 else dname_labels in
      if rrsig_labels >? dname_labels then (kr_error EINVAL, flags) else
      let flags :=
        if rrsig_labels <? dname_labels
        then Z.lor flags FLG_WILDCARD_EXPANSION else flags in
      (* bullet 5 *)
      if knot_rrsig_sig_expiration (rrs rrsigs) sig_pos <? timestamp
      then (kr_error EINVAL, flags) else
      (* bullet 6 *)
      if knot_rrsig_sig_inception (rrs rrsigs) sig_pos >? timestamp
      then (kr_error EINVAL, flags) else
      (* bullet 7 *)
      if negb (knot_dname_cmp (owner keys) signer_name =? 0)
         || negb (knot_dnskey_alg (rrs keys) key_pos
                  =? knot_rrsig_algorithm (rrs rrsigs) sig_pos)
         || negb (dnssec_key_get_keytag key
                  =? knot_rrsig_key_tag (rrs rrsigs) sig_pos)
      then (kr_error EINVAL, flags)
      else (kr_ok, flags)
    end
  | _, _ => (kr_error EINVAL, flags)
  end.

Definition wildcard_radix_len_diff (expanded : option knot_dname_t)
    (rrsigs : option knot_rrset_t) (sig_pos : nat) : Z :=
  match expanded, rrsigs with
  | Some expanded, Some rrsigs =>
    knot_dname_labels expanded - knot_rrsig_labels (rrs rrsigs) sig_pos
  | _, _ => -1
  end.

(** How one turn of a loop ends: [continue] (or falling off the end of
    the body) or [break]. *)
Inductive loop_ctl := Continue | Break.

(** [trim_labels] as lines 203-208 of [kr_rrset_validate_with_key] leave
    it for the signature and NSEC3 checks: 0, or the label difference when
    the flags say wildcard expansion. *)
Definition with_key_trim_labels (val_flgs : Z) (covered rrsig : knot_rrset_t)
    (j : nat) : Z :=
  if c_true (Z.land val_flgs FLG_WILDCARD_EXPANSION)
  then wildcard_radix_len_diff (Some (owner covered)) (Some rrsig) j
  else 0.

(** The wildcard answer check of lines 213-217. *)
Definition with_key_wildcard_check (pkt : knot_pkt_t) (covered : knot_rrset_t)
    (has_nsec3 : bool) (trim_labels : Z) : Z :=
  if negb has_nsec3
  then kr_nsec_wildcard_answer_response_check pkt KNOT_AUTHORITY (owner covered)
  else kr_nsec3_wildcard_answer_response_check pkt KNOT_AUTHORITY
         (owner covered) (trim_labels - 1).

(** The body of the inner loop of [kr_rrset_validate_with_key] (over the
    records [j] of one RRSIG set): how the turn ends, and [ret] after it.
    A NULL [key] makes [validate_rrsig_rr] fail, so the checks that use the
    key are only reached with one. *)
Definition with_key_try_rrsig (pkt : knot_pkt_t) (covered keys : knot_rrset_t)
    (key_pos : nat) (key : option dnssec_key_t)
    (zone_name : option knot_dname_t) (timestamp : Z) (has_nsec3 : bool)
    (rrsig : knot_rrset_t) (j : nat) (ret : Z) : loop_ctl * Z :=
  let val_flgs := 0 in
  let '(vret, val_flgs) :=
    validate_rrsig_rr val_flgs covered rrsig j keys key_pos key
                      zone_name timestamp in
  if negb (vret =? 0) then (Continue, ret) else
  match key with
  | None => (Continue, ret)
  | Some key =>
    let trim_labels := with_key_trim_labels val_flgs covered rrsig j in
    if c_true (Z.land val_flgs FLG_WILDCARD_EXPANSION) && (trim_labels <? 0)
    then (Break, ret) else
    if negb (kr_check_signature rrsig j key covered trim_labels =? 0)
    then (Continue, ret) else
    if c_true (Z.land val_flgs FLG_WILDCARD_EXPANSION) then
      let ret := with_key_wildcard_check pkt covered has_nsec3 trim_labels in
      if negb (ret =? 0) then (Continue, ret) else (Break, kr_ok)
    else (Break, kr_ok)
  end.

(** The inner loop, [for (j = 0; j < rrsig->rrs.rr_count; ++j)]: [n]
    records are left from position [j] on. *)
Fixpoint with_key_rrsig_loop (pkt : knot_pkt_t) (covered keys : knot_rrset_t)
    (key_pos : nat) (key : option dnssec_key_t)
    (zone_name : option knot_dname_t)
    (timestamp : Z) (has_nsec3 : bool)
    (rrsig : knot_rrset_t) (n j : nat) (ret : Z) : Z :=
  match n with
  | O => ret
  | S n' =>
    match with_key_try_rrsig pkt covered keys key_pos key zone_name
            timestamp has_nsec3 rrsig j ret with
    | (Break, ret) => ret
    | (Continue, ret) =>
      with_key_rrsig_loop pkt covered keys key_pos key zone_name
        timestamp has_nsec3 rrsig n' (S j) ret
    end
  end.

(** The outer loop, over the RR sets of the section. *)
Fixpoint with_key_section_loop (pkt : knot_pkt_t) (covered keys : knot_rrset_t)
    (key_pos : nat) (key : option dnssec_key_t)
    (zone_name : option knot_dname_t)
    (timestamp : Z) (has_nsec3 : bool)
    (sec : list knot_rrset_t) (ret : Z) : Z :=
  match sec with
  | [] => ret
  | rrsig :: rest =>
    if negb (type rrsig =? KNOT_RRTYPE_RRSIG)
    then with_key_section_loop pkt covered keys key_pos key zone_name
           timestamp has_nsec3 rest ret
    else
      let ret := with_key_rrsig_loop pkt covered keys key_pos key zone_name
                   timestamp has_nsec3 rrsig (length (rrs rrsig)) 0%nat ret in
      if ret =? kr_ok then ret
      else with_key_section_loop pkt covered keys key_pos key zone_name
             timestamp has_nsec3 rest ret
  end.

(** Lines 177-185 of [kr_rrset_validate_with_key]: the key it works with
    is the caller's, or one made from the DNSKEY record at [key_pos]
    ([knot_rdataset_at] gives NULL past the end).  [inl] is the early
    return. *)
Definition with_key_key (keys : knot_rrset_t) (key_pos : nat)
    (key : option dnssec_key_t) : Z + option dnssec_key_t :=
  match key with
  | Some key => inr (Some key)
  | None =>
    let krr := rrs keys !! key_pos in
    let '(ret, created_key) :=
      kr_dnssec_key_from_rdata (Some (owner keys)) krr in
    if negb (ret =? 0) then inl ret else inr created_key
  end.

Definition kr_rrset_validate_with_key (pkt : knot_pkt_t)
    (section_id : knot_section_t) (covered keys : knot_rrset_t)
    (key_pos : nat) (key : option dnssec_key_t)
    (zone_name : option knot_dname_t) (timestamp : Z) (has_nsec3 : bool) : Z :=
  match with_key_key keys key_pos key with
  | inl ret => ret
  | inr key =>
    let ret := kr_error ENOENT in
    let sec := knot_pkt_section pkt section_id in
    with_key_section_loop pkt covered keys key_pos key zone_name
      timestamp has_nsec3 sec ret
  end.

(** The loop of [kr_rrset_validate] over the key positions: [n] keys are
    left from position [i] on. *)
Fixpoint validate_key_loop (pkt : knot_pkt_t) (section_id : knot_section_t)
    (covered keys : knot_rrset_t) (zone_name : knot_dname_t)
    (timestamp : Z) (has_nsec3 : bool) (n i : nat) : Z :=
  match n with
  | O => kr_error ENOENT
  | S n' =>
    let ret := kr_rrset_validate_with_key pkt section_id covered keys i None
                 (Some zone_name) timestamp has_nsec3 in
    if ret =? 0 then ret
    else validate_key_loop pkt section_id covered keys zone_name
           timestamp has_nsec3 n' (S i)
  end.

Definition kr_rrset_validate (pkt : option knot_pkt_t)
    (section_id : knot_section_t) (covered keys : option knot_rrset_t)
    (zone_name : option knot_dname_t) (timestamp : Z) (has_nsec3 : bool) : Z :=
  match pkt, covered, keys, zone_name with
  | Some pkt, Some covered, Some keys, Some zone_name =>
    validate_key_loop pkt section_id covered keys zone_name timestamp
      has_nsec3 (length (rrs keys)) 0%nat
  | _, _, _, _ => kr_error EINVAL
  end.

(** One turn of the loop of [kr_dnskeys_trusted]: [true] when the key at
    position [i] is usable (the turn reaches [return kr_ok()]). *)
Definition dnskeys_trusted_try_key (pkt : knot_pkt_t)
    (section_id : knot_section_t) (keys ta : knot_rrset_t)
    (zone_name : option knot_dname_t) (timestamp : Z) (has_nsec3 : bool)
    (i : nat) : bool :=
  match rrs keys !! i with
  | None => false
  | Some key_data =>
    if negb (kr_dnssec_key_zsk key_data) || kr_dnssec_key_revoked key_data
    then false else
    match kr_dnssec_key_from_rdata (Some (owner keys)) (Some key_data) with
    | (ret, Some key) =>
      if negb (ret =? 0) then false else
      if negb (kr_authenticate_referral ta key =? 0) then false else
      if negb (kr_rrset_validate_with_key pkt section_id keys keys i (Some key)
                 zone_name timestamp has_nsec3 =? 0) then false
      else true
    | (_, None) => false
    end
  end.

Fixpoint dnskeys_trusted_loop (pkt : knot_pkt_t)
    (section_id : knot_section_t) (keys ta : knot_rrset_t)
    (zone_name : option knot_dname_t) (timestamp : Z) (has_nsec3 : bool)
    (n i : nat) : Z :=
  match n with
  | O => kr_error ENOENT
  | S n' =>
    if dnskeys_trusted_try_key pkt section_id keys ta zone_name timestamp
         has_nsec3 i
    then kr_ok
    else dnskeys_trusted_loop pkt section_id keys ta zone_name timestamp
           has_nsec3 n' (S i)
  end.

Definition kr_dnskeys_trusted (pkt : option knot_pkt_t)
    (section_id : knot_section_t) (keys ta : option knot_rrset_t)
    (zone_name : option knot_dname_t) (timestamp : Z) (has_nsec3 : bool) : Z :=
  match pkt, keys, ta with
  | Some pkt, Some keys, Some ta =>
    dnskeys_trusted_loop pkt section_id keys ta zone_name timestamp has_nsec3
      (length (rrs keys)) 0%nat
  | _, _, _ => kr_error EINVAL
  end.

End Validator.
End Dnssec.

(** ** lib/utils.c *)
Module Utils.

(** *** Cache keys *)

(** [u16tostr]: the five bytes it stores at [dst].  [tmp] is a uint32_t;
    each stored byte is ['0' + (char)(tmp >> 28)] narrowed to uint8_t. *)
Fixpoint u16tostr_loop (n : nat) (tmp : Z) : list Z :=
  match n with
  | O => []
  | S n' =>
    ((48 + Z.shiftr tmp 28) mod 256)
      :: u16tostr_loop n' ((Z.land tmp 0x0fffffff * 10) mod 2 ^ 32)
  end.

Definition u16tostr (num : Z) : Z * list Z :=
  let tmp := (num * ((Z.shiftl 1 28) / 10000 + 1) - num / 4) mod 2 ^ 32 in
  (5, u16tostr_loop 5 tmp).

Definition KNOT_DNAME_MAXLEN : Z := 255.

(** libknot's name functions used by [kr_rrkey].  [knot_dname_to_wire]
    gives its return value and the bytes it stored at the destination: as
    many as it returns when that is positive.  [knot_dname_to_lower]
    rewrites the stored name in place, so it keeps the length. *)
Class LibknotDname := {
  knot_dname_to_wire : knot_dname_t -> Z -> Z * list Z;
  knot_dname_to_lower : list Z -> list Z;
  knot_dname_to_wire_size : forall d m ret w,
    knot_dname_to_wire d m = (ret, w) -> 0 < ret -> Z.of_nat (length w) = ret;
  knot_dname_to_lower_length : forall w,
    length (knot_dname_to_lower w) = length w
}.

(** Store [bytes] in buffer [buf] from offset [off] on. *)
Definition store (off : Z) (bytes : list Z) (buf : list Z) : list Z :=
  list_inserts (Z.to_nat off) bytes buf.

(** [kr_rrkey]: the return value and the key buffer after the call. *)
Definition kr_rrkey `{Defines} `{LibknotDname} (key : option (list Z))
    (class : Z) (owner : option knot_dname_t) (type additional : Z)
    : Z * option (list Z) :=
  match key, owner with
  | Some key, Some owner =>
    let key_buf := 0 in
    let '(ret, w) := u16tostr class in
    let key := store key_buf w key in
    if ret <=? 0 then (ret, Some key) else
    let key_buf := key_buf + ret in
    let '(ret, w) := knot_dname_to_wire owner KNOT_DNAME_MAXLEN in
    if ret <=? 0 then (ret, Some key) else
    let key := store key_buf w key in
    let key := store key_buf (knot_dname_to_lower w) key in
    let key_buf := key_buf + (ret - 1) in
    let '(ret, w) := u16tostr type in
    let key := store key_buf w key in
    if ret <=? 0 then (ret, Some key) else
    let key_buf := key_buf + ret in
    let '(ret, w) := u16tostr additional in
    let key := store key_buf w key in
    if ret <=? 0 then (ret, Some key) else
    let key := store (key_buf + ret) [0] key in
    (key_buf + ret, Some key)
  | _, _ => (kr_error EINVAL, key)
  end.

(** *** The ranked RR array *)

(** libknot and the memory pool, as the array functions use them.
    [knot_rrsig_type_covered] reads the record [rrs.rdata] points to;
    [knot_rdataset_merge] gives its return code and the first rdataset
    after the call. *)
Class LibknotRRset := {
  knot_mm_t : Type;
  knot_dname_is_equal : knot_dname_t -> knot_dname_t -> bool;
  knot_rrsig_type_covered : knot_rdata_t -> Z;
  knot_rdataset_merge :
    knot_rdataset_t -> knot_rdataset_t -> knot_mm_t -> Z * knot_rdataset_t;
  knot_rrset_copy : knot_rrset_t -> knot_mm_t -> option knot_rrset_t;
  array_reserve_mm : nat -> knot_mm_t -> Z;
  mm_alloc : knot_mm_t -> bool
}.

Record ranked_rr_array_entry_t := {
  qry_uid : Z;
  rank : Z;
  revalidation_cnt : Z;
  cached : bool;
  yielded : bool;
  to_wire : bool;
  rr : knot_rrset_t
}.

(** The array holds pointers to entries, each allocated by one call of
    [kr_ranked_rrarray_add], so no two slots alias: a list of entries. *)
Abbreviation ranked_rr_array_t := (list ranked_rr_array_entry_t) (only parsing).

Definition set_to_wire (e : ranked_rr_array_entry_t) (b : bool)
    : ranked_rr_array_entry_t :=
  {| qry_uid := qry_uid e; rank := rank e;
     revalidation_cnt := revalidation_cnt e; cached := cached e;
     yielded := yielded e; to_wire := b; rr := rr e |}.

Definition set_rrs (r : knot_rrset_t) (d : knot_rdataset_t) : knot_rrset_t :=
  {| owner := owner r; type := type r; rclass := rclass r; rrs := d |}.

Definition set_rr (e : ranked_rr_array_entry_t) (r : knot_rrset_t)
    : ranked_rr_array_entry_t :=
  {| qry_uid := qry_uid e; rank := rank e;
     revalidation_cnt := revalidation_cnt e; cached := cached e;
     yielded := yielded e; to_wire := to_wire e; rr := r |}.

Section RankedArray.
Context `{Defines} `{Build} `{LibknotRRset}.

(** [rrs.rdata]: the first record of the set (empty bytes for none). *)
Definition rrs_rdata (r : knot_rrset_t) : knot_rdata_t := hd [] (rrs r).

Definition rrsets_match (rr1 rr2 : knot_rrset_t) : bool :=
  let match_ := (type rr1 =? type rr2) && (rclass rr1 =? rclass rr2) in
  let match_ :=
    if match_ && (type rr2 =? KNOT_RRTYPE_RRSIG)
    then match_ && (knot_rrsig_type_covered (rrs_rdata rr1)
                    =? knot_rrsig_type_covered (rrs_rdata rr2))
    else match_ in
  match_ && knot_dname_is_equal (owner rr1) (owner rr2).

(** The loop of [to_wire_ensure_unique], [for (i = len - 1; i >= 0; --i)]:
    [n] is [i + 1].  [e0] is read once: the loop never writes to it, as
    an entry with [e0]'s own [qry_uid] is skipped. *)
Fixpoint to_wire_ensure_unique_loop (e0 : ranked_rr_array_entry_t) (n : nat)
    (array : ranked_rr_array_t) : ranked_rr_array_t :=
  match n with
  | O => array
  | S i =>
    let array :=
      match array !! i with
      | None => array
      | Some ei =>
        if (qry_uid ei =? qry_uid e0) || negb (to_wire ei) then array
        else if rrsets_match (rr ei) (rr e0)
             then <[i := set_to_wire ei false]> array
             else array
      end in
    to_wire_ensure_unique_loop e0 i array
  end.

(** [to_wire_ensure_unique]: the return value and the array after.  The
    function is static and its two callers pass an array and an index
    below its length, so the arm with [assert(false)] and [EINVAL] is
    never entered; it is kept with the value it returns. *)
Definition to_wire_ensure_unique (array : option ranked_rr_array_t)
    (index : nat) : Z * option ranked_rr_array_t :=
  match array with
  | None => (kr_error EINVAL, None)
  | Some a =>
    match a !! index with
    | None => (kr_error EINVAL, array)
    | Some e0 =>
      if negb (to_wire e0) then (kr_ok, array)
      else (kr_ok, Some (to_wire_ensure_unique_loop e0 (length a) a))
    end
  end.

(** The search loop of [kr_ranked_rrarray_add]: the position of the entry
    to merge with, if the loop reaches one. [n] is [i + 1]. *)
Fixpoint rrarray_add_find (array : ranked_rr_array_t) (rr_ : knot_rrset_t)
    (qry_uid_ : Z) (n : nat) : option nat :=
  match n with
  | O => None
  | S i =>
    match array !! i with
    | None => None
    | Some stashed =>
      if yielded stashed then None
      else if negb (qry_uid stashed =? qry_uid_) then None
      else if negb (rrsets_match (rr stashed) rr_)
           then rrarray_add_find array rr_ qry_uid_ i
           else Some i
    end
  end.

(** [kr_ranked_rrarray_add]: the return value and the array after, or
    [None] when the call does not return: the [assert(false)] before
    [EEXIST] aborts it unless the build defines NDEBUG.  The slot the
    search stops at holds an entry (the search has read it).
    [array_push] cannot fail after the reservation, as the source
    notes. *)
Definition kr_ranked_rrarray_add (array : ranked_rr_array_t)
    (rr_ : knot_rrset_t) (rank_ : Z) (to_wire_ : bool) (qry_uid_ : Z)
    (pool : knot_mm_t) : option (Z * ranked_rr_array_t) :=
  match rrarray_add_find array rr_ qry_uid_ (length array) with
  | Some i =>
    match array !! i with
    | None => Some (kr_error EINVAL, array)
    | Some stashed =>
      let ok := (rank stashed =? rank_) && negb (cached stashed) in
      if negb ok then assert_false_return (kr_error EEXIST, array) else
      let stashed := set_to_wire stashed (to_wire stashed || to_wire_) in
      let '(ret, merged) :=
        knot_rdataset_merge (rrs (rr stashed)) (rrs rr_) pool in
      Some (ret, <[i := set_rr stashed (set_rrs (rr stashed) merged)]> array)
    end
  | None =>
    let ret := array_reserve_mm (length array + 1) pool in
    if negb (ret =? 0) then Some (kr_error ENOMEM, array) else
    if negb (mm_alloc pool) then Some (kr_error ENOMEM, array) else
    match knot_rrset_copy rr_ pool with
    | None => Some (kr_error ENOMEM, array)
    | Some copy =>
      let entry :=
        {| qry_uid := qry_uid_; rr := copy; rank := rank_;
           revalidation_cnt := 0; cached := false; yielded := false;
           to_wire := to_wire_ |} in
      let array := array ++ [entry] in
      match to_wire_ensure_unique (Some array) (length array - 1) with
      | (ret, Some array) => Some (ret, array)
      | (ret, None) => Some (ret, array)
      end
    end
  end.

(** The loop of [kr_ranked_rrarray_set_wire],
    [for (i = 0; i < array->len; ++i)]: [n] turns are left from [i] on. *)
Fixpoint rrarray_set_wire_loop (to_wire_ : bool) (qry_uid_ : Z)
    (check_dups : bool)
    (extraCheck : option (ranked_rr_array_entry_t -> bool))
    (n i : nat) (array : ranked_rr_array_t) : Z * ranked_rr_array_t :=
  match n with
  | O => (kr_ok, array)
  | S n' =>
    let continue_ array :=
      rrarray_set_wire_loop to_wire_ qry_uid_ check_dups extraCheck
        n' (S i) array in
    match array !! i with
    | None => continue_ array
    | Some entry =>
      if negb (qry_uid entry =? qry_uid_) then continue_ array else
      if match extraCheck with
         | Some check => negb (check entry)
         | None => false
         end
      then continue_ array else
      let array := <[i := set_to_wire entry to_wire_]> array in
      if check_dups then
        match to_wire_ensure_unique (Some array) i with
        | (ret, Some array') =>
          if negb (ret =? 0) then (ret, array') else continue_ array'
        | (ret, None) =>
          if negb (ret =? 0) then (ret, array) else continue_ array
        end
      else continue_ array
    end
  end.

Definition kr_ranked_rrarray_set_wire (array : ranked_rr_array_t)
    (to_wire_ : bool) (qry_uid_ : Z) (check_dups : bool)
    (extraCheck : option (ranked_rr_array_entry_t -> bool))
    : Z * ranked_rr_array_t :=
  rrarray_set_wire_loop to_wire_ qry_uid_ check_dups extraCheck
    (length array) 0%nat array.

End RankedArray.

(** *** Socket addresses *)

(** The address families of <sys/socket.h> on Linux. *)
Definition AF_INET : Z := 2.
Definition AF_INET6 : Z := 10.

(** What <netinet/in.h> fixes about [struct sockaddr_in] and
    [struct sockaddr_in6]: how [sa_family] is read from the object's bytes
    and at which byte offsets the two port fields start. *)
Class SockaddrLayout := {
  sa_family : list Z -> Z;
  offsetof_sin_port : nat;
  offsetof_sin6_port : nat
}.

Inductive port_field := sin_port | sin6_port.

Definition offsetof `{SockaddrLayout} (f : port_field) : nat :=
  match f with
  | sin_port => offsetof_sin_port
  | sin6_port => offsetof_sin6_port
  end.

(** [field = htons(port)]: the two bytes in network order. *)
Definition htons_bytes (port : Z) : list Z :=
  [Z.shiftr port 8 mod 256; port mod 256].

Definition store_port `{SockaddrLayout} (f : port_field) (port : Z)
    (addr : list Z) : list Z :=
  list_inserts (offsetof f) (htons_bytes port) addr.

(** [kr_inaddr_set_port]: the bytes of [*addr] after the call, and the
    fields assigned, in order.  The [case AF_INET] arm has no [break] and
    runs on into the [case AF_INET6] arm. *)
Definition kr_inaddr_set_port `{SockaddrLayout} (addr : option (list Z))
    (port : Z) : option (list Z) * list port_field :=
  match addr with
  | None => (None, [])
  | Some a =>
    let family := sa_family a in
    if family =? AF_INET then
      let a := store_port sin_port port a in
      let a := store_port sin6_port port a in
      (Some a, [sin_port; sin6_port])
    else if family =? AF_INET6 then
      let a := store_port sin6_port port a in
      (Some a, [sin6_port])
    else (Some a, [])
  end.

End Utils.


(** ** lib/utils.c, continued *)

Definition ENOSPC : Z := 28.
Definition ERANGE : Z := 34.
Definition EILSEQ : Z := 84.

(** *** Names in length-first form *)
Module Lf2wire.

(** The inner loop of [knot_dname_lf2wire],
    [while (i >= 0 && lf[i]) --i;], started at [i = k - 1]: the result is
    [label_start = i + 1]. *)
Fixpoint lf_label_start (lf : list Z) (k : nat) : nat :=
  match k with
  | O => O
  | S i => if c_true (nth i lf 0) then lf_label_start lf i else S i
  end.

(** The outer loop, [while (label_end >= 0)], with [n = label_end + 1]
    and [d] the bytes written so far; the result is the return value and
    the bytes written from [dst] on.  Every turn lowers [label_end], so
    [fuel = n] turns are enough ([None] would be running out of them).
    The scan ends at or below [label_end], so [assert(label_len >= 0)]
    never fails. *)
Fixpoint lf2wire_loop `{Defines} (fuel : nat) (lf : list Z) (n : nat)
    (d : list Z) : option (Z * list Z) :=
  match n with
  | O => Some (Z.of_nat (length (d ++ [0])), d ++ [0])
  | S label_end =>
    match fuel with
    | O => None
    | S fuel =>
      let label_start := lf_label_start lf label_end in
      let label_len := Z.of_nat label_end - Z.of_nat label_start in
      if (label_len >? 63) || (label_len <=? 0)
      then Some (kr_error EILSEQ, d)
      else
        lf2wire_loop fuel lf label_start
          (d ++ [label_len]
             ++ take (Z.to_nat label_len) (drop label_start lf))
    end
  end.

(** [knot_dname_lf2wire]: the return value and the bytes written from
    [dst] on (none when [dst] is NULL), or [None] when the call does not
    return: the [assert(false)] in front of [EINVAL] aborts it unless
    the build defines NDEBUG.  [len] is a uint8_t: the [++len] for an
    omitted final zero byte wraps at 256. *)
Definition knot_dname_lf2wire `{Defines} `{Build} (dst : bool) (len : Z)
    (lf : option (list Z)) : option (Z * list Z) :=
  let ok := dst && ((len =? 0) || bool_decide (lf <> None)) in
  if negb ok then assert_false_return (kr_error EINVAL, []) else
  if len =? 0 then lf2wire_loop 0 [] 0 [] else
  match lf with
  | None => Some (kr_error EINVAL, [])
  | Some lf =>
    let len :=
      if c_true (nth (Z.to_nat (len - 1)) lf 0)
      then (len + 1) mod 256 else len in
    lf2wire_loop (Z.to_nat len) lf (Z.to_nat len) []
  end.

End Lf2wire.

(** *** Comparing bit prefixes *)
Module Bitcmp.

(** The C library and compiler, as [kr_bitcmp] depends on them: whether
    plain [char] is signed, and [memcmp], of which the C standard fixes
    when it is 0 and that its sign turns with the order of the
    arguments (for buffers that hold the [n] bytes). *)
Class Libc := {
  char_is_signed : bool;
  memcmp : list Z -> list Z -> nat -> Z;
  memcmp_zero : forall a b n,
    (n <= length a)%nat -> (n <= length b)%nat ->
    (memcmp a b n = 0 <-> take n a = take n b);
  memcmp_swap : forall a b n, memcmp a b n < 0 <-> 0 < memcmp b a n
}.

(** The value of a [char] object that holds byte [u]. *)
Definition char_value `{Libc} (u : Z) : Z :=
  if char_is_signed && (128 <=? u) then u - 256 else u.

(** [kr_bitcmp]: bytes are kept as values 0..255; [*a >> shift] is the
    shift of the promoted [char], and the cast to uint8_t keeps its low
    eight bits.  The [assert] behind the NULL tests is reached with both
    buffers and [bits > 0] only, so it never fails. *)
Definition kr_bitcmp `{Libc} (a b : option (list Z)) (bits : Z) : Z :=
  if (bits <=? 0) || (bool_decide (a = None) && bool_decide (b = None))
  then 0 else
  match a, b with
  | None, _ => -1
  | _, None => 1
  | Some a, Some b =>
    let chunk := bits / 8 in
    let ret := memcmp a b (Z.to_nat chunk) in
    if negb (ret =? 0) then ret else
    let bits := bits - chunk * 8 in
    if bits >? 0 then
      let shift := 8 - bits in
      Z.shiftr (char_value (nth (Z.to_nat chunk) a 0)) shift mod 256
      - Z.shiftr (char_value (nth (Z.to_nat chunk) b 0)) shift mod 256
    else ret
  end.

End Bitcmp.

(** *** Buffered random bytes *)
Module Rnd.

(** [gnutls_rnd(GNUTLS_RND_NONCE, ...)]: byte [k] of what the generator
    hands out over the life of the process.  [rnd_noerror] aborts the
    process when the generator fails; the model is of the runs in which
    it does not. *)
Class Gnutls := {
  gnutls_stream : nat -> Z
}.

(** The two static variables of [kr_rnd_buffered], and the number of
    bytes drawn from the generator so far. *)
Record rnd_state := {
  buf : list Z;
  buf_begin : nat;
  drawn : nat
}.

(** [sizeof(buf)]: 512 bits. *)
Definition BUF_SIZE : nat := 64.

(** The state at program start: [buf_begin = sizeof(buf)]. *)
Definition rnd_start : rnd_state :=
  {| buf := repeat 0 BUF_SIZE; buf_begin := BUF_SIZE; drawn := 0 |}.

(** [rnd_noerror(data, size)]: the bytes stored and the new count. *)
Definition rnd_noerror `{Gnutls} (drawn_ size : nat) : list Z * nat :=
  (map gnutls_stream (seq drawn_ size), (drawn_ + size)%nat).

(** [kr_rnd_buffered]: the bytes stored at [data] and the state after. *)
Definition kr_rnd_buffered `{Gnutls} (st : rnd_state) (size : nat)
    : list Z * rnd_state :=
  if (BUF_SIZE <? size)%nat then
    let '(data, drawn_) := rnd_noerror (drawn st) size in
    (data, {| buf := buf st; buf_begin := buf_begin st; drawn := drawn_ |})
  else
    let size1 := Nat.min size (BUF_SIZE - buf_begin st) in
    let d := take size1 (drop (buf_begin st) (buf st)) in
    if (size1 =? size)%nat then
      (d, {| buf := buf st; buf_begin := (buf_begin st + size1)%nat;
             drawn := drawn st |})
    else
      let size := (size - size1)%nat in
      let '(buf_, drawn_) := rnd_noerror (drawn st) BUF_SIZE in
      (d ++ take size buf_,
       {| buf := buf_; buf_begin := size; drawn := drawn_ |}).

(** A run of calls: the bytes of each call, and the state at the end. *)
Fixpoint kr_rnd_run `{Gnutls} (st : rnd_state) (sizes : list nat)
    : list (list Z) * rnd_state :=
  match sizes with
  | [] => ([], st)
  | size :: sizes =>
    let '(data, st) := kr_rnd_buffered st size in
    let '(rest, st) := kr_rnd_run st sizes in
    (data :: rest, st)
  end.

End Rnd.

(** *** Reading the port of a socket address *)

Module Inaddr.
Import Utils.

(** [ntohs(field)]: the two bytes of the field, read in network order. *)
Definition load_port `{SockaddrLayout} (f : port_field) (addr : list Z) : Z :=
  nth (offsetof f) addr 0 * 256 + nth (S (offsetof f)) addr 0.

Definition kr_inaddr_port `{SockaddrLayout} (addr : option (list Z)) : Z :=
  match addr with
  | None => 0
  | Some a =>
    let family := sa_family a in
    if family =? AF_INET then load_port sin_port a
    else if family =? AF_INET6 then load_port sin6_port a
    else 0
  end.

End Inaddr.

(** *** Addresses as text *)

Module Straddr.
Import Utils.

Definition INET6_ADDRSTRLEN : Z := 46.
Definition UINT16_MAX : Z := 65535.

(** A C string is the list of its bytes before the terminating zero.
    [strchr(s, c)], for [c] not zero: the offset of the first [c]. *)
Fixpoint strchr (s : list Z) (c : Z) : option nat :=
  match s with
  | [] => None
  | x :: s => if x =? c then Some O else option_map S (strchr s c)
  end.

(** The C string that a buffer holds at its start. *)
Fixpoint c_str (buf : list Z) : list Z :=
  match buf with
  | [] => []
  | x :: buf => if x =? 0 then [] else x :: c_str buf
  end.

(** The C library: [strtol(s, &end, 10)] gives its value and [end - s];
    [inet_pton(family, s, dst)] gives its return value and the bytes it
    stores at [dst], if it stores any. *)
Class LibcInet := {
  strtol : list Z -> Z * nat;
  inet_pton : Z -> list Z -> Z * option (list Z)
}.

(** The conversion of a [long] to [int], where [int] has 32 bits. *)
Definition int_of_long (x : Z) : Z := (x + 2 ^ 31) mod 2 ^ 32 - 2 ^ 31.

Definition kr_straddr_family `{Defines} (addr : option (list Z)) : Z :=
  match addr with
  | None => kr_error EINVAL
  | Some addr =>
    match strchr addr 58 with
    | Some _ => AF_INET6
    | None => AF_INET
    end
  end.

(** [kr_straddr_subnet]: the return value and the bytes at [dst] after
    the call.  [strdup] is taken to succeed. *)
Definition kr_straddr_subnet `{Defines} `{LibcInet} (dst addr : option (list Z))
    : Z * option (list Z) :=
  match dst, addr with
  | Some dst, Some addr =>
    let family := kr_straddr_family (Some addr) in
    let parse_address addr_str bit_len :=
      let '(ret, stored) := inet_pton family addr_str in
      let dst := match stored with
                 | Some bytes => store 0 bytes dst
                 | None => dst
                 end in
      if ret <? 0 then (kr_error EILSEQ, Some dst) else (bit_len, Some dst) in
    match strchr addr 47 with
    | Some i =>
      let addr_str := take i addr in
      let subnet := drop (S i) addr in
      let bit_len := int_of_long (fst (strtol subnet)) in
      let max_len := if family =? AF_INET6 then 128 else 32 in
      if (bit_len <? 0) || (bit_len >? max_len)
      then (kr_error ERANGE, Some dst)
      else parse_address addr_str bit_len
    | None =>
      let bit_len := if family =? AF_INET6 then 128 else 32 in
      parse_address addr bit_len
    end
  | _, _ => (kr_error EINVAL, dst)
  end.

(** [kr_straddr_split], its three arguments not NULL (it asserts so):
    the return value, the string stored at [ipaddr] and the value stored
    at [port], where the call stores one. *)
Definition kr_straddr_split `{Defines} `{LibcInet} (instr : list Z)
    : Z * option (list Z) * option Z :=
  let p_start :=
    match strchr instr 64 with
    | Some i => Some i
    | None => strchr instr 35
    end in
  let copy_address (addrlen : nat) (port : option Z) :=
    if Z.of_nat addrlen >? INET6_ADDRSTRLEN
    then (kr_error EILSEQ, None, port)
    else (kr_ok, Some (take addrlen instr), port) in
  match p_start with
  | Some i =>
    let number := drop (S i) instr in
    if bool_decide (number = []) then (kr_error EILSEQ, None, None) else
    let '(p, p_end) := strtol number in
    if negb (p_end =? length number)%nat || (p <=? 0) || (p >? UINT16_MAX)
    then (kr_error EILSEQ, None, None)
    else copy_address i (Some (p mod 65536))
  | None => copy_address (length instr) None
  end.

(** [kr_straddr_join]: the return value, the buffer and [*buflen] after
    the call. *)
Definition kr_straddr_join `{Defines} `{LibcInet} (addr : option (list Z))
    (port : Z) (buf : option (list Z)) (buflen : option Z)
    : Z * option (list Z) * option Z :=
  match addr, buf, buflen with
  | Some addr, Some buf, Some buflen =>
    let family := kr_straddr_family (Some addr) in
    if (family =? kr_error EINVAL) || (fst (inet_pton family addr) =? 0)
    then (kr_error EINVAL, Some buf, Some buflen) else
    let len := Z.of_nat (length addr) in
    if len + 6 >=? buflen then (kr_error ENOSPC, Some buf, Some buflen) else
    let buf := store 0 (addr ++ [0]) buf in
    let buf := store len [35] buf in
    let buf := store (len + 1) (snd (u16tostr port)) buf in
    let len := len + 6 in
    let buf := store len [0] buf in
    (kr_ok, Some buf, Some len)
  | _, _, _ => (kr_error EINVAL, buf, buflen)
  end.

End Straddr.

(** *** Key tags and key comparison of lib/dnssec.c *)

Module DnssecKeys.
Import Dnssec.

Definition KNOT_RRTYPE_DS : Z := 43.
Definition KNOT_RRTYPE_DNSKEY : Z := 48.

(** More of libdnssec's key object, and [memcmp] over the first [n]
    bytes of two buffers.  [dnssec_key_get_pubkey] gives its return code
    and the binary it stores. *)
Class LibdnssecPubkey `{Libdnssec} := {
  dnssec_key_get_algorithm : dnssec_key_t -> Z;
  dnssec_key_get_pubkey : dnssec_key_t -> Z * list Z;
  memcmp : list Z -> list Z -> nat -> Z;
  memcmp_zero : forall a b n,
    (n <= length a)%nat -> (n <= length b)%nat ->
    (memcmp a b n = 0 <-> take n a = take n b)
}.

Section Keys.
Context `{Defines} `{Libdnssec} `{!LibdnssecPubkey}.

(** [kr_dnssec_key_tag]; [rdlen] is the length of [rdata].  The key tag
    of the key object is narrowed to uint16_t.  A call of
    [kr_dnssec_key_from_rdata] that returns 0 has stored a key. *)
Definition kr_dnssec_key_tag (rrtype : Z) (rdata : option (list Z)) : Z :=
  match rdata with
  | None => kr_error EINVAL
  | Some rdata =>
    if (Z.of_nat (length rdata) =? 0)
       || (negb (rrtype =? KNOT_RRTYPE_DS)
           && negb (rrtype =? KNOT_RRTYPE_DNSKEY))
    then kr_error EINVAL else
    if rrtype =? KNOT_RRTYPE_DS then wire_read_u16 rdata
    else if rrtype =? KNOT_RRTYPE_DNSKEY then
      match kr_dnssec_key_from_rdata None (Some rdata) with
      | (ret, key) =>
        if negb (ret =? 0) then ret else
        match key with
        | Some key => dnssec_key_get_keytag key mod 65536
        | None => 0
        end
      end
    else kr_error EINVAL
  end.

(** [kr_dnssec_key_match]. *)
Definition kr_dnssec_key_match (key_a_rdata key_b_rdata : option (list Z))
    : Z :=
  match kr_dnssec_key_from_rdata None key_a_rdata with
  | (ret, key_a) =>
    if negb (ret =? 0) then ret else
    match kr_dnssec_key_from_rdata None key_b_rdata with
    | (ret, key_b) =>
      if negb (ret =? 0) then ret else
      match key_a, key_b with
      | Some key_a, Some key_b =>
        let ret := kr_error ENOENT in
        if (dnssec_key_get_algorithm key_a =? dnssec_key_get_algorithm key_b)
           && (fst (dnssec_key_get_pubkey key_a) =? DNSSEC_EOK)
           && (fst (dnssec_key_get_pubkey key_b) =? DNSSEC_EOK)
        then
          let pk_a := snd (dnssec_key_get_pubkey key_a) in
          let pk_b := snd (dnssec_key_get_pubkey key_b) in
          if (length pk_a =? length pk_b)%nat
             && (memcmp pk_a pk_b (length pk_a) =? 0)
          then 0 else ret
        else ret
      | _, _ => kr_error ENOENT
      end
    end
  end.

End Keys.
End DnssecKeys.

(** *** Concatenating strings *)

Module Strcat.
Import Utils.

(** [malloc(size)]: the fresh object, of [size] bytes of any content, or
    NULL. *)
Class Malloc := {
  malloc : Z -> option (list Z);
  malloc_size : forall size m,
    malloc size = Some m -> Z.of_nat (length m) = size
}.

(** [strlen_safe(x)], with a C string as the list of its bytes before
    the terminating zero. *)
Definition strlen_safe (x : option (list Z)) : Z :=
  match x with
  | Some s => Z.of_nat (length s)
  | None => 0
  end.

(** The first loop of [kr_strcatdup], in size_t arithmetic of 64 bits:
    the total length, or [None] for the early [return NULL]. *)
Fixpoint strcatdup_total (items : list (option (list Z))) (total_len : Z)
    : option Z :=
  match items with
  | [] => Some total_len
  | item :: items =>
    let new_len := (total_len + strlen_safe item) mod 2 ^ 64 in
    if new_len <? total_len then None
    else strcatdup_total items new_len
  end.

(** The second loop: [stream] is the offset [stream - result]. *)
Fixpoint strcatdup_fill (items : list (option (list Z))) (stream : Z)
    (result : list Z) : list Z :=
  match items with
  | [] => result
  | None :: items => strcatdup_fill items stream result
  | Some item :: items =>
    let len := Z.of_nat (length item) in
    strcatdup_fill items (stream + len) (store stream (item ++ [0]) result)
  end.

(** [kr_strcatdup(n, ...)]: [args] are the variable arguments, of which
    the function reads the first [n]. *)
Definition kr_strcatdup `{Malloc} (n : Z) (args : list (option (list Z)))
    : option (list Z) :=
  if n <? 1 then None else
  let items := take (Z.to_nat n) args in
  match strcatdup_total items 0 with
  | None => None
  | Some total_len =>
    if total_len >? 0 then
      if (total_len + 1) mod 2 ^ 64 =? 0 then None else
      match malloc (total_len + 1) with
      | Some result => Some (strcatdup_fill items 0 result)
      | None => None
      end
    else None
  end.

End Strcat.

(** *** The result of a resolution, lib/context.c *)

Module ContextResult.

(** Packets live in a heap that [knot_pkt_new] and [knot_pkt_free]
    change; the writes to a packet keep it allocated.  The resolution
    plan gives the next query, the cache a transaction, or NULL. *)
Class Collaborators := {
  heap : Type;
  knot_pkt_ptr : Type;
  allocated : heap -> knot_pkt_ptr -> Prop;
  knot_pkt_new : heap -> option knot_pkt_ptr * heap;
  knot_pkt_free : knot_pkt_ptr -> heap -> heap;
  kr_query : Type;
  kr_rplan : Type;
  kr_rplan_next : kr_rplan -> option kr_query;
  knot_pkt_put_question : knot_pkt_ptr -> kr_query -> heap -> heap;
  knot_wire_set_rcode_servfail : knot_pkt_ptr -> heap -> heap;
  knot_wire_set_qr : knot_pkt_ptr -> heap -> heap;
  kr_cache : Type;
  kr_txn : Type;
  kr_cache_txn_begin : kr_cache -> option kr_txn;
  knot_pkt_new_fresh : forall h p h',
    knot_pkt_new h = (Some p, h') ->
    ~ allocated h p /\ allocated h' p /\
    forall q, q <> p -> (allocated h' q <-> allocated h q);
  knot_pkt_new_null : forall h h',
    knot_pkt_new h = (None, h') -> forall q, allocated h' q <-> allocated h q;
  knot_pkt_free_frees : forall h p,
    ~ allocated (knot_pkt_free p h) p /\
    forall q, q <> p -> (allocated (knot_pkt_free p h) q <-> allocated h q);
  knot_pkt_put_question_keeps : forall p qry h q,
    allocated (knot_pkt_put_question p qry h) q <-> allocated h q;
  knot_wire_set_rcode_keeps : forall p h q,
    allocated (knot_wire_set_rcode_servfail p h) q <-> allocated h q;
  knot_wire_set_qr_keeps : forall p h q,
    allocated (knot_wire_set_qr p h) q <-> allocated h q
}.

(** The members of [struct kr_context] and [struct kr_result] that
    [kr_result_init] reads and writes. *)
Record kr_context `{Collaborators} := {
  rplan : kr_rplan;
  cache : kr_cache
}.

Record kr_result `{Collaborators} := {
  ans : option knot_pkt_ptr;
  txn : option kr_txn
}.

(** [kr_result_init]: the return value, [*result] and the heap after.
    [knot_pkt_free(&ans)] frees the packet and sets the local [ans] to
    NULL; [result->ans] is another object. *)
Definition kr_result_init `{Collaborators} (ctx : kr_context) (h : heap)
    : Z * kr_result * heap :=
  let result := {| ans := None; txn := None |} in
  match knot_pkt_new h with
  | (None, h) => (-1, result, h)
  | (Some ans_, h) =>
    match kr_rplan_next (rplan ctx) with
    | None => (-1, result, knot_pkt_free ans_ h)
    | Some qry =>
      let h := knot_pkt_put_question ans_ qry h in
      let h := knot_wire_set_rcode_servfail ans_ h in
      let h := knot_wire_set_qr ans_ h in
      let result := {| ans := Some ans_; txn := txn result |} in
      let result :=
        {| ans := ans result; txn := kr_cache_txn_begin (cache ctx) |} in
      match txn result with
      | None => (-1, result, knot_pkt_free ans_ h)
      | Some _ => (0, result, h)
      end
    end
  end.

End ContextResult.
(** * Part II: concrete collaborators, to run the model *)

(** The macros as upstream's lib/defines.h has them: [0] and [-abs(x)]. *)
#[export] Instance upstream_defines : Defines := {|
  kr_ok := 0;
  kr_error := fun x => - Z.abs x;
  kr_ok_zero := eq_refl;
  kr_error_neg := fun e He => ltac:(lia)
|}.

(** The two builds: with assertions, which the runs below use unless
    they say otherwise, and with NDEBUG. *)
#[export] Instance debug_build : Build := {| NDEBUG := false |}.

Definition ndebug_build : Build := {| NDEBUG := true |}.

(** libknot's name functions on names kept in wire form: the name is
    copied if it fits, and ASCII capitals are lowered (a label's length
    byte is at most 63, below ['A']). *)
Definition ascii_tolower (b : Z) : Z :=
  if (65 <=? b) && (b <=? 90) then b + 32 else b.

Definition wire_dname_to_wire (d : knot_dname_t) (maxlen : Z) : Z * list Z :=
  if Z.of_nat (length d) <=? maxlen then (Z.of_nat (length d), d)
  else (-1, []).

Lemma wire_dname_to_wire_size d m ret w :
  wire_dname_to_wire d m = (ret, w) -> 0 < ret -> Z.of_nat (length w) = ret.
Proof.
  unfold wire_dname_to_wire.
  destruct (Z.of_nat (length d) <=? m); intros [= <- <-]; lia.
Qed.

#[export] Instance wire_dname : Utils.LibknotDname := {|
  Utils.knot_dname_to_wire := wire_dname_to_wire;
  Utils.knot_dname_to_lower := map ascii_tolower;
  Utils.knot_dname_to_wire_size := wire_dname_to_wire_size;
  Utils.knot_dname_to_lower_length := fun w => length_map ascii_tolower w
|}.

(** The layout of glibc on Linux: a two-byte family in host (little-endian)
    order at offset 0, and either port field at offset 2. *)
#[export] Instance linux_sockaddr : Utils.SockaddrLayout := {|
  Utils.sa_family := fun a => nth 0 a 0 + 256 * nth 1 a 0;
  Utils.offsetof_sin_port := 2;
  Utils.offsetof_sin6_port := 2
|}.

(** libknot and a pool that never runs out, for the ranked array: names
    compare bytewise, the covered type is the first two bytes of the RRSIG
    record, and a merge adds the records that are not yet in the set. *)
#[export] Instance plain_rrset_lib : Utils.LibknotRRset := {|
  Utils.knot_mm_t := unit;
  Utils.knot_dname_is_equal := fun a b => bool_decide (a = b);
  Utils.knot_rrsig_type_covered := Dnssec.wire_read_u16;
  Utils.knot_rdataset_merge := fun a b _ => (0, a ++ List.filter (fun r => negb (bool_decide (r ∈ a))) b);
  Utils.knot_rrset_copy := fun r _ => Some r;
  Utils.array_reserve_mm := fun _ _ => 0;
  Utils.mm_alloc := fun _ => true
|}.

(** *** Stand-ins for the validator's collaborators

    Names and records in wire form, read at the offsets RFC 4034 gives
    the RRSIG and DNSKEY fields. *)
Module Wire.

Definition byte_at (r : list Z) (i : nat) : Z := nth i r 0.

Definition u16_at (r : list Z) (i : nat) : Z :=
  byte_at r i * 256 + byte_at r (i + 1).

Definition u32_at (r : list Z) (i : nat) : Z :=
  u16_at r i * 65536 + u16_at r (i + 2).

(** The labels of a wire-form name, up to the root label. *)
Fixpoint labels_upto (fuel : nat) (d : list Z) : list (list Z) :=
  match fuel, d with
  | S fuel, len :: rest =>
    if len =? 0 then []
    else take (Z.to_nat len) rest
           :: labels_upto fuel (drop (Z.to_nat len) rest)
  | _, _ => []
  end.

Definition labels (d : list Z) : list (list Z) := labels_upto (length d) d.

(** The bytes a wire-form name takes, root label included. *)
Definition name_size (d : list Z) : nat :=
  (list_sum (map (fun l => S (length l)) (labels d)) + 1)%nat.

Definition field (get : list Z -> Z) (rrs : list (list Z)) (pos : nat) : Z :=
  match rrs !! pos with
  | Some r => get r
  | None => 0
  end.

(** The key tag of RFC 4034, appendix B. *)
Fixpoint keytag_sum (i : nat) (key : list Z) : Z :=
  match key with
  | [] => 0
  | b :: key =>
    (if Nat.even i then Z.shiftl b 8 else b) + keytag_sum (S i) key
  end.

Definition keytag (key : list Z) : Z :=
  let ac := keytag_sum 0 key in
  Z.land (ac + Z.land (Z.shiftr ac 16) 0xFFFF) 0xFFFF.

End Wire.

#[export] Instance wire_knot : Dnssec.Libknot := {|
  Dnssec.knot_dname_is_equal := fun a b => bool_decide (a = b);
  Dnssec.knot_dname_cmp := fun a b => if bool_decide (a = b) then 0 else 1;
  Dnssec.knot_dname_labels := fun d => Z.of_nat (length (Wire.labels d));
  Dnssec.knot_dname_is_wildcard := fun d =>
    match d with
    | 1 :: 42 :: _ => true
    | _ => false
    end;
  Dnssec.knot_rrsig_signer_name := fun rrs pos =>
    (fun r => take (Wire.name_size (drop 18 r)) (drop 18 r)) <$> rrs !! pos;
  Dnssec.knot_rrsig_type_covered := Wire.field (fun r => Wire.u16_at r 0);
  Dnssec.knot_rrsig_labels := Wire.field (fun r => Wire.byte_at r 3);
  Dnssec.knot_rrsig_sig_expiration := Wire.field (fun r => Wire.u32_at r 8);
  Dnssec.knot_rrsig_sig_inception := Wire.field (fun r => Wire.u32_at r 12);
  Dnssec.knot_rrsig_algorithm := Wire.field (fun r => Wire.byte_at r 2);
  Dnssec.knot_rrsig_key_tag := Wire.field (fun r => Wire.u16_at r 16);
  Dnssec.knot_dnskey_alg := Wire.field (fun r => Wire.byte_at r 3)
|}.

(** A key is its DNSKEY record; making one never fails. *)
#[export] Instance rdata_keys : Dnssec.Libdnssec := {|
  Dnssec.dnssec_key_t := list Z;
  Dnssec.DNSSEC_EOK := 0;
  Dnssec.dnssec_key_new := (0, []);
  Dnssec.dnssec_key_set_rdata := fun _ rdata => (0, rdata);
  Dnssec.dnssec_key_set_dname := fun key _ => (0, key);
  Dnssec.dnssec_key_get_keytag := Wire.keytag
|}.

(** Toy cryptography: a signature "verifies" when its signature field
    repeats the public key; a key is "authenticated" when the trust anchor
    lists it; a wildcard answer is "proved" by an NSEC (type 47) or NSEC3
    (type 50) RR set in the section. *)
#[export] Instance toy_validators : Dnssec.Validators := {|
  Dnssec.kr_check_signature := fun rrsig j key covered trim_labels =>
    match rrs rrsig !! j with
    | Some r =>
      if bool_decide (drop (18 + Wire.name_size (drop 18 r)) r = drop 4 key)
      then 0 else -22
    | None => -22
    end;
  Dnssec.kr_authenticate_referral := fun ta (key : list Z) =>
    if bool_decide (key ∈ rrs ta) then 0 else -2;
  Dnssec.kr_nsec_wildcard_answer_response_check := fun pkt section _ =>
    if existsb (fun r => type r =? 47) (Dnssec.knot_pkt_section pkt section)
    then 0 else -2;
  Dnssec.kr_nsec3_wildcard_answer_response_check := fun pkt section _ _ =>
    if existsb (fun r => type r =? 50) (Dnssec.knot_pkt_section pkt section)
    then 0 else -2
|}.

(** A zone "a." with one DNSKEY (flags 0x0100, protocol 3, algorithm 8,
    public key 7 7), an A record set for "x.a.", and signatures made at
    time 1000, valid until 2000, by that key. *)
Module Zone.

Definition cut : list Z := [1; 97; 0].
Definition dnskey_rdata : list Z := [1; 0; 3; 8; 7; 7].
Definition tag : Z := Eval vm_compute in Wire.keytag dnskey_rdata.

Definition keys : knot_rrset_t :=
  {| owner := cut; type := 48; rclass := 1; rrs := [dnskey_rdata] |}.

(** RRSIG record data: covered type, algorithm 8, labels, original TTL,
    expiration 2000, inception 1000, key tag, signer "a.", signature. *)
Definition rrsig_rdata (covered_type labels_ : Z) : list Z :=
  [0; covered_type; 8; labels_; 0; 0; 14; 16; 0; 0; 7; 208; 0; 0; 3; 232;
   tag / 256; tag mod 256] ++ cut ++ [7; 7].

Definition x_a : list Z := [1; 120; 1; 97; 0].
Definition answer : knot_rrset_t :=
  {| owner := x_a; type := 1; rclass := 1; rrs := [[192; 0; 2; 1]] |}.
Definition answer_sig : knot_rrset_t :=
  {| owner := x_a; type := 46; rclass := 1; rrs := [rrsig_rdata 1 2] |}.
Definition keys_sig : knot_rrset_t :=
  {| owner := cut; type := 46; rclass := 1; rrs := [rrsig_rdata 48 1] |}.

Definition pkt : Dnssec.knot_pkt_t :=
  {| Dnssec.knot_pkt_section := fun s =>
       match s with
       | Dnssec.KNOT_ANSWER => [answer; answer_sig; keys; keys_sig]
       | _ => []
       end |}.

(** A wildcard owner "*.b.a." (three labels, two without the asterisk)
    with a signature whose labels field is 1: an answer expanded from
    "*.a.", with an NSEC in the authority section. *)
Definition star_b_a : list Z := [1; 42; 1; 98; 1; 97; 0].
Definition star_answer : knot_rrset_t :=
  {| owner := star_b_a; type := 1; rclass := 1; rrs := [[192; 0; 2; 1]] |}.
Definition star_sig : knot_rrset_t :=
  {| owner := star_b_a; type := 46; rclass := 1; rrs := [rrsig_rdata 1 1] |}.


End Zone.

(** [memcmp] as the difference of the first pair of bytes that differ,
    with [char] signed as on x86. *)
Fixpoint memcmp_first_difference (a b : list Z) (n : nat) {struct n} : Z :=
  match n, a, b with
  | S n, x :: a, y :: b =>
    if x =? y then memcmp_first_difference a b n else x - y
  | _, _, _ => 0
  end.

Lemma memcmp_first_difference_zero (a b : list Z) (n : nat) :
  (n <= length a)%nat -> (n <= length b)%nat ->
  (memcmp_first_difference a b n = 0 <-> take n a = take n b).
Proof.
  revert a b. induction n as [|n IH]; intros a b Ha Hb;
    [simpl; split; reflexivity|].
  destruct a as [|x a], b as [|y b]; simpl in Ha, Hb; try lia.
  simpl. destruct (Z.eqb_spec x y) as [->|Hne].
  - rewrite IH by lia. split; intros E; [now rewrite E | now injection E].
  - split; [lia | intros [= E _]; contradiction].
Qed.

Lemma memcmp_first_difference_swap (a b : list Z) (n : nat) :
  memcmp_first_difference a b n < 0 <-> 0 < memcmp_first_difference b a n.
Proof.
  revert a b. induction n as [|n IH]; intros a b; [simpl; lia|].
  destruct a as [|x a], b as [|y b]; simpl; try lia.
  rewrite (Z.eqb_sym y x). destruct (x =? y); [apply IH | lia].
Qed.

#[export] Instance x86_libc : Bitcmp.Libc := {|
  Bitcmp.char_is_signed := true;
  Bitcmp.memcmp := memcmp_first_difference;
  Bitcmp.memcmp_zero := memcmp_first_difference_zero;
  Bitcmp.memcmp_swap := memcmp_first_difference_swap
|}.

(** A generator that hands out 0, 1, 2, ... *)
#[export] Instance counting_gnutls : Rnd.Gnutls := {|
  Rnd.gnutls_stream := Z.of_nat
|}.


(** [strtol] in base ten as glibc has it on a 64-bit [long]: leading
    white space, a sign, digits; no digits, no conversion. *)
Definition is_space (c : Z) : bool := (c =? 32) || ((9 <=? c) && (c <=? 13)).

Definition is_digit (c : Z) : bool := (48 <=? c) && (c <=? 57).

Fixpoint skip_spaces (s : list Z) : nat :=
  match s with
  | c :: s => if is_space c then S (skip_spaces s) else O
  | [] => O
  end.

Fixpoint read_digits (s : list Z) (acc : Z) (n : nat) : Z * nat :=
  match s with
  | c :: s =>
    if is_digit c then read_digits s (acc * 10 + (c - 48)) (S n) else (acc, n)
  | [] => (acc, n)
  end.

Definition glibc_strtol (s : list Z) : Z * nat :=
  let spaces := skip_spaces s in
  let s := drop spaces s in
  let '(negative, sign) :=
    match s with
    | 45 :: _ => (true, 1%nat)
    | 43 :: _ => (false, 1%nat)
    | _ => (false, O)
    end in
  let '(v, n) := read_digits (drop sign s) 0 0 in
  if (n =? 0)%nat then (0, O) else
  let v := if negative : bool then - v else v in
  (Z.max (- 2 ^ 63) (Z.min (2 ^ 63 - 1) v), (spaces + sign + n)%nat).

(** An [inet_pton] that knows the two loopback addresses, "127.0.0.1"
    and "::1". *)
Definition loopback_inet_pton (family : Z) (s : list Z)
    : Z * option (list Z) :=
  if family =? Utils.AF_INET then
    if bool_decide (s = [49; 50; 55; 46; 48; 46; 48; 46; 49])
    then (1, Some [127; 0; 0; 1]) else (0, None)
  else if family =? Utils.AF_INET6 then
    if bool_decide (s = [58; 58; 49])
    then (1, Some (repeat 0 15 ++ [1])) else (0, None)
  else (-1, None).

#[export] Instance glibc_inet : Straddr.LibcInet := {|
  Straddr.strtol := glibc_strtol;
  Straddr.inet_pton := loopback_inet_pton
|}.

(** Keys that are their DNSKEY records: the algorithm is the fourth byte
    of the record and the public key what follows it. *)
Definition rdata_algorithm (key : @Dnssec.dnssec_key_t rdata_keys) : Z :=
  nth 3 (key : list Z) 0.

Definition rdata_pubkey (key : @Dnssec.dnssec_key_t rdata_keys)
    : Z * list Z :=
  (0, drop 4 (key : list Z)).

#[export] Instance rdata_pubkeys : @DnssecKeys.LibdnssecPubkey rdata_keys := {|
  DnssecKeys.dnssec_key_get_algorithm := rdata_algorithm;
  DnssecKeys.dnssec_key_get_pubkey := rdata_pubkey;
  DnssecKeys.memcmp := memcmp_first_difference;
  DnssecKeys.memcmp_zero := memcmp_first_difference_zero
|}.

(** A [malloc] that never fails and hands out bytes of value 255. *)
Definition plain_malloc_fun (size : Z) : option (list Z) :=
  if size <? 0 then None else Some (repeat 255 (Z.to_nat size)).

Lemma plain_malloc_size (size : Z) (m : list Z) :
  plain_malloc_fun size = Some m -> Z.of_nat (length m) = size.
Proof.
  unfold plain_malloc_fun. destruct (Z.ltb_spec size 0); [discriminate|].
  intros [= <-]. rewrite repeat_length. lia.
Qed.

#[export] Instance plain_malloc : Strcat.Malloc := {|
  Strcat.malloc := plain_malloc_fun;
  Strcat.malloc_size := plain_malloc_size
|}.

(** A heap of numbered packets: the list of those allocated.  A new
    packet gets a number above all of them; the plan is its next query,
    if any, and the cache says whether a transaction can begin. *)
Definition numbered_pkt_new (h : list nat) : option nat * list nat :=
  (Some (S (list_max h)), S (list_max h) :: h).

Lemma numbered_pkt_new_fresh (h : list nat) (p : nat) (h' : list nat) :
  numbered_pkt_new h = (Some p, h') ->
  ~ In p h /\ In p h' /\ forall q, q <> p -> (In q h' <-> In q h).
Proof.
  intros [= <- <-]. split; [|split].
  - intros Hin.
    pose proof (proj1 (list_max_le h (list_max h)) (Nat.le_refl _)) as Hall.
    rewrite Forall_forall in Hall. apply Hall in Hin. lia.
  - now left.
  - intros q Hq. simpl. split; [intros [E|Hin]; [congruence | exact Hin]|].
    now right.
Qed.

Lemma numbered_pkt_new_null (h h' : list nat) :
  numbered_pkt_new h = (None, h') -> forall q, In q h' <-> In q h.
Proof. discriminate. Qed.

Lemma numbered_pkt_free_frees (h : list nat) (p : nat) :
  ~ In p (remove Nat.eq_dec p h) /\
  forall q, q <> p -> (In q (remove Nat.eq_dec p h) <-> In q h).
Proof.
  split; [apply remove_In|]. intros q Hq. split.
  - intros Hin. now apply in_remove in Hin.
  - intros Hin. now apply in_in_remove.
Qed.

#[export] Instance numbered_packets : ContextResult.Collaborators := {|
  ContextResult.heap := list nat;
  ContextResult.knot_pkt_ptr := nat;
  ContextResult.allocated := fun h p => In p h;
  ContextResult.knot_pkt_new := numbered_pkt_new;
  ContextResult.knot_pkt_free := fun p h => remove Nat.eq_dec p h;
  ContextResult.kr_query := unit;
  ContextResult.kr_rplan := option unit;
  ContextResult.kr_rplan_next := fun plan => plan;
  ContextResult.knot_pkt_put_question := fun _ _ h => h;
  ContextResult.knot_wire_set_rcode_servfail := fun _ h => h;
  ContextResult.knot_wire_set_qr := fun _ h => h;
  ContextResult.kr_cache := bool;
  ContextResult.kr_txn := unit;
  ContextResult.kr_cache_txn_begin := fun c => if c then Some tt else None;
  ContextResult.knot_pkt_new_fresh := numbered_pkt_new_fresh;
  ContextResult.knot_pkt_new_null := numbered_pkt_new_null;
  ContextResult.knot_pkt_free_frees := numbered_pkt_free_frees;
  ContextResult.knot_pkt_put_question_keeps := fun _ _ _ _ => iff_refl _;
  ContextResult.knot_wire_set_rcode_keeps := fun _ _ _ => iff_refl _;
  ContextResult.knot_wire_set_qr_keeps := fun _ _ _ => iff_refl _
|}.
(** * Part III: the properties *)

Module ContextProofs.
Import Context.

(** C10: [kr_context_deinit] returns -1 on every call, whatever the
    teardown of the delegation map and of the cache does, so a caller that
    reads a nonzero return as failure always sees failure. *)
Theorem kr_context_deinit_always_fails `{Collaborators} (ctx : kr_context) :
  fst (kr_context_deinit ctx) = -1 /\ fst (kr_context_deinit ctx) <> 0.
Proof. unfold kr_context_deinit; simpl; split; [reflexivity | lia]. Qed.

End ContextProofs.

Module DnskeyProofs.
Import Dnssec.

(** Bit [k] of a 16-bit word, counted from the least significant bit. *)
Definition bit_lsb0 (w : Z) (k : Z) : bool := Z.testbit w k.

(** Bit [k] counted from the most significant bit, the way RFC 4034
    draws the DNSKEY flags field. *)
Definition bit_msb0 (w : Z) (k : Z) : bool := Z.testbit w (15 - k).

(** The three predicates in the data model's words (bit 7 = ZSK, bit 0 =
    KSK, bit 8 = REVOKE), for a given way of numbering bits. *)
Definition flags_as_specified (bit : Z -> Z -> bool) (rdata : list Z) : Prop :=
  kr_dnssec_key_zsk rdata = bit (wire_read_u16 rdata) 7 /\
  kr_dnssec_key_ksk rdata = bit (wire_read_u16 rdata) 0 /\
  kr_dnssec_key_revoked rdata = bit (wire_read_u16 rdata) 8.

(** Masking with a power of two tests that bit. *)
Lemma c_true_land_pow2 (w k : Z) :
  0 <= k -> c_true (Z.land w (2 ^ k)) = Z.testbit w k.
Proof.
  intros Hk. unfold c_true.
  destruct (Z.testbit w k) eqn:Hb.
  - apply negb_true_iff, Z.eqb_neq. intros Hz.
    assert (Ht : Z.testbit (Z.land w (2 ^ k)) k = true).
    { rewrite Z.land_spec, Hb, Z.pow2_bits_true by assumption. reflexivity. }
    rewrite Hz, Z.bits_0 in Ht. discriminate.
  - apply negb_false_iff, Z.eqb_eq. apply Z.bits_inj'. intros n Hn.
    rewrite Z.land_spec, Z.bits_0, Z.pow2_bits_eqb by assumption.
    destruct (Z.eqb_spec k n) as [->|]; [rewrite Hb|]; auto using andb_false_r.
Qed.

(** C9, as the code has it: on the 16-bit flags word read from the first
    two bytes of the DNSKEY record, [kr_dnssec_key_zsk] tests mask 0x0100,
    [kr_dnssec_key_ksk] mask 0x0001 and [kr_dnssec_key_revoked] mask
    0x0080.  Counted from the most significant bit (RFC 4034) these are bits
    7, 15 and 8; counted from the least significant bit, bits 8, 0 and 7. *)
Theorem dnskey_flag_bits (rdata : list Z) :
  let flags := wire_read_u16 rdata in
  (kr_dnssec_key_zsk rdata = bit_msb0 flags 7 /\
   kr_dnssec_key_ksk rdata = bit_msb0 flags 15 /\
   kr_dnssec_key_revoked rdata = bit_msb0 flags 8) /\
  (kr_dnssec_key_zsk rdata = bit_lsb0 flags 8 /\
   kr_dnssec_key_ksk rdata = bit_lsb0 flags 0 /\
   kr_dnssec_key_revoked rdata = bit_lsb0 flags 7).
Proof.
  cbv zeta.
  unfold kr_dnssec_key_zsk, kr_dnssec_key_ksk, kr_dnssec_key_revoked,
    bit_msb0, bit_lsb0.
  change 0x0100 with (2 ^ 8). change 0x0001 with (2 ^ 0).
  change 0x0080 with (2 ^ 7).
  rewrite !c_true_land_pow2 by lia.
  repeat split; reflexivity.
Qed.

(** C9 as stated fails under either numbering: with flags 0x0100 the key
    is a ZSK although bit 7 from the least significant end is clear, and
    with flags 0x0001 it is a KSK although bit 0 from the most significant
    end is clear. *)
Lemma dnskey_flag_bits_not_as_specified :
  (kr_dnssec_key_zsk [1; 0] = true /\
   bit_lsb0 (wire_read_u16 [1; 0]) 7 = false /\
   ~ flags_as_specified bit_lsb0 [1; 0]) /\
  (kr_dnssec_key_ksk [0; 1] = true /\
   bit_msb0 (wire_read_u16 [0; 1]) 0 = false /\
   ~ flags_as_specified bit_msb0 [0; 1]).
Proof.
  repeat split; try reflexivity.
  - intros (Hz & _ & _). vm_compute in Hz. discriminate.
  - intros (_ & Hk & _). vm_compute in Hk. discriminate.
Qed.

End DnskeyProofs.

Module RrkeyProofs.
Import Utils.

(** The five decimal digits of [num], in ASCII, zero-padded. *)
Definition decimal5 (num : Z) : list Z :=
  [48 + num / 10000 mod 10; 48 + num / 1000 mod 10; 48 + num / 100 mod 10;
   48 + num / 10 mod 10; 48 + num mod 10].

(** The key in the cache format's words: class, type and discriminator in
    two bytes each (network order), around the lowercased wire name. *)
Definition be16 (x : Z) : list Z := [Z.shiftr x 8 mod 256; x mod 256].

Definition rrkey_as_specified (class : Z) (lowered_wire : list Z)
    (type additional : Z) : list Z :=
  be16 class ++ lowered_wire ++ be16 type ++ be16 additional.

(** One turn of the digit loop, in arithmetic: the digit is the integer
    part of [tmp / 2^28], and the fraction is carried on, times ten. *)
Lemma u16tostr_loop_step (n : nat) (tmp : Z) :
  0 <= tmp < 10 * 2 ^ 28 ->
  u16tostr_loop (S n) tmp
  = (48 + tmp / 2 ^ 28) :: u16tostr_loop n (tmp mod 2 ^ 28 * 10).
Proof.
  intros Ht. cbn [u16tostr_loop].
  rewrite Z.shiftr_div_pow2 by lia.
  change 0x0fffffff with (Z.ones 28). rewrite Z.land_ones by lia.
  assert (Hd : 0 <= tmp / 2 ^ 28 < 10).
  { split; [apply Z.div_pos; lia | apply Z.div_lt_upper_bound; lia]. }
  assert (Hm : 0 <= tmp mod 2 ^ 28 < 2 ^ 28) by (apply Z.mod_pos_bound; lia).
  f_equal.
  - apply Z.mod_small. lia.
  - f_equal. apply Z.mod_small. lia.
Qed.

(** Carrying the fraction: the next digit of [x / m] in base ten. *)
Lemma fraction_digit (x m : Z) :
  0 < m -> 0 <= x ->
  (x mod m * 10) / m = (10 * x / m) mod 10 /\
  (x mod m * 10) mod m = (10 * x) mod m.
Proof.
  intros Hm Hx.
  pose proof (Z.div_mod x m ltac:(lia)) as Hdm.
  pose proof (Z.mod_pos_bound x m Hm) as Hr.
  set (q := x / m) in *. set (r := x mod m) in *.
  assert (E : 10 * x = r * 10 + (10 * q) * m) by lia.
  split.
  - rewrite E, Z.div_add by lia.
    rewrite (Z.mul_comm 10 q), Z.mod_add by lia.
    symmetry. apply Z.mod_small.
    split; [apply Z.div_pos; lia | apply Z.div_lt_upper_bound; lia].
  - rewrite E, Z.mod_add by lia. reflexivity.
Qed.

(** The scaled value [tmp] holds [num / 10000] to within less than one
    unit of the last digit. *)
Lemma u16tostr_scaling (num : Z) :
  0 <= num < 65536 ->
  let tmp := num * (Z.shiftl 1 28 / 10000 + 1) - num / 4 in
  0 <= tmp < 7 * 2 ^ 28 /\ 10000 * tmp / 2 ^ 28 = num.
Proof.
  intros Hn tmp. subst tmp.
  change (Z.shiftl 1 28 / 10000 + 1) with 26844.
  pose proof (Z.div_mod num 4 ltac:(lia)) as Hdm.
  pose proof (Z.mod_pos_bound num 4 ltac:(lia)) as Hr.
  change (2 ^ 28) with 268435456.
  split; [lia|].
  symmetry. apply Z.div_unique with
    (r := 2044 * num + 2500 * (num mod 4)); lia.
Qed.

(** [u16tostr] stores the five decimal digits of a 16-bit number, with
    leading zeros, and returns 5. *)
Lemma u16tostr_decimal (num : Z) :
  0 <= num < 65536 -> u16tostr num = (5, decimal5 num).
Proof.
  intros Hn. unfold u16tostr.
  destruct (u16tostr_scaling num Hn) as [Hb Hq].
  set (tmp := num * (Z.shiftl 1 28 / 10000 + 1) - num / 4) in *.
  rewrite (Z.mod_small tmp) by (change (2 ^ 32) with (16 * 2 ^ 28); lia).
  f_equal.
  assert (Hm : (0 : Z) < 2 ^ 28) by lia.
  assert (Hfrac : forall x, 0 <= x mod 2 ^ 28 * 10 < 10 * 2 ^ 28).
  { intros x. pose proof (Z.mod_pos_bound x (2 ^ 28) Hm). lia. }
  clearbody tmp.
  revert Hq.
  (* the five turns *)
  rewrite u16tostr_loop_step by lia.
  rewrite u16tostr_loop_step by apply Hfrac.
  destruct (fraction_digit tmp _ Hm ltac:(lia)) as [D1 R1].
  rewrite D1.
  rewrite u16tostr_loop_step by apply Hfrac.
  rewrite R1.
  destruct (fraction_digit (10 * tmp) _ Hm ltac:(lia)) as [D2 R2].
  rewrite D2.
  rewrite u16tostr_loop_step by apply Hfrac.
  rewrite R2.
  destruct (fraction_digit (10 * (10 * tmp)) _ Hm ltac:(lia)) as [D3 R3].
  rewrite D3.
  rewrite u16tostr_loop_step by apply Hfrac.
  rewrite R3.
  destruct (fraction_digit (10 * (10 * (10 * tmp))) _ Hm ltac:(lia))
    as [D4 _].
  rewrite D4. cbn [u16tostr_loop]. intros Hq.
  (* every scaled quotient is a quotient of [num] *)
  assert (Hs : forall a b, 0 < b -> a * b = 10000 ->
                 a * tmp / 2 ^ 28 = num / b).
  { intros a b Hb' Hab. rewrite <- Hq.
    rewrite <- Hab, Z.div_div by lia.
    replace (a * b * tmp) with (a * tmp * b) by ring.
    rewrite Z.div_mul_cancel_r by lia. reflexivity. }
  unfold decimal5.
  replace (tmp / 2 ^ 28) with (num / 10000)
    by (rewrite <- (Hs 1 10000) by lia; f_equal; lia).
  replace (10 * tmp / 2 ^ 28) with (num / 1000)
    by (rewrite <- (Hs 10 1000) by lia; reflexivity).
  replace (10 * (10 * tmp) / 2 ^ 28) with (num / 100)
    by (rewrite <- (Hs 100 100) by lia; f_equal; lia).
  replace (10 * (10 * (10 * tmp)) / 2 ^ 28) with (num / 10)
    by (rewrite <- (Hs 1000 10) by lia; f_equal; lia).
  replace (10 * (10 * (10 * (10 * tmp))) / 2 ^ 28) with num
    by (rewrite <- Hq; f_equal; lia).
  f_equal. f_equal. symmetry. apply Z.mod_small.
  split; [apply Z.div_pos; lia | apply Z.div_lt_upper_bound; lia].
Qed.


(** Overwriting a stretch of the buffer that starts right after [front]. *)
Lemma store_over (front old new rest : list Z) (off : Z) :
  Z.to_nat off = length front -> length new = length old ->
  store off new (front ++ old ++ rest) = front ++ new ++ rest.
Proof.
  intros Hoff Hlen. unfold store. rewrite Hoff.
  replace (length front) with (length front + 0)%nat by lia.
  rewrite list_inserts_app_r. f_equal. now apply list_inserts_0_r.
Qed.

Lemma length_decimal5 (num : Z) : length (decimal5 num) = 5%nat.
Proof. reflexivity. Qed.

(** A buffer split at a position within it. *)
Lemma split_buffer (k : nat) (buf : list Z) :
  (k <= length buf)%nat ->
  buf = take k buf ++ drop k buf /\ length (take k buf) = k.
Proof.
  intros Hk. split; [symmetry; apply take_drop|].
  rewrite length_take. lia.
Qed.

(** C7, as the code has it: for 16-bit class, type and discriminator, an
    owner whose wire form [w] has [n > 0] bytes, and a key buffer of at
    least [n + 15] bytes, [kr_rrkey] returns [n + 14] and leaves in the
    buffer the class as five ASCII decimal digits, the lowercased wire form
    of the owner without its last byte (the root label, overwritten by the
    type), the type and the discriminator as five decimal digits each, and
    a terminating zero; the rest of the buffer is untouched. *)
Theorem kr_rrkey_format `{Defines} `{LibknotDname} (key : list Z)
    (class : Z) (owner : knot_dname_t) (type additional : Z)
    (n : Z) (w : list Z) :
  0 <= class < 65536 -> 0 <= type < 65536 -> 0 <= additional < 65536 ->
  knot_dname_to_wire owner KNOT_DNAME_MAXLEN = (n, w) -> 0 < n ->
  n + 15 <= Z.of_nat (length key) ->
  let body := decimal5 class ++ removelast (knot_dname_to_lower w)
                ++ decimal5 type ++ decimal5 additional in
  kr_rrkey (Some key) class (Some owner) type additional
  = (n + 14, Some (body ++ [0] ++ drop (Z.to_nat (n + 15)) key)) /\
  Z.of_nat (length body) = n + 14.
Proof.
  intros Hc Ht Ha Hw Hn Hlen body.
  pose proof (knot_dname_to_wire_size _ _ _ _ Hw Hn) as Hwl.
  pose proof (knot_dname_to_lower_length w) as Hll.
  set (lw := knot_dname_to_lower w) in *.
  assert (Hlw : lw = removelast lw ++ [last lw 0]).
  { apply app_removelast_last. intros E. rewrite E in Hll. simpl in Hll. lia. }
  assert (Hrl : length (removelast lw) = Z.to_nat (n - 1)).
  { pose proof (f_equal (@length Z) Hlw) as E.
    rewrite length_app in E. simpl in E. lia. }
  split.
  2:{ subst body. rewrite !length_app, !length_decimal5, Hrl. lia. }
  unfold kr_rrkey.
  rewrite !u16tostr_decimal by assumption. rewrite Hw.
  cbv beta iota zeta. change (5 <=? 0) with false. cbv iota.
  destruct (Z.leb_spec n 0) as [|_]; [lia|].
  change (knot_dname_to_lower w) with lw.
  (* the buffer, cut where the six stores fall *)
  destruct (split_buffer 5 key ltac:(lia)) as [K0 L0].
  set (k1 := drop 5 key) in *.
  destruct (split_buffer (Z.to_nat n) k1 ltac:(subst k1; rewrite length_drop; lia))
    as [K1 L1].
  set (k2 := drop (Z.to_nat n) k1) in *.
  assert (Hk2 : (10 <= length k2)%nat).
  { subst k2 k1. rewrite !length_drop. lia. }
  destruct (split_buffer 4 k2 ltac:(lia)) as [K2 L2].
  set (k3 := drop 4 k2) in *.
  destruct (split_buffer 5 k3 ltac:(subst k3; rewrite length_drop; lia))
    as [K3 L3].
  set (k4 := drop 5 k3) in *.
  destruct (split_buffer 1 k4
              ltac:(subst k4 k3; rewrite !length_drop; lia)) as [K4 L4].
  assert (Hrest : drop 1 k4 = drop (Z.to_nat (n + 15)) key).
  { subst k4 k3 k2 k1. rewrite !drop_drop. f_equal. lia. }
  rewrite <- Hrest. clear Hrest.
  (* store the class *)
  rewrite K0 at 1.
  pose proof (store_over [] (take 5 key) (decimal5 class) k1 0
                eq_refl ltac:(simpl; congruence)) as S0.
  cbn [app] in S0. rewrite S0. clear S0.
  (* store the name, then lower it in place *)
  rewrite K1.
  rewrite (store_over (decimal5 class) (take (Z.to_nat n) k1) w k2 (0 + 5))
    by (rewrite ?length_decimal5; lia).
  rewrite (store_over (decimal5 class) w lw k2 (0 + 5))
    by (rewrite ?length_decimal5; lia).
  (* store the type over the last byte of the name and four more *)
  rewrite Hlw, K2.
  replace (decimal5 class ++ (removelast lw ++ [last lw 0])
             ++ take 4 k2 ++ k3)
    with ((decimal5 class ++ removelast lw)
            ++ ([last lw 0] ++ take 4 k2) ++ k3)
    by (rewrite <- !app_assoc; reflexivity).
  rewrite (store_over _ _ (decimal5 type) k3 (0 + 5 + (n - 1)))
    by (rewrite ?length_app, ?length_decimal5, ?Hrl; simpl; lia).
  (* store the discriminator *)
  rewrite K3.
  replace ((decimal5 class ++ removelast lw) ++ decimal5 type
             ++ take 5 k3 ++ k4)
    with ((decimal5 class ++ removelast lw ++ decimal5 type)
            ++ take 5 k3 ++ k4)
    by (rewrite <- !app_assoc; reflexivity).
  rewrite (store_over _ _ (decimal5 additional) k4 (0 + 5 + (n - 1) + 5))
    by (rewrite ?length_app, ?length_decimal5, ?Hrl; simpl; lia).
  (* the terminating zero *)
  rewrite K4.
  replace ((decimal5 class ++ removelast lw ++ decimal5 type)
             ++ decimal5 additional ++ take 1 k4 ++ drop 1 k4)
    with (body ++ take 1 k4 ++ drop 1 k4)
    by (subst body; rewrite <- !app_assoc; reflexivity).
  rewrite (store_over body _ [0] (drop 1 k4) (0 + 5 + (n - 1) + 5 + 5)).
  - rewrite <- K4. f_equal. lia.
  - subst body. rewrite !length_app, !length_decimal5, Hrl. lia.
  - simpl. lia.
Qed.


(** The key of (class IN, owner "A.", type RRSIG, discriminator 1) in a
    20-byte buffer: "00001", the lowered name without its root byte,
    "00046", "00001", a zero, and the two bytes left of the buffer. *)
Lemma kr_rrkey_format_witness :
  @kr_rrkey upstream_defines wire_dname
    (Some (repeat 7 20)) 1 (Some [1; 65; 0]) 46 1
  = (17, Some ([48; 48; 48; 48; 49] ++ [1; 97] ++ [48; 48; 48; 52; 54]
               ++ [48; 48; 48; 48; 49] ++ [0] ++ [7; 7])) /\
  Z.of_nat (length ([48; 48; 48; 48; 49] ++ [1; 97] ++ [48; 48; 48; 52; 54]
                    ++ [48; 48; 48; 48; 49])) = 17.
Proof.
  exact (@kr_rrkey_format upstream_defines wire_dname
           (repeat 7 20) 1 [1; 65; 0] 46 1 3 [1; 65; 0]
           ltac:(lia) ltac:(lia) ltac:(lia) eq_refl ltac:(lia)
           ltac:(simpl; lia)).
Defined.

(** C7 as stated fails: for class 1, the root owner, type 1 and
    discriminator 0 the key is the 15 bytes "000010000100000" and the
    call returns 15, where two-byte fields around the one-byte wire name
    would make 7 bytes. *)
Lemma kr_rrkey_fields_are_not_two_bytes :
  @kr_rrkey upstream_defines wire_dname (Some (repeat 7 16)) 1 (Some [0]) 1 0
  = (15, Some [48; 48; 48; 48; 49; 48; 48; 48; 48; 49;
               48; 48; 48; 48; 48; 0]) /\
  rrkey_as_specified 1 (@knot_dname_to_lower wire_dname [0]) 1 0
  = [0; 1; 0; 0; 1; 0; 0] /\
  15 <> Z.of_nat (length (rrkey_as_specified 1
                            (@knot_dname_to_lower wire_dname [0]) 1 0)).
Proof. repeat split; vm_compute; congruence. Qed.

End RrkeyProofs.

Module InaddrProofs.
Import Utils.

(** A store of a port touches the two bytes of its field only. *)
Lemma store_port_frame `{SockaddrLayout} (f : port_field) (port : Z)
    (a : list Z) (i : nat) :
  (i < offsetof f)%nat \/ (offsetof f + 2 <= i)%nat ->
  store_port f port a !! i = a !! i.
Proof.
  unfold store_port. intros [Hi | Hi].
  - now apply list_lookup_inserts_lt.
  - apply list_lookup_inserts_ge. simpl. lia.
Qed.

(** For AF_INET6 only [sin6_port] is assigned: every byte outside that
    field keeps its value. *)
Lemma kr_inaddr_set_port_inet6 `{SockaddrLayout} (a : list Z) (port : Z) :
  sa_family a = AF_INET6 ->
  exists a', kr_inaddr_set_port (Some a) port = (Some a', [sin6_port]) /\
    forall i, (i < offsetof sin6_port)%nat \/ (offsetof sin6_port + 2 <= i)%nat ->
      a' !! i = a !! i.
Proof.
  intros Hf. unfold kr_inaddr_set_port. rewrite Hf. simpl.
  eexists; split; [reflexivity|]. intros i Hi. now apply store_port_frame.
Qed.

(** Storing the same port twice in one field is storing it once. *)
Lemma store_port_twice `{SockaddrLayout} (f : port_field) (port : Z)
    (a : list Z) :
  store_port f port (store_port f port a) = store_port f port a.
Proof.
  apply list_eq. intros i. unfold store_port.
  destruct (decide (i < offsetof f)%nat) as [Hlt|Hge].
  { now rewrite !list_lookup_inserts_lt. }
  destruct (decide (offsetof f + 2 <= i)%nat) as [Hhi|Hin].
  { now rewrite !list_lookup_inserts_ge by (simpl; lia). }
  destruct (decide (i < length a)%nat) as [Hl|Hl].
  - rewrite !list_lookup_inserts
      by (rewrite ?length_inserts; simpl; lia). reflexivity.
  - rewrite !lookup_ge_None_2 by (rewrite ?length_inserts; lia). reflexivity.
Qed.

(** Where the two port fields share their offset (Linux, the BSDs), the
    second store of the AF_INET arm rewrites the bytes of the first. *)
Lemma kr_inaddr_set_port_inet_shared_offset `{SockaddrLayout}
    (a : list Z) (port : Z) :
  sa_family a = AF_INET -> offsetof_sin6_port = offsetof_sin_port ->
  fst (kr_inaddr_set_port (Some a) port) = Some (store_port sin_port port a).
Proof.
  intros Hf Ho. unfold kr_inaddr_set_port. rewrite Hf. simpl.
  f_equal. unfold store_port at 1. simpl. rewrite Ho.
  apply (store_port_twice sin_port).
Qed.

(** What a store of a port leaves in its field, if the object holds the
    field: the two bytes of [htons(port)]. *)
Lemma store_port_bytes `{SockaddrLayout} (f : port_field) (port : Z)
    (a : list Z) :
  (offsetof f + 2 <= length a)%nat ->
  store_port f port a !! offsetof f = Some (Z.shiftr port 8 mod 256) /\
  store_port f port a !! S (offsetof f) = Some (port mod 256).
Proof.
  intros Hlen. unfold store_port, htons_bytes. split.
  - rewrite list_lookup_inserts by (simpl; lia).
    now rewrite Nat.sub_diag.
  - rewrite list_lookup_inserts by (simpl; lia).
    now replace (S (offsetof f) - offsetof f)%nat with 1%nat by lia.
Qed.

(** C8: where [sin_port] and [sin6_port] start at the same offset, as
    they do on Linux and the BSDs, [kr_inaddr_set_port] of a non-null
    address writes only the port field that matches the family.  For
    AF_INET (for AF_INET6) the two bytes of [sin_port] (of [sin6_port])
    hold the port in network order afterwards, if the object holds the
    field, and every byte outside that field is as before: the second
    store that the AF_INET arm runs into goes to the same two bytes.  An
    address of another family is left as it is.  The object keeps its
    size. *)
Theorem kr_inaddr_set_port_frame `{SockaddrLayout} (a : list Z) (port : Z) :
  offsetof_sin6_port = offsetof_sin_port ->
  (forall f,
     sa_family a = AF_INET /\ f = sin_port \/
     sa_family a = AF_INET6 /\ f = sin6_port ->
     exists a',
       fst (kr_inaddr_set_port (Some a) port) = Some a' /\
       length a' = length a /\
       (forall i,
          (i < offsetof f)%nat \/ (offsetof f + 2 <= i)%nat ->
          a' !! i = a !! i) /\
       ((offsetof f + 2 <= length a)%nat ->
        a' !! offsetof f = Some (Z.shiftr port 8 mod 256) /\
        a' !! S (offsetof f) = Some (port mod 256))) /\
  (sa_family a <> AF_INET -> sa_family a <> AF_INET6 ->
   fst (kr_inaddr_set_port (Some a) port) = Some a).
Proof.
  intros Hshared. split.
  - intros f Hf.
    assert (Hbytes : fst (kr_inaddr_set_port (Some a) port)
                     = Some (store_port f port a)).
    { destruct Hf as [[Hfam ->] | [Hfam ->]].
      - now apply kr_inaddr_set_port_inet_shared_offset.
      - unfold kr_inaddr_set_port. rewrite Hfam. reflexivity. }
    exists (store_port f port a). split; [exact Hbytes|].
    split; [apply length_inserts|].
    split; [intros i Hi; now apply store_port_frame|].
    apply store_port_bytes.
  - intros H4 H6. unfold kr_inaddr_set_port.
    rewrite (proj2 (Z.eqb_neq _ _) H4), (proj2 (Z.eqb_neq _ _) H6).
    reflexivity.
Qed.

(** 127.0.0.1 as a [struct sockaddr_in] on Linux, port set to 53: bytes 2
    and 3 hold the port, the other fourteen bytes are as before. *)
Lemma kr_inaddr_set_port_frame_witness :
  @offsetof_sin6_port linux_sockaddr = @offsetof_sin_port linux_sockaddr /\
  exists a',
    fst (@kr_inaddr_set_port linux_sockaddr
           (Some [2; 0; 0; 0; 127; 0; 0; 1; 0; 0; 0; 0; 0; 0; 0; 0]) 53)
    = Some a' /\
    a' = [2; 0; 0; 53; 127; 0; 0; 1; 0; 0; 0; 0; 0; 0; 0; 0] /\
    (forall i,
       (i < 2)%nat \/ (4 <= i)%nat ->
       a' !! i = [2; 0; 0; 0; 127; 0; 0; 1; 0; 0; 0; 0; 0; 0; 0; 0] !! i).
Proof.
  split; [reflexivity|].
  destruct (proj1 (@kr_inaddr_set_port_frame linux_sockaddr
                     [2; 0; 0; 0; 127; 0; 0; 1; 0; 0; 0; 0; 0; 0; 0; 0] 53
                     eq_refl)
              sin_port (or_introl (conj eq_refl eq_refl)))
    as (a' & Hset & _ & Hframe & _).
  exists a'. split; [exact Hset|]. split; [|exact Hframe].
  vm_compute in Hset. injection Hset as Hset. symmetry. exact Hset.
Defined.

End InaddrProofs.

Module RankedArrayProofs.
Import Utils.

(** The to-wire uniqueness invariant as the data model words it: no two
    distinct entries with [to_wire] set hold matching RR sets. *)
Definition wire_unique `{LibknotRRset} (array : ranked_rr_array_t) : Prop :=
  forall i j ei ej, i <> j ->
    array !! i = Some ei -> array !! j = Some ej ->
    to_wire ei = true -> to_wire ej = true ->
    rrsets_match (rr ei) (rr ej) = false.

(** The same, for entries that belong to different queries. *)
Definition wire_unique_across_queries `{LibknotRRset}
    (array : ranked_rr_array_t) : Prop :=
  forall i j ei ej,
    array !! i = Some ei -> array !! j = Some ej ->
    qry_uid ei <> qry_uid ej ->
    to_wire ei = true -> to_wire ej = true ->
    rrsets_match (rr ei) (rr ej) = false.

(** Two slots that break the invariant. *)
Definition duplicate_on_wire `{LibknotRRset} (array : ranked_rr_array_t)
    (i j : nat) : Prop :=
  i <> j /\ exists ei ej,
    array !! i = Some ei /\ array !! j = Some ej /\
    to_wire ei = true /\ to_wire ej = true /\
    rrsets_match (rr ei) (rr ej) = true.

(** What [to_wire_ensure_unique] does to one entry [e] on behalf of [e0]. *)
Definition cleared `{LibknotRRset} (e0 e : ranked_rr_array_entry_t)
    : ranked_rr_array_entry_t :=
  if (qry_uid e =? qry_uid e0) || negb (to_wire e) then e
  else if rrsets_match (rr e) (rr e0) then set_to_wire e false else e.

(** A successful call gives the array after it. *)
Definition add_ok `{Defines} `{Build} `{LibknotRRset} (rr_ : knot_rrset_t)
    (rank_ : Z) (to_wire_ : bool) (qry_uid_ : Z) (pool : knot_mm_t)
    (array : ranked_rr_array_t) : option ranked_rr_array_t :=
  match kr_ranked_rrarray_add array rr_ rank_ to_wire_ qry_uid_ pool with
  | Some (ret, array) => if ret =? 0 then Some array else None
  | None => None
  end.

Section Invariant.
Context `{Defines} `{Build} `{LibknotRRset}.

Lemma duplicate_breaks_wire_unique (array : ranked_rr_array_t) (i j : nat) :
  duplicate_on_wire array i j -> ~ wire_unique array.
Proof.
  intros (Hij & ei & ej & Hi & Hj & Wi & Wj & Hm) Hu.
  rewrite (Hu i j ei ej Hij Hi Hj Wi Wj) in Hm. discriminate.
Qed.

Lemma cleared_qry_uid e0 e : qry_uid (cleared e0 e) = qry_uid e.
Proof. unfold cleared. repeat case_match; reflexivity. Qed.

Lemma cleared_rr e0 e : rr (cleared e0 e) = rr e.
Proof. unfold cleared. repeat case_match; reflexivity. Qed.

Lemma cleared_to_wire e0 e :
  to_wire (cleared e0 e) = true ->
  to_wire e = true /\
  (qry_uid e <> qry_uid e0 -> rrsets_match (rr e) (rr e0) = false).
Proof.
  unfold cleared.
  destruct (Z.eqb_spec (qry_uid e) (qry_uid e0)) as [E|N]; simpl.
  - intros W. split; [assumption | congruence].
  - destruct (to_wire e) eqn:W; simpl; [|intros W'; congruence].
    destruct (rrsets_match (rr e) (rr e0)) eqn:M; simpl; [discriminate|].
    auto.
Qed.

Lemma cleared_same_query e0 e : qry_uid e = qry_uid e0 -> cleared e0 e = e.
Proof.
  intros E. unfold cleared. rewrite (proj2 (Z.eqb_eq _ _) E). reflexivity.
Qed.

(** The backward loop rewrites the slots below [n], each on its own. *)
Lemma to_wire_ensure_unique_loop_lookup e0 n (array : ranked_rr_array_t) k :
  to_wire_ensure_unique_loop e0 n array !! k
  = if decide (k < n)%nat then cleared e0 <$> array !! k else array !! k.
Proof.
  revert array. induction n as [|i IH]; intros array.
  - simpl. destruct (decide (k < 0)%nat); [lia | reflexivity].
  - cbn [to_wire_ensure_unique_loop]. rewrite IH. clear IH.
    destruct (decide (k < i)%nat) as [Hki|Hki].
    + destruct (decide (k < S i)%nat); [|lia].
      f_equal. repeat case_match; try reflexivity.
      apply list_lookup_insert_ne. lia.
    + destruct (decide (k < S i)%nat) as [Hks|Hks].
      * assert (k = i) by lia. subst k.
        destruct (array !! i) as [ei|] eqn:Hi; [|now rewrite Hi].
        unfold cleared. simpl.
        destruct ((qry_uid ei =? qry_uid e0) || negb (to_wire ei));
          [now rewrite Hi|].
        destruct (rrsets_match (rr ei) (rr e0)); [|now rewrite Hi].
        apply list_lookup_insert_eq. eauto using lookup_lt_Some.
      * repeat case_match; try reflexivity.
        apply list_lookup_insert_ne. lia.
Qed.

Lemma to_wire_ensure_unique_loop_map e0 (array : ranked_rr_array_t) :
  to_wire_ensure_unique_loop e0 (length array) array = (cleared e0 <$> array).
Proof.
  apply list_eq. intros k.
  rewrite to_wire_ensure_unique_loop_lookup, list_lookup_fmap.
  destruct (decide (k < length array)%nat) as [|Hk]; [reflexivity|].
  rewrite lookup_ge_None_2 by lia. reflexivity.
Qed.

(** [to_wire_ensure_unique] on a valid index: nothing when that entry is
    not for the wire, else every slot is [cleared]. *)
Lemma to_wire_ensure_unique_spec (array : ranked_rr_array_t) index e0 :
  array !! index = Some e0 ->
  to_wire_ensure_unique (Some array) index
  = (kr_ok, Some (if to_wire e0 then (cleared e0 <$> array) else array)).
Proof.
  intros Hi. unfold to_wire_ensure_unique. rewrite Hi.
  destruct (to_wire e0); simpl; [|reflexivity].
  now rewrite to_wire_ensure_unique_loop_map.
Qed.


(** Every pair of slots other than [i] satisfies the invariant. *)
Definition unique_except (i : nat) (array : ranked_rr_array_t) : Prop :=
  forall a b ea eb, a <> i -> b <> i ->
    array !! a = Some ea -> array !! b = Some eb ->
    qry_uid ea <> qry_uid eb ->
    to_wire ea = true -> to_wire eb = true ->
    rrsets_match (rr ea) (rr eb) = false.

Lemma unique_except_append (array : ranked_rr_array_t) e :
  wire_unique_across_queries array ->
  unique_except (length array) (array ++ [e]).
Proof.
  intros Hu a b ea eb Ha Hb La Lb.
  assert (a < length array)%nat.
  { apply lookup_lt_Some in La. rewrite length_app in La. simpl in La. lia. }
  assert (b < length array)%nat.
  { apply lookup_lt_Some in Lb. rewrite length_app in Lb. simpl in Lb. lia. }
  rewrite lookup_app_l in La, Lb by assumption. eauto.
Qed.

Lemma unique_except_insert (array : ranked_rr_array_t) i e :
  wire_unique_across_queries array -> unique_except i (<[i := e]> array).
Proof.
  intros Hu a b ea eb Ha Hb La Lb.
  rewrite list_lookup_insert_ne in La, Lb by congruence. eauto.
Qed.

Lemma unique_except_not_wire (array : ranked_rr_array_t) i e0 :
  array !! i = Some e0 -> to_wire e0 = false ->
  unique_except i array -> wire_unique_across_queries array.
Proof.
  intros Hi W Hu a b ea eb La Lb Hq Wa Wb.
  destruct (decide (a = i)) as [->|Ha]; [congruence|].
  destruct (decide (b = i)) as [->|Hb]; [congruence|].
  eauto.
Qed.

Section Symmetric.
(** [knot_dname_is_equal] does not depend on the order of its arguments. *)
Hypothesis knot_dname_is_equal_sym :
  forall a b, knot_dname_is_equal a b = knot_dname_is_equal b a.

Lemma rrsets_match_sym (r1 r2 : knot_rrset_t) :
  rrsets_match r1 r2 = rrsets_match r2 r1.
Proof using knot_dname_is_equal_sym.
  unfold rrsets_match.
  rewrite (knot_dname_is_equal_sym (owner r1)).
  rewrite (Z.eqb_sym (type r1)), (Z.eqb_sym (rclass r1)).
  rewrite (Z.eqb_sym (knot_rrsig_type_covered (rrs_rdata r1))).
  destruct (Z.eqb_spec (type r2) (type r1)) as [E|N]; [|reflexivity].
  rewrite E. reflexivity.
Qed.

(** Clearing on behalf of the entry in slot [i] restores the invariant
    when only pairs with slot [i] could break it. *)
Lemma cleared_restores (array : ranked_rr_array_t) i e0 :
  array !! i = Some e0 -> unique_except i array ->
  wire_unique_across_queries (cleared e0 <$> array).
Proof using knot_dname_is_equal_sym.
  intros Hi Hu a b ea' eb' La Lb.
  rewrite list_lookup_fmap in La, Lb.
  destruct (array !! a) as [ea|] eqn:Ea; [|discriminate].
  destruct (array !! b) as [eb|] eqn:Eb; [|discriminate].
  simpl in La, Lb. injection La as <-. injection Lb as <-.
  rewrite !cleared_qry_uid, !cleared_rr. intros Hq Wa Wb.
  apply cleared_to_wire in Wa as [Wa Ma], Wb as [Wb Mb].
  destruct (decide (a = i)) as [->|Ha]; destruct (decide (b = i)) as [->|Hb].
  - congruence.
  - assert (ea = e0) by congruence. subst ea.
    rewrite rrsets_match_sym. apply Mb. congruence.
  - assert (eb = e0) by congruence. subst eb. apply Ma. congruence.
  - exact (Hu a b ea eb Ha Hb Ea Eb Hq Wa Wb).
Qed.

(** The turn of [to_wire_ensure_unique] after slot [i] was written. *)
Lemma to_wire_ensure_unique_restores (array : ranked_rr_array_t) i e0 :
  array !! i = Some e0 -> unique_except i array ->
  exists array',
    to_wire_ensure_unique (Some array) i = (kr_ok, Some array') /\
    wire_unique_across_queries array'.
Proof using knot_dname_is_equal_sym.
  intros Hi Hu. rewrite (to_wire_ensure_unique_spec _ _ _ Hi).
  eexists; split; [reflexivity|].
  destruct (to_wire e0) eqn:W.
  - eapply cleared_restores; eauto.
  - eapply unique_except_not_wire; eauto.
Qed.

Lemma rrarray_add_append_preserves (array : ranked_rr_array_t)
    rr_ rank_ to_wire_ qry_uid_ pool ret array' :
  wire_unique_across_queries array ->
  rrarray_add_find array rr_ qry_uid_ (length array) = None ->
  kr_ranked_rrarray_add array rr_ rank_ to_wire_ qry_uid_ pool
  = Some (ret, array') ->
  wire_unique_across_queries array'.
Proof using knot_dname_is_equal_sym.
  intros Hu Hfind. unfold kr_ranked_rrarray_add. rewrite Hfind.
  destruct (negb (array_reserve_mm (length array + 1) pool =? 0));
    [intros [= _ <-]; assumption|].
  destruct (negb (mm_alloc pool)); [intros [= _ <-]; assumption|].
  destruct (knot_rrset_copy rr_ pool) as [copy|];
    [|intros [= _ <-]; assumption].
  cbv zeta.
  set (entry := {| qry_uid := qry_uid_; rank := rank_; revalidation_cnt := 0;
                   cached := false; yielded := false; to_wire := to_wire_;
                   rr := copy |}).
  replace (length (array ++ [entry]) - 1)%nat with (length array)
    by (rewrite length_app; simpl; lia).
  destruct (to_wire_ensure_unique_restores (array ++ [entry]) (length array)
              entry) as (a' & E & Ha').
  - apply list_lookup_middle. reflexivity.
  - now apply unique_except_append.
  - rewrite E. intros [= _ <-]. assumption.
Qed.

Lemma rrarray_set_wire_loop_preserves to_wire_ qry_uid_ check_dups extraCheck
    n i (array : ranked_rr_array_t) ret array' :
  check_dups = true \/ to_wire_ = false ->
  wire_unique_across_queries array ->
  rrarray_set_wire_loop to_wire_ qry_uid_ check_dups extraCheck n i array
    = (ret, array') ->
  wire_unique_across_queries array'.
Proof using knot_dname_is_equal_sym.
  intros Hgate. revert i array.
  induction n as [|n IH]; intros i array Hu; cbn [rrarray_set_wire_loop].
  { intros [= _ <-]. assumption. }
  destruct (array !! i) as [entry|] eqn:Hi; [|now apply IH].
  destruct (negb (qry_uid entry =? qry_uid_)); [now apply IH|].
  destruct (match extraCheck with
            | Some check => negb (check entry)
            | None => false
            end); [now apply IH|].
  set (e0 := set_to_wire entry to_wire_).
  assert (Hlt : (i < length array)%nat) by eauto using lookup_lt_Some.
  assert (Hi0 : <[i := e0]> array !! i = Some e0)
    by now apply list_lookup_insert_eq.
  pose proof (unique_except_insert array i e0 Hu) as Hex.
  destruct check_dups.
  - destruct (to_wire_ensure_unique_restores _ _ _ Hi0 Hex)
      as (a' & E & Ha').
    rewrite E, kr_ok_zero. simpl. now apply IH.
  - destruct Hgate as [Hc | ->]; [discriminate|].
    apply IH. eapply unique_except_not_wire; eauto.
Qed.

End Symmetric.

(** C5, as the code keeps it.  Let [knot_dname_is_equal] be symmetric and
    let no two to-wire entries of different queries hold matching RR sets.
    Then the same holds after [kr_ranked_rrarray_add] when it appends a new
    entry (its search finds none to merge with), and after
    [kr_ranked_rrarray_set_wire] called with [check_dups] set or with
    [to_wire] false. *)
Theorem wire_unique_across_queries_preserved (array : ranked_rr_array_t) :
  (forall a b, knot_dname_is_equal a b = knot_dname_is_equal b a) ->
  wire_unique_across_queries array ->
  (forall rr_ rank_ to_wire_ qry_uid_ pool ret array',
     rrarray_add_find array rr_ qry_uid_ (length array) = None ->
     kr_ranked_rrarray_add array rr_ rank_ to_wire_ qry_uid_ pool
       = Some (ret, array') ->
     wire_unique_across_queries array') /\
  (forall to_wire_ qry_uid_ check_dups extraCheck ret array',
     check_dups = true \/ to_wire_ = false ->
     kr_ranked_rrarray_set_wire array to_wire_ qry_uid_ check_dups extraCheck
       = (ret, array') ->
     wire_unique_across_queries array').
Proof.
  intros Hsym Hu. split.
  - intros. eapply rrarray_add_append_preserves; eauto.
  - intros * Hgate Hcall. unfold kr_ranked_rrarray_set_wire in Hcall.
    eapply rrarray_set_wire_loop_preserves; eauto.
Qed.


(** The search of [kr_ranked_rrarray_add] finds slot [i] when it holds a
    matching entry of the query that is not yielded, and every later slot
    holds an entry of the query that is not yielded and does not match. *)
Lemma rrarray_add_find_found (array : ranked_rr_array_t) rr_ qry_uid_ i
    stashed n :
  array !! i = Some stashed ->
  yielded stashed = false -> qry_uid stashed = qry_uid_ ->
  rrsets_match (rr stashed) rr_ = true ->
  (forall j e, (i < j)%nat -> array !! j = Some e ->
     yielded e = false /\ qry_uid e = qry_uid_ /\
     rrsets_match (rr e) rr_ = false) ->
  (i < n)%nat -> (n <= length array)%nat ->
  rrarray_add_find array rr_ qry_uid_ n = Some i.
Proof.
  intros Hi Hy Hq Hm Hlater. induction n as [|k IH]; intros Hin Hn; [lia|].
  cbn [rrarray_add_find].
  destruct (decide (k = i)) as [->|Hk].
  - rewrite Hi, Hy, Hq, Z.eqb_refl, Hm. reflexivity.
  - destruct (array !! k) as [e|] eqn:Ek.
    + destruct (Hlater k e ltac:(lia) Ek) as (Ey & Eq & Em).
      rewrite Ey, Eq, Z.eqb_refl, Em. simpl. apply IH; lia.
    + apply lookup_ge_None in Ek. lia.
Qed.

(** C6, as the code has it.  Let slot [i] hold the entry the search of
    [kr_ranked_rrarray_add] stops at: of the same query, not yielded,
    matching [rr], with only non-matching, not yielded entries of that
    query after it.  If its rank equals the new rank and it is not cached,
    the call returns what [knot_rdataset_merge] returns and leaves in slot
    [i] the entry with the merged rdata, [to_wire] or-ed with the new flag
    and the rank as it was (old and new rank being equal, also their
    maximum).  If the ranks differ or the entry is cached, the call runs
    into [assert(false)]: built with assertions it aborts there and
    returns nothing; built with NDEBUG it fails with EEXIST and the array
    is as before. *)
Theorem kr_ranked_rrarray_add_merges (array : ranked_rr_array_t)
    (rr_ : knot_rrset_t) (rank_ : Z) (to_wire_ : bool) (qry_uid_ : Z)
    (pool : knot_mm_t) (i : nat) (stashed : ranked_rr_array_entry_t) :
  array !! i = Some stashed ->
  yielded stashed = false -> qry_uid stashed = qry_uid_ ->
  rrsets_match (rr stashed) rr_ = true ->
  (forall j e, (i < j)%nat -> array !! j = Some e ->
     yielded e = false /\ qry_uid e = qry_uid_ /\
     rrsets_match (rr e) rr_ = false) ->
  (rank stashed = rank_ /\ cached stashed = false ->
   forall ret merged,
     knot_rdataset_merge (rrs (rr stashed)) (rrs rr_) pool = (ret, merged) ->
     kr_ranked_rrarray_add array rr_ rank_ to_wire_ qry_uid_ pool
     = Some (ret,
             <[i := {| qry_uid := qry_uid stashed; rank := rank stashed;
                       revalidation_cnt := revalidation_cnt stashed;
                       cached := cached stashed; yielded := yielded stashed;
                       to_wire := to_wire stashed || to_wire_;
                       rr := set_rrs (rr stashed) merged |}]> array) /\
     rank stashed = Z.max (rank stashed) rank_) /\
  (rank stashed <> rank_ \/ cached stashed = true ->
   kr_ranked_rrarray_add array rr_ rank_ to_wire_ qry_uid_ pool
   = (if NDEBUG then Some (kr_error EEXIST, array) else None) /\
   kr_error EEXIST <> 0).
Proof.
  intros Hi Hy Hq Hm Hlater.
  assert (Hfind : rrarray_add_find array rr_ qry_uid_ (length array) = Some i).
  { eapply rrarray_add_find_found; eauto using lookup_lt_Some. }
  unfold kr_ranked_rrarray_add. rewrite Hfind, Hi. split.
  - intros [Hr Hc] ret merged Hmerge.
    replace ((rank stashed =? rank_) && negb (cached stashed)) with true
      by (rewrite Hr, Z.eqb_refl, Hc; reflexivity).
    simpl. rewrite Hmerge. split; [reflexivity | lia].
  - intros Hbad.
    assert (E : (rank stashed =? rank_) && negb (cached stashed) = false).
    { destruct Hbad as [Hr | ->]; [|apply andb_false_r].
      now rewrite (proj2 (Z.eqb_neq _ _) Hr). }
    rewrite E. simpl. split; [reflexivity|].
    pose proof (kr_error_neg EEXIST ltac:(reflexivity)). lia.
Qed.

End Invariant.

(** *** Runs of the model *)

(** Two A records for the root name, and one for another owner. *)
Definition rr_a1 : knot_rrset_t :=
  {| owner := [0]; type := 1; rclass := 1; rrs := [[192; 0; 2; 1]] |}.
Definition rr_a2 : knot_rrset_t :=
  {| owner := [0]; type := 1; rclass := 1; rrs := [[192; 0; 2; 2]] |}.
Definition rr_other : knot_rrset_t :=
  {| owner := [1; 97; 0]; type := 1; rclass := 1; rrs := [[192; 0; 2; 3]] |}.

Definition entry_of (uid rank_ : Z) (wire : bool) (r : knot_rrset_t)
    : ranked_rr_array_entry_t :=
  {| qry_uid := uid; rank := rank_; revalidation_cnt := 0; cached := false;
     yielded := false; to_wire := wire; rr := r |}.

Lemma plain_dname_is_equal_sym (a b : list Z) :
  @knot_dname_is_equal plain_rrset_lib a b
  = @knot_dname_is_equal plain_rrset_lib b a.
Proof. apply bool_decide_ext. split; congruence. Qed.

Lemma single_entry_unique (e : ranked_rr_array_entry_t) :
  @wire_unique_across_queries plain_rrset_lib [e].
Proof.
  intros [|i] [|j] ei ej Hi Hj; simpl in Hi, Hj; try discriminate.
  congruence.
Qed.

(** One entry of query 1 on the wire: appending the same RR set for query
    2, and setting the wire flag of query 1 with the duplicate check, both
    keep the to-wire entries of different queries apart. *)
Lemma wire_unique_across_queries_preserved_witness :
  (exists ret array',
     @kr_ranked_rrarray_add upstream_defines debug_build plain_rrset_lib
       [entry_of 1 0 true rr_a1] rr_a1 0 true 2 tt = Some (ret, array') /\
     @wire_unique_across_queries plain_rrset_lib array') /\
  @wire_unique_across_queries plain_rrset_lib
    (snd (@kr_ranked_rrarray_set_wire upstream_defines plain_rrset_lib
            [entry_of 1 0 true rr_a1] true 1 true None)).
Proof.
  destruct (@wire_unique_across_queries_preserved upstream_defines
              debug_build plain_rrset_lib [entry_of 1 0 true rr_a1]
              plain_dname_is_equal_sym (single_entry_unique _))
    as [Hadd Hset].
  split.
  - do 2 eexists. split; [reflexivity|].
    exact (Hadd rr_a1 0 true 2 tt _ _ eq_refl eq_refl).
  - exact (Hset true 1 true None _ _ (or_introl eq_refl)
             (surjective_pairing _)).
Defined.

(** C5 as stated fails on arrays built from the empty one by successful
    calls.  (1) An entry of query 2 that was added off the wire is merged
    with [to_wire] set, while query 1 holds the same RR set on the wire.
    (2) Query 1 adds an RR set again after an entry of query 2: the search
    stops at that entry, a second entry is appended, and the duplicate
    check skips entries of the same query.  (3) [set_wire] without
    [check_dups] sets the flag back on an entry that had been cleared. *)
Lemma wire_unique_broken :
  (exists array,
     (add_ok rr_a1 0 true 1 tt [] ≫= add_ok rr_a1 0 false 2 tt)
       ≫= add_ok rr_a2 0 true 2 tt = Some array /\
     duplicate_on_wire array 0 1) /\
  (exists array,
     (add_ok rr_a1 0 true 1 tt [] ≫= add_ok rr_other 0 true 2 tt)
       ≫= add_ok rr_a2 0 true 1 tt = Some array /\
     duplicate_on_wire array 0 2) /\
  (exists array0 array,
     add_ok rr_a1 0 true 1 tt [] ≫= add_ok rr_a1 0 true 2 tt = Some array0 /\
     kr_ranked_rrarray_set_wire array0 true 1 false None = (0, array) /\
     duplicate_on_wire array 0 1).
Proof.
  split; [|split].
  - eexists. split; [vm_compute; reflexivity|].
    split; [lia|]. do 2 eexists. repeat split; reflexivity.
  - eexists. split; [vm_compute; reflexivity|].
    split; [lia|]. do 2 eexists. repeat split; reflexivity.
  - do 2 eexists. split; [vm_compute; reflexivity|].
    split; [vm_compute; reflexivity|].
    split; [lia|]. do 2 eexists. repeat split; reflexivity.
Qed.

(** Merging a second A record into the entry of the same query and rank. *)
Lemma kr_ranked_rrarray_add_merges_witness :
  @kr_ranked_rrarray_add upstream_defines debug_build plain_rrset_lib
    [entry_of 1 0 false rr_a1] rr_a2 0 true 1 tt
  = Some (0, [entry_of 1 0 true
                {| owner := [0]; type := 1; rclass := 1;
                   rrs := [[192; 0; 2; 1]; [192; 0; 2; 2]] |}]) /\
  0 = Z.max 0 0.
Proof.
  refine (proj1 (@kr_ranked_rrarray_add_merges upstream_defines debug_build
                   plain_rrset_lib [entry_of 1 0 false rr_a1] rr_a2 0 true 1
                   tt 0%nat (entry_of 1 0 false rr_a1)
                   eq_refl eq_refl eq_refl eq_refl _)
                (conj eq_refl eq_refl) 0 _ eq_refl).
  intros j e Hj He. destruct j; [lia | discriminate].
Defined.

(** C6 as stated fails: with an entry of the same query and RR-set key but
    of rank 1, adding with rank 2 does not succeed and raises no rank:
    built with assertions the call aborts, built with NDEBUG it returns
    the error of EEXIST and the stored rank stays 1, not the maximum 2.
    And an entry of the same query and key that lies behind an entry of
    another query is not merged with: a new entry is appended. *)
Lemma kr_ranked_rrarray_add_rank_mismatch :
  (@kr_ranked_rrarray_add upstream_defines debug_build plain_rrset_lib
     [entry_of 1 1 false rr_a1] rr_a2 2 true 1 tt = None /\
   @kr_ranked_rrarray_add upstream_defines ndebug_build plain_rrset_lib
     [entry_of 1 1 false rr_a1] rr_a2 2 true 1 tt
   = Some (-17, [entry_of 1 1 false rr_a1]) /\ 1 <> Z.max 1 2) /\
  @kr_ranked_rrarray_add upstream_defines debug_build plain_rrset_lib
    [entry_of 1 0 false rr_a1; entry_of 2 0 false rr_other] rr_a2 0 true 1 tt
  = Some (0, [entry_of 1 0 false rr_a1; entry_of 2 0 false rr_other;
              entry_of 1 0 true rr_a2]).
Proof. repeat split; try reflexivity. lia. Qed.

End RankedArrayProofs.

Module DnssecProofs.
Import Dnssec.

Section Validator.
Context `{Defines} `{Libknot} `{Libdnssec} `{!Validators}.

(** The label count [n] of the labels check: the owner's labels, without
    the asterisk of a wildcard owner. *)
Definition covered_labels (covered : knot_rrset_t) : Z :=
  knot_dname_labels (owner covered)
  - (if knot_dname_is_wildcard (owner covered) then 1 else 0).

(** The per-signature checks 1 to 7 of RFC 4035, section 5.3.1, for the
    record at [sig_pos] of [rrsigs] and the key at [key_pos] of [keys]. *)
Definition rrsig_valid (covered rrsigs : knot_rrset_t) (sig_pos : nat)
    (keys : knot_rrset_t) (key_pos : nat) (key : dnssec_key_t)
    (zone_name : knot_dname_t) (timestamp : Z) : Prop :=
  (rclass covered = rclass rrsigs /\
   knot_dname_is_equal (owner covered) (owner rrsigs) = true) /\
  (exists signer_name,
     knot_rrsig_signer_name (rrs rrsigs) sig_pos = Some signer_name /\
     knot_dname_cmp signer_name zone_name = 0 /\
     knot_dname_cmp (owner keys) signer_name = 0) /\
  knot_rrsig_type_covered (rrs rrsigs) sig_pos = type covered /\
  knot_rrsig_labels (rrs rrsigs) sig_pos <= covered_labels covered /\
  timestamp <= knot_rrsig_sig_expiration (rrs rrsigs) sig_pos /\
  knot_rrsig_sig_inception (rrs rrsigs) sig_pos <= timestamp /\
  knot_dnskey_alg (rrs keys) key_pos
    = knot_rrsig_algorithm (rrs rrsigs) sig_pos /\
  dnssec_key_get_keytag key = knot_rrsig_key_tag (rrs rrsigs) sig_pos.

(** Checks 1 to 3 alone: class and owner, signer, covered type. *)
Definition rrsig_names_match (covered rrsigs : knot_rrset_t) (sig_pos : nat)
    (zone_name : knot_dname_t) : Prop :=
  (rclass covered = rclass rrsigs /\
   knot_dname_is_equal (owner covered) (owner rrsigs) = true) /\
  (exists signer_name,
     knot_rrsig_signer_name (rrs rrsigs) sig_pos = Some signer_name /\
     knot_dname_cmp signer_name zone_name = 0) /\
  knot_rrsig_type_covered (rrs rrsigs) sig_pos = type covered.

(** Whether the labels check flags wildcard expansion. *)
Definition expanded (covered rrsig : knot_rrset_t) (j : nat) : bool :=
  knot_rrsig_labels (rrs rrsig) j <? covered_labels covered.

(** The number of labels the code trims for the signature and NSEC3
    checks of an expanded answer. *)
Definition trim_of (covered rrsig : knot_rrset_t) (j : nat) : Z :=
  if expanded covered rrsig j
  then knot_dname_labels (owner covered) - knot_rrsig_labels (rrs rrsig) j
  else 0.

(** The inner loop accepts record [j] of [rrsig]: the checks pass, the
    signature verifies, and for an expanded answer the wildcard answer
    check over the authority section succeeds. *)
Definition sig_accepted (pkt : knot_pkt_t) (covered keys : knot_rrset_t)
    (key_pos : nat) (key : dnssec_key_t) (zone_name : knot_dname_t)
    (timestamp : Z) (has_nsec3 : bool) (rrsig : knot_rrset_t) (j : nat)
    : Prop :=
  rrsig_valid covered rrsig j keys key_pos key zone_name timestamp /\
  kr_check_signature rrsig j key covered (trim_of covered rrsig j) = 0 /\
  (expanded covered rrsig j = true ->
   (if has_nsec3
    then kr_nsec3_wildcard_answer_response_check pkt KNOT_AUTHORITY
           (owner covered) (trim_of covered rrsig j - 1)
    else kr_nsec_wildcard_answer_response_check pkt KNOT_AUTHORITY
           (owner covered)) = 0).

(** What the claim asks of a signature: it is in the section, covers the
    RR set, is valid at [now], is signed by the zone cut and verifies
    under [key]. *)
Definition secure_rrsig (pkt : knot_pkt_t) (section_id : knot_section_t)
    (covered : knot_rrset_t) (key : dnssec_key_t) (zone_name : knot_dname_t)
    (now : Z) (rrsig : knot_rrset_t) (j : nat) : Prop :=
  In rrsig (knot_pkt_section pkt section_id) /\
  type rrsig = KNOT_RRTYPE_RRSIG /\ (j < length (rrs rrsig))%nat /\
  (rclass rrsig = rclass covered /\
   knot_dname_is_equal (owner covered) (owner rrsig) = true /\
   knot_rrsig_type_covered (rrs rrsig) j = type covered) /\
  (knot_rrsig_sig_inception (rrs rrsig) j <= now
   <= knot_rrsig_sig_expiration (rrs rrsig) j) /\
  (exists signer_name,
     knot_rrsig_signer_name (rrs rrsig) j = Some signer_name /\
     knot_dname_cmp signer_name zone_name = 0) /\
  (exists trim_labels, kr_check_signature rrsig j key covered trim_labels = 0).

Lemma kr_error_nonzero (e : Z) : 0 < e -> (kr_error e =? 0) = false.
Proof. intros He. apply Z.eqb_neq. pose proof (kr_error_neg e He). lia. Qed.

Lemma kr_error_EINVAL_nonzero : kr_error EINVAL <> 0.
Proof. apply Z.eqb_neq, kr_error_nonzero. reflexivity. Qed.

Lemma dname_labels_adjusted (covered : knot_rrset_t) :
  (if knot_dname_is_wildcard (owner covered)
   then knot_dname_labels (owner covered) - 1
   else knot_dname_labels (owner covered)) = covered_labels covered.
Proof.
  unfold covered_labels.
  destruct (knot_dname_is_wildcard (owner covered)); lia.
Qed.

(** A signature that passes the checks makes [validate_rrsig_rr] return
    success, with the wildcard flag added when it has fewer labels. *)
Lemma validate_rrsig_rr_valid flags covered rrsigs sig_pos keys key_pos key
    zone_name timestamp :
  rrsig_valid covered rrsigs sig_pos keys key_pos key zone_name timestamp ->
  validate_rrsig_rr flags covered rrsigs sig_pos keys key_pos (Some key)
    (Some zone_name) timestamp
  = (kr_ok, if expanded covered rrsigs sig_pos
            then Z.lor flags FLG_WILDCARD_EXPANSION else flags).
Proof.
  intros ((Hc & Ho) & (s & Hs & Hz & Hk) & Ht & Hl & He & Hi & Ha & Hg).
  unfold validate_rrsig_rr, expanded.
  rewrite Hc, Z.eqb_refl, Ho, Hs, Hz, Ht, Z.eqb_refl. simpl.
  rewrite dname_labels_adjusted.
  destruct (Z.gtb_spec (knot_rrsig_labels (rrs rrsigs) sig_pos)
              (covered_labels covered)); [lia|].
  destruct (Z.ltb_spec (knot_rrsig_sig_expiration (rrs rrsigs) sig_pos)
              timestamp); [lia|].
  destruct (Z.gtb_spec (knot_rrsig_sig_inception (rrs rrsigs) sig_pos)
              timestamp); [lia|].
  rewrite Hk, Ha, Hg, !Z.eqb_refl. reflexivity.
Qed.

(** Success of [validate_rrsig_rr] means the checks pass. *)
Lemma validate_rrsig_rr_ok flags covered rrsigs sig_pos keys key_pos key
    zone_name timestamp :
  fst (validate_rrsig_rr flags covered rrsigs sig_pos keys key_pos key
         zone_name timestamp) = 0 ->
  exists k z, key = Some k /\ zone_name = Some z /\
    rrsig_valid covered rrsigs sig_pos keys key_pos k z timestamp.
Proof.
  pose proof kr_error_EINVAL_nonzero as Hne.
  unfold validate_rrsig_rr.
  destruct key as [k|]; [|simpl; intros; contradiction].
  destruct zone_name as [z|]; [|simpl; intros; contradiction].
  destruct (Z.eqb_spec (rclass covered) (rclass rrsigs)) as [Hc|];
    [|simpl; intros; contradiction].
  destruct (knot_dname_is_equal (owner covered) (owner rrsigs)) eqn:Ho;
    [|simpl; intros; contradiction].
  simpl.
  destruct (knot_rrsig_signer_name (rrs rrsigs) sig_pos) as [s|] eqn:Hs;
    [|simpl; intros; contradiction].
  destruct (Z.eqb_spec (knot_dname_cmp s z) 0) as [Hz|];
    [|simpl; intros; contradiction].
  destruct (Z.eqb_spec (knot_rrsig_type_covered (rrs rrsigs) sig_pos)
              (type covered)) as [Ht|]; [|simpl; intros; contradiction].
  simpl. rewrite dname_labels_adjusted.
  destruct (Z.gtb_spec (knot_rrsig_labels (rrs rrsigs) sig_pos)
              (covered_labels covered)) as [|Hl];
    [simpl; intros; contradiction|].
  destruct (Z.ltb_spec (knot_rrsig_sig_expiration (rrs rrsigs) sig_pos)
              timestamp) as [|He]; [simpl; intros; contradiction|].
  destruct (Z.gtb_spec (knot_rrsig_sig_inception (rrs rrsigs) sig_pos)
              timestamp) as [|Hi]; [simpl; intros; contradiction|].
  destruct (Z.eqb_spec (knot_dname_cmp (owner keys) s) 0) as [Hk|];
    [|simpl; intros; contradiction].
  destruct (Z.eqb_spec (knot_dnskey_alg (rrs keys) key_pos)
              (knot_rrsig_algorithm (rrs rrsigs) sig_pos)) as [Ha|];
    [|simpl; intros; contradiction].
  destruct (Z.eqb_spec (dnssec_key_get_keytag k)
              (knot_rrsig_key_tag (rrs rrsigs) sig_pos)) as [Hg|];
    [|simpl; intros; contradiction].
  intros _. exists k, z. unfold rrsig_valid. eauto 20.
Qed.


Lemma flag_of_expanded (b : bool) :
  c_true (Z.land (if b then Z.lor 0 FLG_WILDCARD_EXPANSION else 0)
            FLG_WILDCARD_EXPANSION) = b.
Proof. destruct b; reflexivity. Qed.

(** The wildcard answer check, by the kind of denial the zone uses. *)
Definition wildcard_check (pkt : knot_pkt_t) (covered : knot_rrset_t)
    (has_nsec3 : bool) (trim_labels : Z) : Z :=
  if has_nsec3
  then kr_nsec3_wildcard_answer_response_check pkt KNOT_AUTHORITY
         (owner covered) (trim_labels - 1)
  else kr_nsec_wildcard_answer_response_check pkt KNOT_AUTHORITY
         (owner covered).

Lemma with_key_wildcard_check_eq pkt covered has_nsec3 trim_labels :
  with_key_wildcard_check pkt covered has_nsec3 trim_labels
  = wildcard_check pkt covered has_nsec3 trim_labels.
Proof.
  unfold with_key_wildcard_check, wildcard_check. now destruct has_nsec3.
Qed.

(** The trim of an expanded answer is positive: the [break] on a negative
    [trim_labels] is never taken. *)
Lemma trim_of_expanded covered rrsig j :
  expanded covered rrsig j = true -> 0 < trim_of covered rrsig j.
Proof.
  unfold trim_of, expanded, covered_labels. intros E. rewrite E.
  apply Z.ltb_lt in E.
  destruct (knot_dname_is_wildcard (owner covered)); lia.
Qed.

(** One turn of the inner loop on a signature that passes the checks. *)
Lemma with_key_try_rrsig_valid pkt covered keys key_pos key zone_name
    timestamp has_nsec3 rrsig j ret :
  rrsig_valid covered rrsig j keys key_pos key zone_name timestamp ->
  with_key_try_rrsig pkt covered keys key_pos (Some key) (Some zone_name)
    timestamp has_nsec3 rrsig j ret
  = if negb (kr_check_signature rrsig j key covered
               (trim_of covered rrsig j) =? 0)
    then (Continue, ret)
    else if expanded covered rrsig j
         then
           if negb (wildcard_check pkt covered has_nsec3
                      (trim_of covered rrsig j) =? 0)
           then (Continue,
                 wildcard_check pkt covered has_nsec3
                   (trim_of covered rrsig j))
           else (Break, kr_ok)
         else (Break, kr_ok).
Proof.
  intros Hv. unfold with_key_try_rrsig.
  rewrite (validate_rrsig_rr_valid _ _ _ _ _ _ _ _ _ Hv).
  rewrite kr_ok_zero. cbn [negb Z.eqb].
  unfold with_key_trim_labels, wildcard_radix_len_diff.
  rewrite flag_of_expanded, with_key_wildcard_check_eq.
  fold (trim_of covered rrsig j).
  destruct (expanded covered rrsig j) eqn:E; [|reflexivity].
  pose proof (trim_of_expanded _ _ _ E) as Hpos.
  destruct (Z.ltb_spec (trim_of covered rrsig j) 0); [lia|].
  reflexivity.
Qed.

(** One turn on a signature that fails them: on to the next. *)
Lemma with_key_try_rrsig_invalid pkt covered keys key_pos key zone_name
    timestamp has_nsec3 rrsig j ret :
  fst (validate_rrsig_rr 0 covered rrsig j keys key_pos key zone_name
         timestamp) <> 0 ->
  with_key_try_rrsig pkt covered keys key_pos key zone_name timestamp
    has_nsec3 rrsig j ret = (Continue, ret).
Proof.
  intros Hv. unfold with_key_try_rrsig.
  destruct (validate_rrsig_rr 0 covered rrsig j keys key_pos key zone_name
              timestamp) as [vret flags]. simpl in Hv.
  now rewrite (proj2 (Z.eqb_neq _ _) Hv).
Qed.

(** A turn ends in [break] only by accepting the signature; a turn that
    goes on leaves [ret] as it was or sets it to a failed check's error. *)
Lemma with_key_try_rrsig_cases pkt covered keys key_pos key zone_name
    timestamp has_nsec3 rrsig j ret c r :
  with_key_try_rrsig pkt covered keys key_pos key zone_name timestamp
    has_nsec3 rrsig j ret = (c, r) ->
  (c = Continue /\ (r = ret \/ r <> 0)) \/
  (c = Break /\ r = 0 /\
   exists k z, key = Some k /\ zone_name = Some z /\
     sig_accepted pkt covered keys key_pos k z timestamp has_nsec3 rrsig j).
Proof.
  destruct (Z.eq_dec
              (fst (validate_rrsig_rr 0 covered rrsig j keys key_pos key
                      zone_name timestamp)) 0) as [Hv|Hv].
  - apply validate_rrsig_rr_ok in Hv as (k & z & -> & -> & Hv).
    rewrite (with_key_try_rrsig_valid _ _ _ _ _ _ _ _ _ _ _ Hv).
    destruct (Z.eqb_spec (kr_check_signature rrsig j k covered
                            (trim_of covered rrsig j)) 0) as [Hs|Hs]; simpl.
    2:{ intros [= <- <-]. left. auto. }
    destruct (expanded covered rrsig j) eqn:E.
    + destruct (Z.eqb_spec (wildcard_check pkt covered has_nsec3
                              (trim_of covered rrsig j)) 0) as [Hw|Hw]; simpl.
      * intros [= <- <-]. right.
        split; [reflexivity|]. split; [apply kr_ok_zero|].
        exists k, z. split; [reflexivity|]. split; [reflexivity|].
        split; [exact Hv|]. split; [exact Hs|]. intros _. exact Hw.
      * intros [= <- <-]. left. auto.
    + intros [= <- <-]. right.
      split; [reflexivity|]. split; [apply kr_ok_zero|].
      exists k, z. split; [reflexivity|]. split; [reflexivity|].
      split; [exact Hv|]. split; [exact Hs|]. congruence.
  - rewrite with_key_try_rrsig_invalid by assumption.
    intros [= <- <-]. left. auto.
Qed.

(** The inner loop ends with 0 only by accepting one of its records. *)
Lemma with_key_rrsig_loop_zero pkt covered keys key_pos key zone_name
    timestamp has_nsec3 rrsig n j ret :
  ret <> 0 ->
  with_key_rrsig_loop pkt covered keys key_pos key zone_name timestamp
    has_nsec3 rrsig n j ret = 0 ->
  exists j' k z, (j <= j' < j + n)%nat /\ key = Some k /\ zone_name = Some z /\
    sig_accepted pkt covered keys key_pos k z timestamp has_nsec3 rrsig j'.
Proof.
  revert j ret. induction n as [|n IH]; intros j ret Hret; simpl.
  { intros; contradiction. }
  destruct (with_key_try_rrsig pkt covered keys key_pos key zone_name
              timestamp has_nsec3 rrsig j ret) as [c r] eqn:Ht.
  apply with_key_try_rrsig_cases in Ht
    as [[-> Hr] | (-> & -> & k & z & Hk & Hz & Hacc)].
  - intros Hl. apply IH in Hl as (j' & k & z & Hj & Hrest).
    + exists j', k, z. split; [lia | exact Hrest].
    + destruct Hr; congruence.
  - intros _. exists j, k, z. split; [lia | auto].
Qed.

(** So does the loop over the section. *)
Lemma with_key_section_loop_zero pkt covered keys key_pos key zone_name
    timestamp has_nsec3 sec ret :
  ret <> 0 ->
  with_key_section_loop pkt covered keys key_pos key zone_name timestamp
    has_nsec3 sec ret = 0 ->
  exists rrsig j k z, In rrsig sec /\ type rrsig = KNOT_RRTYPE_RRSIG /\
    (j < length (rrs rrsig))%nat /\ key = Some k /\ zone_name = Some z /\
    sig_accepted pkt covered keys key_pos k z timestamp has_nsec3 rrsig j.
Proof.
  revert ret. induction sec as [|rrsig rest IH]; intros ret Hret; simpl.
  { intros; contradiction. }
  destruct (Z.eqb_spec (type rrsig) KNOT_RRTYPE_RRSIG) as [Ht|Ht]; simpl.
  2:{ intros Hl. apply IH in Hl as (r & j & k & z & Hin & Hrest); [|assumption].
      exists r, j, k, z. auto. }
  set (ret' := with_key_rrsig_loop pkt covered keys key_pos key zone_name
                 timestamp has_nsec3 rrsig (length (rrs rrsig)) 0 ret).
  destruct (Z.eqb_spec ret' kr_ok) as [Hok|Hno].
  - intros Hz. subst ret'.
    apply with_key_rrsig_loop_zero in Hz as (j & k & z & Hj & Hrest);
      [|assumption].
    destruct Hrest as (Hk & Hz' & Hacc).
    exists rrsig, j, k, z. split; [now left|]. split; [exact Ht|].
    split; [lia|]. auto.
  - intros Hl. rewrite kr_ok_zero in Hno.
    apply IH in Hl as (r & j & k & z & Hin & Hrest); [|assumption].
    exists r, j, k, z. split; [now right | exact Hrest].
Qed.

(** Success of [kr_rrset_validate_with_key]: it had a key, the caller's
    or one made from the record at [key_pos], and accepted a signature
    of the section under it. *)
Lemma kr_rrset_validate_with_key_zero pkt section_id covered keys key_pos key
    zone_name timestamp has_nsec3 :
  kr_rrset_validate_with_key pkt section_id covered keys key_pos key
    zone_name timestamp has_nsec3 = 0 ->
  exists k z rrsig j,
    (key = Some k \/
     key = None /\
     kr_dnssec_key_from_rdata (Some (owner keys)) (rrs keys !! key_pos)
     = (0, Some k)) /\
    zone_name = Some z /\
    In rrsig (knot_pkt_section pkt section_id) /\
    type rrsig = KNOT_RRTYPE_RRSIG /\ (j < length (rrs rrsig))%nat /\
    sig_accepted pkt covered keys key_pos k z timestamp has_nsec3 rrsig j.
Proof.
  unfold kr_rrset_validate_with_key.
  destruct (with_key_key keys key_pos key) as [ret|key'] eqn:Hkey.
  - (* the early return: key creation failed with a nonzero code *)
    intros ->. exfalso. unfold with_key_key in Hkey.
    destruct key; [discriminate|].
    destruct (kr_dnssec_key_from_rdata _ _) as [ret c].
    destruct (Z.eqb_spec ret 0); simpl in Hkey; congruence.
  - cbv zeta. intros Hl.
    apply with_key_section_loop_zero in Hl
      as (rrsig & j & k & z & Hin & Ht & Hj & -> & -> & Hacc).
    2:{ apply Z.eqb_neq, kr_error_nonzero. reflexivity. }
    exists k, z, rrsig, j.
    split; [|split; [reflexivity|]; split; [exact Hin|]; split; [exact Ht|];
             split; [exact Hj | exact Hacc]].
    unfold with_key_key in Hkey. destruct key as [k0|].
    + left. congruence.
    + right. split; [reflexivity|].
      destruct (kr_dnssec_key_from_rdata _ _) as [ret c].
      destruct (Z.eqb_spec ret 0); simpl in Hkey; congruence.
Qed.

Lemma sig_accepted_secure pkt section_id covered keys key_pos key zone_name
    timestamp has_nsec3 rrsig j :
  In rrsig (knot_pkt_section pkt section_id) ->
  type rrsig = KNOT_RRTYPE_RRSIG -> (j < length (rrs rrsig))%nat ->
  sig_accepted pkt covered keys key_pos key zone_name timestamp has_nsec3
    rrsig j ->
  secure_rrsig pkt section_id covered key zone_name timestamp rrsig j.
Proof.
  intros Hin Ht Hj (((Hc & Ho) & (s & Hs & Hz & _) & Htc & _ & He & Hi & _)
                    & Hsig & _).
  unfold secure_rrsig.
  split; [exact Hin|]. split; [exact Ht|]. split; [exact Hj|].
  split; [auto|]. split; [lia|]. split; eauto.
Qed.


(** On success the flags are exactly the wildcard flag of the labels
    check, and [trim_labels] is the trim of the answer. *)
Lemma validate_rrsig_rr_flags covered rrsig j keys key_pos key zone_name
    timestamp :
  let v := validate_rrsig_rr 0 covered rrsig j keys key_pos key zone_name
             timestamp in
  fst v = 0 ->
  c_true (Z.land (snd v) FLG_WILDCARD_EXPANSION) = expanded covered rrsig j /\
  with_key_trim_labels (snd v) covered rrsig j = trim_of covered rrsig j.
Proof.
  intros v Hv. subst v.
  destruct (validate_rrsig_rr_ok _ _ _ _ _ _ _ _ _ Hv)
    as (k & z & -> & -> & Hvalid).
  rewrite (validate_rrsig_rr_valid _ _ _ _ _ _ _ _ _ Hvalid). simpl.
  unfold with_key_trim_labels. rewrite flag_of_expanded. split; reflexivity.
Qed.

Lemma validate_key_loop_zero pkt section_id covered keys zone_name timestamp
    has_nsec3 n i :
  validate_key_loop pkt section_id covered keys zone_name timestamp
    has_nsec3 n i = 0 ->
  exists i', (i <= i' < i + n)%nat /\
    kr_rrset_validate_with_key pkt section_id covered keys i' None
      (Some zone_name) timestamp has_nsec3 = 0.
Proof.
  revert i. induction n as [|n IH]; intros i; simpl.
  - intros Hz. apply Z.eqb_eq in Hz.
    rewrite kr_error_nonzero in Hz by reflexivity. discriminate.
  - destruct (Z.eqb_spec
                (kr_rrset_validate_with_key pkt section_id covered keys i
                   None (Some zone_name) timestamp has_nsec3) 0) as [Hz|_].
    + intros _. exists i. split; [lia | exact Hz].
    + intros Hl. apply IH in Hl as (i' & Hi & Hz).
      exists i'. split; [lia | exact Hz].
Qed.

Lemma validate_key_loop_codes pkt section_id covered keys zone_name timestamp
    has_nsec3 n i :
  let ret := validate_key_loop pkt section_id covered keys zone_name
               timestamp has_nsec3 n i in
  ret = 0 \/ ret = kr_error ENOENT.
Proof.
  revert i. induction n as [|n IH]; intros i; simpl; [now right|].
  destruct (Z.eqb_spec
              (kr_rrset_validate_with_key pkt section_id covered keys i
                 None (Some zone_name) timestamp has_nsec3) 0) as [Hz|_].
  - now left.
  - apply IH.
Qed.

(** C1: [kr_rrset_validate] returns 0 only if the section holds an RRSIG
    record that covers the RR set (class, owner, covered type), with
    inception <= now <= expiration, whose signer name compares equal to the
    zone cut, and whose signature verifies under a key made from one of the
    records of the DNSKEY set; every other outcome is one of the two
    nonzero error codes.  [kr_rrset_validate_with_key] returns 0 only if
    there is such a record whose signature verifies under the key it was
    given, or made from the record at [key_pos]. *)
Theorem kr_rrset_validate_sound (pkt : option knot_pkt_t)
    (section_id : knot_section_t) (covered keys : option knot_rrset_t)
    (zone_name : option knot_dname_t) (now : Z) (has_nsec3 : bool)
    (wpkt : knot_pkt_t) (wcovered wkeys : knot_rrset_t) (key_pos : nat)
    (key : option dnssec_key_t) :
  (kr_rrset_validate pkt section_id covered keys zone_name now has_nsec3 = 0 ->
   exists pkt' covered' keys' zone' i k rrsig j,
     pkt = Some pkt' /\ covered = Some covered' /\ keys = Some keys' /\
     zone_name = Some zone' /\
     (i < length (rrs keys'))%nat /\
     kr_dnssec_key_from_rdata (Some (owner keys')) (rrs keys' !! i)
     = (0, Some k) /\
     secure_rrsig pkt' section_id covered' k zone' now rrsig j) /\
  ((kr_rrset_validate pkt section_id covered keys zone_name now has_nsec3 = 0
    \/ kr_rrset_validate pkt section_id covered keys zone_name now has_nsec3
       = kr_error ENOENT
    \/ kr_rrset_validate pkt section_id covered keys zone_name now has_nsec3
       = kr_error EINVAL) /\
   kr_error ENOENT <> 0 /\ kr_error EINVAL <> 0) /\
  (kr_rrset_validate_with_key wpkt section_id wcovered wkeys key_pos key
     zone_name now has_nsec3 = 0 ->
   exists k zone' rrsig j,
     (key = Some k \/
      key = None /\
      kr_dnssec_key_from_rdata (Some (owner wkeys)) (rrs wkeys !! key_pos)
      = (0, Some k)) /\
     zone_name = Some zone' /\
     secure_rrsig wpkt section_id wcovered k zone' now rrsig j).
Proof.
  split; [|split].
  - unfold kr_rrset_validate.
    destruct pkt as [p|], covered as [c|], keys as [ks|], zone_name as [z|];
      try (intros Hz; apply Z.eqb_eq in Hz;
           rewrite kr_error_nonzero in Hz by reflexivity; discriminate).
    intros Hz. apply validate_key_loop_zero in Hz as (i & Hi & Hz).
    apply kr_rrset_validate_with_key_zero in Hz
      as (k & z' & rrsig & j & Hk & [= <-] & Hin & Ht & Hj & Hacc).
    destruct Hk as [Hk | [_ Hk]]; [discriminate|].
    exists p, c, ks, z, i, k, rrsig, j.
    repeat (split; [reflexivity|]). split; [lia|]. split; [exact Hk|].
    eapply sig_accepted_secure; eauto.
  - split; [|split; apply Z.eqb_neq, kr_error_nonzero; reflexivity].
    unfold kr_rrset_validate.
    destruct pkt, covered, keys, zone_name; auto.
    destruct (validate_key_loop_codes k section_id k0 k1 l now has_nsec3
                (length (rrs k1)) 0) as [E|E]; auto.
  - intros Hz. apply kr_rrset_validate_with_key_zero in Hz
      as (k & z' & rrsig & j & Hk & -> & Hin & Ht & Hj & Hacc).
    exists k, z', rrsig, j. split; [exact Hk|]. split; [reflexivity|].
    eapply sig_accepted_secure; eauto.
Qed.

(** A key that [kr_dnskeys_trusted] can use at position [i]: a ZSK that
    is not revoked, from which a key object is made, that authenticates
    against the trust anchor and under which the DNSKEY set itself
    validates. *)
Definition usable_key (pkt : knot_pkt_t) (section_id : knot_section_t)
    (keys ta : knot_rrset_t) (zone_name : option knot_dname_t) (now : Z)
    (has_nsec3 : bool) (i : nat) : Prop :=
  exists key_data key,
    rrs keys !! i = Some key_data /\
    (kr_dnssec_key_zsk key_data = true /\
     kr_dnssec_key_revoked key_data = false) /\
    kr_dnssec_key_from_rdata (Some (owner keys)) (Some key_data)
    = (0, Some key) /\
    kr_authenticate_referral ta key = 0 /\
    kr_rrset_validate_with_key pkt section_id keys keys i (Some key)
      zone_name now has_nsec3 = 0.

Lemma dnskeys_trusted_try_key_usable pkt section_id keys ta zone_name now
    has_nsec3 i :
  dnskeys_trusted_try_key pkt section_id keys ta zone_name now has_nsec3 i
  = true <-> usable_key pkt section_id keys ta zone_name now has_nsec3 i.
Proof.
  unfold dnskeys_trusted_try_key, usable_key. split.
  - destruct (rrs keys !! i) as [key_data|]; [|discriminate].
    destruct (kr_dnssec_key_zsk key_data) eqn:Hzsk; [|discriminate].
    destruct (kr_dnssec_key_revoked key_data) eqn:Hrev; [discriminate|].
    cbn [negb orb].
    destruct (kr_dnssec_key_from_rdata (Some (owner keys)) (Some key_data))
      as [ret [key|]] eqn:Hkey; [|discriminate].
    destruct (Z.eqb_spec ret 0) as [->|]; [|discriminate]. cbn [negb].
    destruct (Z.eqb_spec (kr_authenticate_referral ta key) 0) as [Ha|];
      [|discriminate]. cbn [negb].
    destruct (Z.eqb_spec
                (kr_rrset_validate_with_key pkt section_id keys keys i
                   (Some key) zone_name now has_nsec3) 0) as [Hv|];
      [|discriminate].
    intros _. exists key_data, key.
    repeat split; first [assumption | reflexivity].
  - intros (key_data & key & -> & (-> & ->) & -> & -> & ->). reflexivity.
Qed.

Lemma dnskeys_trusted_loop_spec pkt section_id keys ta zone_name now
    has_nsec3 n i :
  let ret := dnskeys_trusted_loop pkt section_id keys ta zone_name now
               has_nsec3 n i in
  (ret = 0 <->
   exists i', (i <= i' < i + n)%nat /\
     usable_key pkt section_id keys ta zone_name now has_nsec3 i') /\
  (ret = 0 \/ ret = kr_error ENOENT).
Proof.
  revert i. induction n as [|n IH]; intros i; cbn [dnskeys_trusted_loop].
  - cbv zeta. split; [split|now right].
    + intros Hz. apply Z.eqb_eq in Hz.
      rewrite kr_error_nonzero in Hz by reflexivity. discriminate.
    + intros (i' & Hi & _). lia.
  - destruct (dnskeys_trusted_try_key pkt section_id keys ta zone_name now
                has_nsec3 i) eqn:Ht.
    + cbv zeta. split; [split|left; apply kr_ok_zero].
      * intros _. exists i. split; [lia|].
        now apply dnskeys_trusted_try_key_usable.
      * intros _. apply kr_ok_zero.
    + destruct (IH (S i)) as [[IH1 IH2] IH3]. cbv zeta. split; [split|assumption].
      * intros Hz. destruct (IH1 Hz) as (i' & Hi & Hu).
        exists i'. split; [lia | exact Hu].
      * intros (i' & Hi & Hu). apply IH2.
        destruct (decide (i' = i)) as [->|Hne].
        { apply dnskeys_trusted_try_key_usable in Hu. congruence. }
        exists i'. split; [lia | exact Hu].
Qed.

(** Without a packet, a DNSKEY set or a trust anchor the call is invalid. *)
Lemma kr_dnskeys_trusted_null pkt section_id keys ta zone_name now has_nsec3 :
  pkt = None \/ keys = None \/ ta = None ->
  kr_dnskeys_trusted pkt section_id keys ta zone_name now has_nsec3
  = kr_error EINVAL.
Proof.
  unfold kr_dnskeys_trusted. intros [-> | [-> | ->]];
    repeat case_match; reflexivity.
Qed.

(** A signature that passes checks 1 to 3 and has fewer labels than the
    owner gets the wildcard flag, whatever the later checks say. *)
Lemma validate_rrsig_rr_sets_flag covered rrsig j keys key_pos key zone_name
    timestamp :
  rrsig_names_match covered rrsig j zone_name ->
  knot_rrsig_labels (rrs rrsig) j < covered_labels covered ->
  c_true (Z.land (snd (validate_rrsig_rr 0 covered rrsig j keys key_pos
                         (Some key) (Some zone_name) timestamp))
            FLG_WILDCARD_EXPANSION) = true.
Proof.
  intros ((Hc & Ho) & (s & Hs & Hz) & Ht) Hl.
  unfold validate_rrsig_rr.
  rewrite Hc, Ho, Hs, Hz, Ht, !Z.eqb_refl. cbn [negb orb].
  cbv zeta. rewrite dname_labels_adjusted.
  destruct (Z.gtb_spec (knot_rrsig_labels (rrs rrsig) j)
              (covered_labels covered)); [lia|].
  destruct (Z.ltb_spec (knot_rrsig_labels (rrs rrsig) j)
              (covered_labels covered)); [|lia].
  repeat match goal with
         | |- context [if ?b then _ else _] => destruct b
         end; reflexivity.
Qed.

(** C3, as the code has it, with [n] the owner's label count less one for
    a wildcard owner.  A signature with more labels than [n] is rejected.
    One with fewer labels that passes the class/owner, signer and covered
    type checks gets the WILDCARD_EXPANSION flag.  And when such a
    signature passes all checks, the trim used from there on is the
    owner's full label count minus the labels field: [n - labels] for an
    owner that is not a wildcard, one more for a wildcard owner.  That
    value goes to the signature check, and that value less one to the
    NSEC3 check. *)
Theorem rrsig_labels_check (covered rrsig : knot_rrset_t) (j : nat)
    (keys : knot_rrset_t) (key_pos : nat) (key : option dnssec_key_t)
    (zone_name : option knot_dname_t) (timestamp : Z) :
  let n := covered_labels covered in
  let labels := knot_rrsig_labels (rrs rrsig) j in
  let v := validate_rrsig_rr 0 covered rrsig j keys key_pos key zone_name
             timestamp in
  let trim := knot_dname_labels (owner covered) - labels in
  (n < labels -> fst v <> 0) /\
  (labels < n ->
   (exists k z, key = Some k /\ zone_name = Some z /\
      rrsig_names_match covered rrsig j z) ->
   c_true (Z.land (snd v) FLG_WILDCARD_EXPANSION) = true) /\
  (labels < n -> fst v = 0 ->
   c_true (Z.land (snd v) FLG_WILDCARD_EXPANSION) = true /\
   with_key_trim_labels (snd v) covered rrsig j = trim /\
   trim = n - labels
          + (if knot_dname_is_wildcard (owner covered) then 1 else 0) /\
   forall pkt has_nsec3 ret k, key = Some k ->
     with_key_try_rrsig pkt covered keys key_pos key zone_name timestamp
       has_nsec3 rrsig j ret
     = if negb (kr_check_signature rrsig j k covered trim =? 0)
       then (Continue, ret)
       else if negb ((if has_nsec3
                      then kr_nsec3_wildcard_answer_response_check pkt
                             KNOT_AUTHORITY (owner covered) (trim - 1)
                      else kr_nsec_wildcard_answer_response_check pkt
                             KNOT_AUTHORITY (owner covered)) =? 0)
            then (Continue,
                  if has_nsec3
                  then kr_nsec3_wildcard_answer_response_check pkt
                         KNOT_AUTHORITY (owner covered) (trim - 1)
                  else kr_nsec_wildcard_answer_response_check pkt
                         KNOT_AUTHORITY (owner covered))
            else (Break, kr_ok)).
Proof.
  cbv zeta. split; [|split].
  - intros Hgt Hv.
    apply validate_rrsig_rr_ok in Hv as (k & z & _ & _ & Hvalid).
    destruct Hvalid as (_ & _ & _ & Hl & _). lia.
  - intros Hlt (k & z & -> & -> & Hm).
    now apply validate_rrsig_rr_sets_flag.
  - intros Hlt Hv.
    destruct (validate_rrsig_rr_flags _ _ _ _ _ _ _ _ Hv) as [Hf Ht].
    assert (E : expanded covered rrsig j = true)
      by (unfold expanded; now apply Z.ltb_lt).
    rewrite Hf, Ht. unfold trim_of. rewrite E.
    split; [reflexivity|]. split; [reflexivity|]. split.
    { unfold covered_labels.
      destruct (knot_dname_is_wildcard (owner covered)); lia. }
    intros pkt has_nsec3 ret k ->.
    apply validate_rrsig_rr_ok in Hv as (k' & z & [= <-] & -> & Hvalid).
    rewrite (with_key_try_rrsig_valid _ _ _ _ _ _ _ _ _ _ _ Hvalid).
    unfold trim_of, wildcard_check. rewrite E. reflexivity.
Qed.


End Validator.

(** *** Runs of the model on the zone "a." *)

(** The answer "x.a. A" validates at time 1500 under the zone's key. *)
Lemma kr_rrset_validate_sound_witness :
  exists pkt' covered' keys' zone' i k rrsig j,
    Some Zone.pkt = Some pkt' /\ Some Zone.answer = Some covered' /\
    Some Zone.keys = Some keys' /\ Some Zone.cut = Some zone' /\
    (i < length (rrs keys'))%nat /\
    @kr_dnssec_key_from_rdata upstream_defines rdata_keys
      (Some (owner keys')) (rrs keys' !! i) = (0, Some k) /\
    @secure_rrsig wire_knot rdata_keys toy_validators
      pkt' KNOT_ANSWER covered' k zone' 1500 rrsig j.
Proof.
  exact (proj1 (@kr_rrset_validate_sound upstream_defines wire_knot
                  rdata_keys toy_validators
                  (Some Zone.pkt) KNOT_ANSWER (Some Zone.answer)
                  (Some Zone.keys) (Some Zone.cut) 1500 false
                  Zone.pkt Zone.answer Zone.keys 0%nat None)
               ltac:(vm_compute; reflexivity)).
Defined.

(** The expanded answer "*.b.a." at record 0 of its RRSIG set: the checks
    pass with fewer labels, so the flag is set and the trim is 3 - 1. *)
Lemma rrsig_labels_check_witness :
  c_true (Z.land
            (snd (@validate_rrsig_rr upstream_defines wire_knot rdata_keys
                    0 Zone.star_answer Zone.star_sig 0 Zone.keys 0
                    (Some Zone.dnskey_rdata) (Some Zone.cut) 1500))
            FLG_WILDCARD_EXPANSION) = true /\
  @with_key_trim_labels wire_knot
    (snd (@validate_rrsig_rr upstream_defines wire_knot rdata_keys
            0 Zone.star_answer Zone.star_sig 0 Zone.keys 0
            (Some Zone.dnskey_rdata) (Some Zone.cut) 1500))
    Zone.star_answer Zone.star_sig 0 = 3 - 1.
Proof.
  destruct (proj2 (proj2 (@rrsig_labels_check upstream_defines wire_knot
                            rdata_keys toy_validators
                            Zone.star_answer Zone.star_sig 0 Zone.keys 0
                            (Some Zone.dnskey_rdata) (Some Zone.cut) 1500))
              ltac:(vm_compute; reflexivity) ltac:(vm_compute; reflexivity))
    as (Hflag & Htrim & _).
  exact (conj Hflag Htrim).
Defined.

(** C3 as stated fails for a wildcard owner: for "*.b.a." (n = 2) and a
    signature with labels 1 the checks pass, and the trim handed to the
    signature check is 2, not n - labels = 1. *)
Lemma wildcard_owner_trim_counts_asterisk :
  @covered_labels wire_knot Zone.star_answer = 2 /\
  @knot_rrsig_labels wire_knot (rrs Zone.star_sig) 0 = 1 /\
  @validate_rrsig_rr upstream_defines wire_knot rdata_keys
    0 Zone.star_answer Zone.star_sig 0 Zone.keys 0
    (Some Zone.dnskey_rdata) (Some Zone.cut) 1500 = (0, 1) /\
  @with_key_trim_labels wire_knot 1 Zone.star_answer Zone.star_sig 0 = 2 /\
  2 <> @covered_labels wire_knot Zone.star_answer
       - @knot_rrsig_labels wire_knot (rrs Zone.star_sig) 0.
Proof. repeat split; vm_compute; congruence. Qed.


End DnssecProofs.

Module Lf2wireProofs.
Import Lf2wire.

(** A label of a name: 1 to 63 bytes, none of them zero. *)
Definition valid_label (l : list Z) : Prop :=
  l <> [] /\ (length l <= 63)%nat /\ Forall (fun b => b <> 0) l.

(** Wire form: every label behind its length, then the root label. *)
Definition wire_label (l : list Z) : list Z := Z.of_nat (length l) :: l.

Definition wire_encode (labels : list (list Z)) : list Z :=
  flat_map wire_label labels ++ [0].

(** Length-first form with its final zero byte: the labels from the last
    to the first, each followed by a zero byte. *)
Definition lf_zero (rlabels : list (list Z)) : list Z :=
  flat_map (fun l => l ++ [0]) rlabels.

(** Length-first form as [knot_dname_lf2wire] also takes it, the final
    zero byte left out. *)
Definition lf_encode (labels : list (list Z)) : list Z :=
  removelast (lf_zero (rev labels)).

Lemma lf_label_start_le (lf : list Z) (k : nat) :
  (lf_label_start lf k <= k)%nat.
Proof.
  induction k as [|i IH]; simpl; [lia|].
  destruct (c_true (nth i lf 0)); lia.
Qed.

(** The scan stops right behind the nearest zero byte below [k], or at 0;
    the bytes it passes are not zero. *)
Lemma lf_label_start_spec (lf : list Z) (k : nat) :
  let s := lf_label_start lf k in
  (s = O \/ nth (s - 1) lf 0 = 0) /\
  forall i, (s <= i < k)%nat -> nth i lf 0 <> 0.
Proof.
  induction k as [|i IH]; simpl.
  - split; [now left | intros; lia].
  - unfold c_true. destruct (Z.eqb_spec (nth i lf 0) 0) as [Hz|Hnz]; simpl.
    + split; [right; now rewrite Nat.sub_0_r | intros; lia].
    + destruct IH as [IH1 IH2]. split; [exact IH1|].
      intros j Hj. destruct (decide (j = i)) as [->|]; [exact Hnz|].
      apply IH2. lia.
Qed.

(** Scanning down through a stretch of nonzero bytes. *)
Lemma lf_label_start_skip (front l back : list Z) :
  Forall (fun b => b <> 0) l ->
  lf_label_start (front ++ l ++ back) (length front + length l)
  = lf_label_start (front ++ l ++ back) (length front).
Proof.
  revert back. induction l as [|b l IH] using rev_ind; intros back Hl.
  - simpl. now rewrite Nat.add_0_r.
  - apply Forall_app in Hl as [Hl Hb]. apply Forall_inv in Hb.
    rewrite length_app. simpl.
    replace (length front + (length l + 1))%nat
      with (S (length front + length l)) by lia.
    cbn [lf_label_start].
    replace (nth (length front + length l) (front ++ (l ++ [b]) ++ back) 0)
      with b.
    2:{ rewrite <- !app_assoc, app_assoc.
        rewrite app_nth2 by (rewrite length_app; lia).
        rewrite length_app, Nat.sub_diag. reflexivity. }
    unfold c_true. rewrite (proj2 (Z.eqb_neq _ _) Hb). simpl.
    rewrite <- (app_assoc l [b] back). now apply IH.
Qed.

Lemma lf_zero_snoc (rs : list (list Z)) (l : list Z) :
  lf_zero (rs ++ [l]) = lf_zero rs ++ l ++ [0].
Proof.
  unfold lf_zero. rewrite flat_map_app. simpl. now rewrite app_nil_r.
Qed.

(** A nonempty [lf_zero] ends in a zero byte. *)
Lemma lf_zero_last (rs : list (list Z)) :
  lf_zero rs <> [] -> lf_zero rs = removelast (lf_zero rs) ++ [0].
Proof.
  destruct rs as [|l rs] using rev_ind; [intros Hc; now contradiction Hc|].
  intros _.
  rewrite lf_zero_snoc, !app_assoc, removelast_last. reflexivity.
Qed.

(** The scan from the end of the stretch [lf_zero rs ++ l] passes [l]. *)
Lemma lf_label_start_label (rs : list (list Z)) (l back : list Z) :
  Forall (fun b => b <> 0) l ->
  lf_label_start (lf_zero rs ++ l ++ back) (length (lf_zero rs) + length l)
  = length (lf_zero rs).
Proof.
  intros Hl. rewrite lf_label_start_skip by assumption.
  destruct (lf_zero rs) as [|b z] eqn:Ez; [reflexivity|].
  assert (Hne : lf_zero rs <> []) by (rewrite Ez; discriminate).
  pose proof (lf_zero_last rs Hne) as E. rewrite Ez in E.
  set (m := removelast (b :: z)) in *.
  assert (Hlen : length (b :: z) = S (length m)).
  { rewrite E, length_app. simpl. lia. }
  rewrite Hlen. cbn [lf_label_start].
  replace (nth (length m) ((b :: z) ++ l ++ back) 0) with 0; [reflexivity|].
  rewrite E, <- app_assoc. rewrite app_nth2 by lia.
  now rewrite Nat.sub_diag.
Qed.

Section Loop.
Context `{Defines}.

(** The loop on the length-first form of valid labels writes their wire
    form, first label first. *)
Lemma lf2wire_loop_encode (rs : list (list Z)) (back d : list Z)
    (fuel : nat) :
  Forall valid_label rs -> (length (lf_zero rs) <= fuel)%nat ->
  lf2wire_loop fuel (removelast (lf_zero rs) ++ back) (length (lf_zero rs)) d
  = Some (Z.of_nat (length (d ++ flat_map wire_label (rev rs) ++ [0])),
          d ++ flat_map wire_label (rev rs) ++ [0]).
Proof.
  revert back d fuel.
  induction rs as [|l rs IH] using rev_ind; intros back d fuel Hv Hfuel.
  { destruct fuel; reflexivity. }
  apply Forall_app in Hv as [Hv Hl]. apply Forall_inv in Hl.
  destruct Hl as (Hne & H63 & Hnz).
  set (out := d ++ flat_map wire_label (rev (rs ++ [l])) ++ [0]).
  rewrite lf_zero_snoc in *. rewrite !length_app in *. simpl length in *.
  rewrite app_assoc, removelast_last, <- app_assoc.
  replace (length (lf_zero rs) + (length l + 1))%nat
    with (S (length (lf_zero rs) + length l)) in * by lia.
  destruct fuel as [|fuel]; [lia|]. cbn [lf2wire_loop].
  rewrite lf_label_start_label by assumption.
  assert (Hlen : 0 < Z.of_nat (length l)) by (destruct l; [congruence|simpl; lia]).
  replace (Z.of_nat (length (lf_zero rs) + length l)
           - Z.of_nat (length (lf_zero rs))) with (Z.of_nat (length l)) by lia.
  destruct (Z.gtb_spec (Z.of_nat (length l)) 63); [lia|].
  destruct (Z.leb_spec (Z.of_nat (length l)) 0); [lia|]. cbn [orb].
  rewrite Nat2Z.id, drop_app_length, take_app_length.
  (* the rest of the name is what the loop goes on with *)
  assert (Hrest : exists back',
            lf_zero rs ++ l ++ back = removelast (lf_zero rs) ++ back').
  { destruct (lf_zero rs) as [|b z] eqn:Ez; [now exists (l ++ back)|].
    exists ([0] ++ l ++ back). rewrite <- Ez.
    rewrite (lf_zero_last rs) at 1 by (rewrite Ez; discriminate).
    now rewrite <- app_assoc. }
  destruct Hrest as [back' ->].
  rewrite IH by (assumption || lia).
  replace out
    with ((d ++ [Z.of_nat (length l)] ++ l)
            ++ flat_map wire_label (rev rs) ++ [0]); [reflexivity|].
  subst out. rewrite rev_app_distr. simpl.
  rewrite <- !app_assoc. reflexivity.
Qed.

(** What a successful run of the loop says about its input. *)
Lemma lf2wire_loop_sound (fuel : nat) (lf : list Z) (n : nat) (d : list Z)
    (ret : Z) (out : list Z) :
  lf2wire_loop fuel lf n d = Some (ret, out) -> 0 <= ret ->
  (n <= S (length lf))%nat ->
  exists rs, Forall valid_label rs /\ length (lf_zero rs) = n /\
    take (n - 1) lf = removelast (lf_zero rs) /\
    out = d ++ flat_map wire_label (rev rs) ++ [0] /\
    ret = Z.of_nat (length out).
Proof.
  revert n d ret out. induction fuel as [|fuel IH]; intros n d ret out.
  - destruct n; [|discriminate]. simpl. intros [= <- <-] _ _.
    exists []. split; [constructor|]. repeat split; reflexivity.
  - destruct n as [|label_end].
    { simpl. intros [= <- <-] _ _. exists [].
      split; [constructor|]. repeat split; reflexivity. }
    cbn [lf2wire_loop].
    set (s := lf_label_start lf label_end).
    pose proof (lf_label_start_le lf label_end) as Hle.
    destruct (lf_label_start_spec lf label_end) as [Hstop Hpass].
    fold s in Hle, Hstop, Hpass.
    destruct (Z.gtb_spec (Z.of_nat label_end - Z.of_nat s) 63) as [|H63].
    { simpl. intros [= <- <-] Hret.
      pose proof (kr_error_neg EILSEQ ltac:(reflexivity)). lia. }
    destruct (Z.leb_spec (Z.of_nat label_end - Z.of_nat s) 0) as [|Hpos].
    { simpl. intros [= <- <-] Hret.
      pose proof (kr_error_neg EILSEQ ltac:(reflexivity)). lia. }
    cbn [orb]. intros Hrun Hret Hn.
    replace (Z.to_nat (Z.of_nat label_end - Z.of_nat s))
      with (label_end - s)%nat in Hrun by lia.
    set (l := take (label_end - s) (drop s lf)) in *.
    assert (Hll : length l = (label_end - s)%nat).
    { subst l. rewrite length_take, length_drop. lia. }
    apply IH in Hrun as (rs & Hv & Hlen & Htake & -> & ->); [|lia|lia].
    exists (rs ++ [l]).
    (* the bytes below [s] are [lf_zero rs] *)
    assert (Hfront : take s lf = lf_zero rs).
    { destruct (decide (s = O)) as [Hs|Hs].
      - rewrite Hs in *. destruct (lf_zero rs); [reflexivity|discriminate].
      - destruct Hstop as [|Hz]; [contradiction|].
        rewrite (lf_zero_last rs)
          by (intros E; rewrite E in Hlen; simpl in Hlen; lia).
        rewrite <- Htake.
        replace s with (S (s - 1)) at 1 by lia.
        destruct (lookup_lt_is_Some_2 lf (s - 1) ltac:(lia)) as [x Hx].
        rewrite nth_lookup, Hx in Hz. simpl in Hz. subst x.
        now rewrite (take_S_r _ _ _ Hx). }
    assert (Hvl : valid_label l).
    { split; [intros E; rewrite E in Hll; simpl in Hll; lia|].
      split; [lia|].
      apply Forall_lookup. intros i x Hix. subst l.
      apply lookup_take_Some in Hix as [Hix Hi]. rewrite lookup_drop in Hix.
      specialize (Hpass (s + i)%nat ltac:(lia)).
      now rewrite nth_lookup, Hix in Hpass. }
    split; [apply Forall_app; split; [exact Hv | now constructor]|].
    rewrite lf_zero_snoc, !length_app, Hlen, Hll. simpl length.
    split; [lia|]. split.
    + rewrite app_assoc, removelast_last. simpl.
      rewrite Nat.sub_0_r. rewrite <- Hfront. subst l.
      rewrite <- (take_drop s (take label_end lf)).
      rewrite take_take, Nat.min_l by lia. f_equal.
      now rewrite take_drop_commute, Nat.add_comm, Nat.sub_add by lia.
    + rewrite rev_app_distr. simpl. unfold wire_label at 2.
      rewrite Hll, <- !app_assoc.
      replace (Z.of_nat label_end - Z.of_nat s)
        with (Z.of_nat (label_end - s)) by lia.
      split; reflexivity.
Qed.


(** With enough turns the loop always ends. *)
Lemma lf2wire_loop_returns (fuel : nat) (lf : list Z) (n : nat) (d : list Z) :
  (n <= fuel)%nat -> exists r, lf2wire_loop fuel lf n d = Some r.
Proof.
  revert n d. induction fuel as [|fuel IH]; intros n d Hn.
  - destruct n; [|lia]. simpl. eauto.
  - destruct n as [|label_end]; [simpl; eauto|]. cbn [lf2wire_loop].
    pose proof (lf_label_start_le lf label_end).
    destruct ((_ >? 63) || (_ <=? 0)); [eauto|]. apply IH. lia.
Qed.

Lemma length_flat_map_wire_label (rs : list (list Z)) :
  length (flat_map wire_label (rev rs)) = length (lf_zero rs).
Proof.
  induction rs as [|l rs IH] using rev_ind; [reflexivity|].
  rewrite rev_app_distr, lf_zero_snoc. simpl.
  rewrite !length_app, IH. simpl. lia.
Qed.

(** The last byte of the bare length-first form of a name with labels is
    the last byte of its first label: not zero. *)
Lemma lf_encode_last (labels : list (list Z)) :
  labels <> [] -> Forall valid_label labels ->
  exists m, lf_zero (rev labels) = lf_encode labels ++ [0] /\
    length (lf_encode labels) = S m /\
    nth m (lf_encode labels) 0 <> 0.
Proof.
  intros Hne Hv. unfold lf_encode.
  destruct labels as [|l labels]; [congruence|]. simpl rev.
  apply Forall_inv in Hv as (Hl & _ & Hnz).
  rewrite lf_zero_snoc, app_assoc, removelast_last.
  destruct l as [|b l] using rev_ind; [congruence|].
  apply Forall_app in Hnz as [_ Hb]. apply Forall_inv in Hb.
  exists (length (lf_zero (rev labels) ++ l)).
  split; [reflexivity|]. rewrite app_assoc. split.
  - rewrite (length_app _ [b]). simpl. lia.
  - rewrite app_nth2 by lia. now rewrite Nat.sub_diag.
Qed.

End Loop.

(** X1: [knot_dname_lf2wire] undoes the length-first encoding: for a name of
    valid labels whose bare length-first form has at most 254 bytes, the
    call on that form writes the name's wire form and returns its length;
    so does the call on the form with the final zero byte, for a name that
    has labels. *)
Theorem knot_dname_lf2wire_encode `{Defines} `{Build}
    (labels : list (list Z)) :
  Forall valid_label labels ->
  (length (lf_encode labels) <= 254)%nat ->
  knot_dname_lf2wire true (Z.of_nat (length (lf_encode labels)))
    (Some (lf_encode labels))
  = Some (Z.of_nat (length (wire_encode labels)), wire_encode labels) /\
  (labels <> [] ->
   knot_dname_lf2wire true (Z.of_nat (length (lf_encode labels)) + 1)
     (Some (lf_encode labels ++ [0]))
   = Some (Z.of_nat (length (wire_encode labels)), wire_encode labels)).
Proof.
  intros Hv Hlen.
  destruct (decide (labels = [])) as [->|Hne].
  { split; [reflexivity | congruence]. }
  destruct (lf_encode_last labels Hne Hv) as (m & Hz & Hm & Hlast).
  assert (Hvr : Forall valid_label (rev labels)) by now apply Forall_rev.
  pose proof (f_equal (@length Z) Hz) as Hzl.
  rewrite length_app in Hzl. simpl in Hzl.
  unfold knot_dname_lf2wire. cbn [andb].
  split; [|intros _].
  - rewrite Hm.
    destruct (Z.eqb_spec (Z.of_nat (S m)) 0) as [|_]; [lia|].
    rewrite bool_decide_true by discriminate. cbn [orb negb].
    replace (Z.to_nat (Z.of_nat (S m) - 1)) with m by lia.
    replace (c_true (nth m (lf_encode labels) 0)) with true
      by (unfold c_true; now rewrite (proj2 (Z.eqb_neq _ _) Hlast)).
    cbv zeta iota. rewrite Z.mod_small by lia.
    replace (Z.to_nat (Z.of_nat (S m) + 1)) with (length (lf_zero (rev labels)))
      by lia.
    rewrite <- (app_nil_r (lf_encode labels)). unfold lf_encode at 1.
    rewrite lf2wire_loop_encode by (assumption || lia).
    now rewrite rev_involutive.
  - destruct (Z.eqb_spec (Z.of_nat (length (lf_encode labels)) + 1) 0)
      as [|_]; [lia|].
    rewrite bool_decide_true by discriminate. cbn [orb negb].
    replace (Z.to_nat (Z.of_nat (length (lf_encode labels)) + 1 - 1))
      with (length (lf_encode labels)) by lia.
    rewrite app_nth2 by lia. rewrite Nat.sub_diag. cbn [nth].
    change (c_true 0) with false. cbv zeta iota.
    replace (Z.to_nat (Z.of_nat (length (lf_encode labels)) + 1))
      with (length (lf_zero (rev labels))) by lia.
    change (lf_encode labels) with (removelast (lf_zero (rev labels))).
    rewrite lf2wire_loop_encode by (assumption || lia).
    now rewrite rev_involutive.
Qed.

(** X2: A call that succeeds was given the length-first form of a name with
    valid labels, with or without the final zero byte, and wrote that
    name's wire form: an empty label or one of more than 63 bytes makes the
    call fail.  The value returned is the number of bytes written. *)
Theorem knot_dname_lf2wire_sound `{Defines} `{Build} (len : Z)
    (lf : list Z) (ret : Z) (out : list Z) :
  Z.of_nat (length lf) = len -> 0 < len <= 255 ->
  len < 255 \/ nth (Z.to_nat (len - 1)) lf 0 = 0 ->
  knot_dname_lf2wire true len (Some lf) = Some (ret, out) -> 0 <= ret ->
  exists labels,
    labels <> [] /\ Forall valid_label labels /\
    (lf = lf_encode labels \/ lf = lf_encode labels ++ [0]) /\
    out = wire_encode labels /\ ret = Z.of_nat (length out).
Proof.
  intros Hlf Hlen Hwrap. unfold knot_dname_lf2wire. cbn [andb].
  destruct (Z.eqb_spec len 0) as [|_]; [lia|].
  rewrite bool_decide_true by discriminate. cbn [orb negb].
  unfold c_true.
  destruct (Z.eqb_spec (nth (Z.to_nat (len - 1)) lf 0) 0) as [Hz|Hnz];
    cbn [negb]; intros Hrun Hret.
  - (* the final zero byte is there *)
    apply lf2wire_loop_sound in Hrun
      as (rs & Hv & Hn & Htake & -> & ->); [|assumption|lia].
    exists (rev rs).
    assert (Hne : rs <> [])
      by (intros ->; simpl in Hn; lia).
    split; [intros E; apply Hne; now rewrite <- (rev_involutive rs), E|].
    split; [now apply Forall_rev|]. split; [|split; reflexivity].
    right. unfold lf_encode. rewrite rev_involutive, <- Htake.
    destruct (lookup_lt_is_Some_2 lf (Z.to_nat (len - 1)) ltac:(lia))
      as [x Hx].
    rewrite nth_lookup, Hx in Hz. simpl in Hz. subst x.
    replace (Z.to_nat len - 1)%nat with (Z.to_nat (len - 1)) by lia.
    rewrite <- (take_S_r _ _ _ Hx).
    rewrite take_ge by lia. reflexivity.
  - (* it is left out *)
    destruct Hwrap as [Hlt|]; [|contradiction].
    rewrite Z.mod_small in Hrun by lia.
    apply lf2wire_loop_sound in Hrun
      as (rs & Hv & Hn & Htake & -> & ->); [|assumption|lia].
    exists (rev rs).
    assert (Hne : rs <> [])
      by (intros ->; simpl in Hn; lia).
    split; [intros E; apply Hne; now rewrite <- (rev_involutive rs), E|].
    split; [now apply Forall_rev|]. split; [|split; reflexivity].
    left. unfold lf_encode. rewrite rev_involutive, <- Htake.
    rewrite take_ge by lia. reflexivity.
Qed.

(** With enough turns the loop ends in EILSEQ or with the number of
    bytes written: at least the root label, at most one byte per input
    byte and the root label. *)
Lemma lf2wire_loop_codes `{Defines} (fuel : nat) (lf : list Z) (n : nat)
    (d : list Z) :
  (n <= fuel)%nat ->
  exists ret out,
    lf2wire_loop fuel lf n d = Some (ret, out) /\
    (ret = kr_error EILSEQ \/
     (ret = Z.of_nat (length out) /\
      (length d + 1 <= length out <= length d + n + 1)%nat)).
Proof.
  revert n d. induction fuel as [|fuel IH]; intros n d Hn.
  - destruct n; [|lia]. simpl. do 2 eexists. split; [reflexivity|].
    right. rewrite length_app. simpl. split; [reflexivity | lia].
  - destruct n as [|label_end].
    { simpl. do 2 eexists. split; [reflexivity|].
      right. rewrite length_app. simpl. split; [reflexivity | lia]. }
    cbn [lf2wire_loop].
    pose proof (lf_label_start_le lf label_end) as Hle.
    set (s := lf_label_start lf label_end) in *.
    destruct (Z.gtb_spec (Z.of_nat label_end - Z.of_nat s) 63) as [|H63].
    { simpl. do 2 eexists. split; [reflexivity | now left]. }
    destruct (Z.leb_spec (Z.of_nat label_end - Z.of_nat s) 0) as [|Hpos].
    { simpl. do 2 eexists. split; [reflexivity | now left]. }
    cbn [orb].
    destruct (IH s (d ++ [Z.of_nat label_end - Z.of_nat s]
                      ++ take (Z.to_nat (Z.of_nat label_end - Z.of_nat s))
                           (drop s lf)) ltac:(lia))
      as (ret & out & Hrun & Hcode).
    exists ret, out. split; [exact Hrun|].
    destruct Hcode as [E | [Hr Hlen]]; [now left | right].
    split; [exact Hr|].
    rewrite !length_app in Hlen. simpl in Hlen.
    rewrite length_take in Hlen. lia.
Qed.

(** X3: Given a destination and, unless the length is 0, an input, the
    call always returns: with the error of EILSEQ for a bad label, or
    with the number of bytes written, which is between 1 and 256.
    Without a destination, or without an input of a length that is not
    0, the call runs into [assert(false)]: built with NDEBUG it returns
    the error of EINVAL and writes nothing, built with assertions it
    aborts and does not return. *)
Theorem knot_dname_lf2wire_returns `{Defines} `{Build} (dst : bool) (len : Z)
    (lf : option (list Z)) :
  0 <= len <= 255 ->
  (dst = true -> len = 0 \/ lf <> None ->
   exists ret out,
     knot_dname_lf2wire dst len lf = Some (ret, out) /\
     (ret = kr_error EILSEQ \/
      (1 <= ret <= 256 /\ ret = Z.of_nat (length out)))) /\
  (dst = false \/ (len <> 0 /\ lf = None) ->
   knot_dname_lf2wire dst len lf
   = if NDEBUG then Some (kr_error EINVAL, []) else None).
Proof.
  intros Hlen. unfold knot_dname_lf2wire. split.
  - intros -> Hin. cbn [andb].
    destruct (Z.eqb_spec len 0) as [->|Hnz]; cbn [orb negb].
    { exists 1, [0]. split; [reflexivity|]. right.
      split; [lia | reflexivity]. }
    destruct lf as [lf|]; [|destruct Hin as [|Hin]; congruence].
    rewrite bool_decide_true by discriminate. cbn [negb].
    set (len' := if c_true (nth (Z.to_nat (len - 1)) lf 0)
                 then (len + 1) mod 256 else len).
    assert (Hl' : 0 <= len' <= 255).
    { subst len'. destruct (c_true _); [|lia].
      pose proof (Z.mod_pos_bound (len + 1) 256 ltac:(lia)). lia. }
    destruct (lf2wire_loop_codes (Z.to_nat len') lf (Z.to_nat len') []
                ltac:(lia)) as (ret & out & Hrun & Hcode).
    exists ret, out. split; [exact Hrun|].
    destruct Hcode as [E | [Hr Hout]]; [auto|].
    right. simpl in Hout. split; [lia | exact Hr].
  - intros [-> | [Hnz ->]]; [reflexivity|].
    rewrite (proj2 (Z.eqb_neq _ _) Hnz).
    rewrite bool_decide_false by (intros E; now apply E).
    rewrite andb_false_r. reflexivity.
Qed.

(** X4: The length is a uint8_t: for 255 bytes without the final zero byte
    the count wraps to 0, and the call writes the root name and returns 1,
    whatever the labels. *)
Theorem knot_dname_lf2wire_wraps `{Defines} `{Build} (lf : list Z) :
  length lf = 255%nat -> nth 254 lf 0 <> 0 ->
  knot_dname_lf2wire true 255 (Some lf) = Some (1, [0]).
Proof.
  intros Hlen Hlast. unfold knot_dname_lf2wire. cbn [andb].
  rewrite bool_decide_true by discriminate.
  change (Z.to_nat (255 - 1)) with 254%nat.
  replace (c_true (nth 254 lf 0)) with true
    by (unfold c_true; now rewrite (proj2 (Z.eqb_neq _ _) Hlast)).
  reflexivity.
Qed.

(** "www.example." from its length-first form "example\0www". *)
Lemma knot_dname_lf2wire_encode_witness :
  @knot_dname_lf2wire upstream_defines debug_build true 11
    (Some [101; 120; 97; 109; 112; 108; 101; 0; 119; 119; 119])
  = Some (13, [3; 119; 119; 119; 7; 101; 120; 97; 109; 112; 108; 101; 0]).
Proof.
  refine (proj1 (@knot_dname_lf2wire_encode upstream_defines debug_build
                   [[119; 119; 119]; [101; 120; 97; 109; 112; 108; 101]]
                   _ ltac:(apply Nat.leb_le; vm_compute; reflexivity))).
  repeat constructor; simpl; (lia || discriminate).
Defined.

(** The same call, read backwards. *)
Lemma knot_dname_lf2wire_sound_witness :
  exists labels,
    labels <> [] /\ Forall valid_label labels /\
    ([101; 120; 97; 109; 112; 108; 101; 0; 119; 119; 119] = lf_encode labels \/
     [101; 120; 97; 109; 112; 108; 101; 0; 119; 119; 119]
     = lf_encode labels ++ [0]) /\
    [3; 119; 119; 119; 7; 101; 120; 97; 109; 112; 108; 101; 0]
    = wire_encode labels /\
    13 = Z.of_nat
           (length [3; 119; 119; 119; 7; 101; 120; 97; 109; 112; 108; 101; 0]).
Proof.
  exact (@knot_dname_lf2wire_sound upstream_defines debug_build 11
           [101; 120; 97; 109; 112; 108; 101; 0; 119; 119; 119] 13
           [3; 119; 119; 119; 7; 101; 120; 97; 109; 112; 108; 101; 0]
           eq_refl ltac:(lia) ltac:(left; lia) eq_refl ltac:(lia)).
Defined.

(** An empty label in the middle: EILSEQ, and nothing else.  Without a
    destination the call with assertions does not return. *)
Lemma knot_dname_lf2wire_returns_witness :
  (exists ret out,
     @knot_dname_lf2wire upstream_defines debug_build true 3
       (Some [97; 0; 0]) = Some (ret, out) /\
     (ret = -84 \/ (1 <= ret <= 256 /\ ret = Z.of_nat (length out)))) /\
  @knot_dname_lf2wire upstream_defines debug_build false 3 (Some [97; 0; 0])
  = None /\
  @knot_dname_lf2wire upstream_defines ndebug_build false 3
    (Some [97; 0; 0]) = Some (-22, []).
Proof.
  split; [|split].
  - exact (proj1 (@knot_dname_lf2wire_returns upstream_defines debug_build
                    true 3 (Some [97; 0; 0]) ltac:(lia))
             eq_refl ltac:(right; discriminate)).
  - exact (proj2 (@knot_dname_lf2wire_returns upstream_defines debug_build
                    false 3 (Some [97; 0; 0]) ltac:(lia))
             ltac:(left; reflexivity)).
  - exact (proj2 (@knot_dname_lf2wire_returns upstream_defines ndebug_build
                    false 3 (Some [97; 0; 0]) ltac:(lia))
             ltac:(left; reflexivity)).
Defined.

(** 255 bytes "a": the name is dropped. *)
Lemma knot_dname_lf2wire_wraps_witness :
  @knot_dname_lf2wire upstream_defines debug_build true 255 (Some (repeat 97 255))
  = Some (1, [0]).
Proof.
  exact (@knot_dname_lf2wire_wraps upstream_defines debug_build (repeat 97 255)
           ltac:(vm_compute; reflexivity) ltac:(vm_compute; discriminate)).
Defined.

End Lf2wireProofs.

Module BitcmpProofs.
Import Bitcmp.

(** The first [bits] bits of a buffer: its first [bits / 8] bytes, and of
    the next byte the top [bits mod 8] bits (0 when there are none). *)
Definition bit_prefix (l : list Z) (bits : Z) : list Z * Z :=
  (take (Z.to_nat (bits / 8)) l,
   if bits mod 8 =? 0 then 0
   else nth (Z.to_nat (bits / 8)) l 0 / 2 ^ (8 - bits mod 8)).

Definition is_byte (x : Z) : Prop := 0 <= x < 256.

(** The shifted, narrowed [char]: the top bits of the byte, with the
    copies of a set sign bit above them when [char] is signed. *)
Lemma shifted_char `{Libc} (u s : Z) :
  is_byte u -> 0 < s < 8 ->
  Z.shiftr (char_value u) s mod 256
  = u / 2 ^ s
    + (if char_is_signed && (128 <=? u) then 256 - 2 ^ (8 - s) else 0).
Proof.
  intros Hu Hs. unfold char_value, is_byte in *.
  rewrite Z.shiftr_div_pow2 by lia.
  assert (Hcases : s = 1 \/ s = 2 \/ s = 3 \/ s = 4 \/ s = 5 \/ s = 6 \/ s = 7)
    by lia.
  destruct (char_is_signed && (128 <=? u)) eqn:E.
  - apply andb_true_iff in E as [_ E]. apply Z.leb_le in E.
    destruct Hcases as [-> | [-> | [-> | [-> | [-> | [-> | ->]]]]]];
      cbn [Z.sub Z.pow Z.pow_pos Pos.iter Z.mul Pos.mul Z.pos_sub Z.opp
           Pos.pred_double Z.succ_double Z.pred_double Z.double];
      Z.div_mod_to_equations; lia.
  - rewrite Z.add_0_r. apply Z.mod_small.
    split; [apply Z.div_pos; lia|].
    apply Z.div_lt_upper_bound; [lia|].
    assert (1 <= 2 ^ s) by (apply Z.pow_le_mono_r with (b := 0); lia). nia.
Qed.

(** The partial bytes compare equal exactly when their top bits agree. *)
Lemma partial_byte_zero `{Libc} (u v s : Z) :
  is_byte u -> is_byte v -> 0 < s < 8 ->
  (Z.shiftr (char_value u) s mod 256 - Z.shiftr (char_value v) s mod 256 = 0
   <-> u / 2 ^ s = v / 2 ^ s).
Proof.
  intros Hu Hv Hs. rewrite !shifted_char by assumption.
  unfold is_byte in *.
  assert (Hcases : s = 1 \/ s = 2 \/ s = 3 \/ s = 4 \/ s = 5 \/ s = 6 \/ s = 7)
    by lia.
  destruct char_is_signed; cbn [andb]; [|lia].
  destruct (Z.leb_spec 128 u), (Z.leb_spec 128 v);
    destruct Hcases as [-> | [-> | [-> | [-> | [-> | [-> | ->]]]]]];
    cbn [Z.sub Z.pow Z.pow_pos Pos.iter Z.mul Pos.mul Z.pos_sub Z.opp
         Pos.pred_double Z.succ_double Z.pred_double Z.double];
    Z.div_mod_to_equations; lia.
Qed.

(** X5: For buffers of bytes that hold [bits > 0] bits, [kr_bitcmp] is 0
    exactly when the first [bits] bits agree, whether [char] is signed or
    not. *)
Theorem kr_bitcmp_zero_iff `{Libc} (a b : list Z) (bits : Z) :
  0 < bits -> Forall is_byte a -> Forall is_byte b ->
  bits <= 8 * Z.of_nat (length a) -> bits <= 8 * Z.of_nat (length b) ->
  (kr_bitcmp (Some a) (Some b) bits = 0
   <-> bit_prefix a bits = bit_prefix b bits).
Proof.
  intros Hbits Ha Hb Hla Hlb. unfold kr_bitcmp, bit_prefix.
  destruct (Z.leb_spec bits 0); [lia|]. cbn [orb andb bool_decide].
  rewrite !bool_decide_false by discriminate. cbn [andb].
  pose proof (Z.div_mod bits 8 ltac:(lia)) as Hdm.
  pose proof (Z.mod_pos_bound bits 8 ltac:(lia)) as Hr.
  assert (Hc : 0 <= bits / 8) by (apply Z.div_pos; lia).
  set (chunk := bits / 8) in *.
  replace (bits - chunk * 8) with (bits mod 8) by lia.
  pose proof (memcmp_zero a b (Z.to_nat chunk) ltac:(lia) ltac:(lia)) as Hm.
  destruct (Z.eqb_spec (memcmp a b (Z.to_nat chunk)) 0) as [Hz|Hnz];
    cbn [negb].
  - apply Hm in Hz. rewrite Hz.
    destruct (Z.gtb_spec (bits mod 8) 0) as [Hp|Hp].
    + destruct (Z.eqb_spec (bits mod 8) 0); [lia|].
      assert (Hua : is_byte (nth (Z.to_nat chunk) a 0)).
      { apply Forall_nth; [exact Ha | lia]. }
      assert (Hub : is_byte (nth (Z.to_nat chunk) b 0)).
      { apply Forall_nth; [exact Hb | lia]. }
      rewrite (partial_byte_zero _ _ (8 - bits mod 8) Hua Hub) by lia.
      split; [intros ->; reflexivity | now intros [= ->]].
    + destruct (Z.eqb_spec (bits mod 8) 0); [|lia].
      rewrite <- Hz. apply Hm in Hz. rewrite Hz. tauto.
  - split; [contradiction|]. intros [= E _]. apply Hm in E. contradiction.
Qed.

(** X6: [kr_bitcmp] orders consistently: it is negative one way round exactly
    when it is positive the other way round, NULL buffers included. *)
Theorem kr_bitcmp_swap `{Libc} (a b : option (list Z)) (bits : Z) :
  kr_bitcmp a b bits < 0 <-> 0 < kr_bitcmp b a bits.
Proof.
  unfold kr_bitcmp.
  destruct (Z.leb_spec bits 0); cbn [orb]; [lia|].
  destruct a as [a|], b as [b|];
    repeat case_bool_decide; try congruence; cbn [andb]; try lia.
  pose proof (memcmp_swap a b (Z.to_nat (bits / 8))) as S1.
  pose proof (memcmp_swap b a (Z.to_nat (bits / 8))) as S2.
  destruct (Z.eqb_spec (memcmp a b (Z.to_nat (bits / 8))) 0) as [E1|N1],
           (Z.eqb_spec (memcmp b a (Z.to_nat (bits / 8))) 0) as [E2|N2];
    cbn [negb]; try lia.
  destruct (bits - bits / 8 * 8 >? 0); lia.
Qed.

(** 10.1.2.3 and 10.1.3.4 agree on their first 15 bits. *)
Lemma kr_bitcmp_zero_iff_witness :
  @kr_bitcmp x86_libc (Some [10; 1; 2; 3]) (Some [10; 1; 3; 4]) 15 = 0
  <-> bit_prefix [10; 1; 2; 3] 15 = bit_prefix [10; 1; 3; 4] 15.
Proof.
  apply (@kr_bitcmp_zero_iff x86_libc [10; 1; 2; 3] [10; 1; 3; 4] 15);
    try (simpl; lia); repeat constructor; unfold is_byte; lia.
Defined.

End BitcmpProofs.

Module RndProofs.
Import Rnd.

Section Buffered.
Context `{Gnutls}.

(** The generator's bytes from position [from] on. *)
Definition stream_bytes (from n : nat) : list Z :=
  map gnutls_stream (seq from n).

Lemma stream_bytes_app (from n m : nat) :
  stream_bytes from (n + m) = stream_bytes from n ++ stream_bytes (from + n) m.
Proof. unfold stream_bytes. now rewrite seq_app, map_app. Qed.

Lemma take_stream_bytes (from n k : nat) :
  (k <= n)%nat -> take k (stream_bytes from n) = stream_bytes from k.
Proof.
  intros Hk. replace n with (k + (n - k))%nat by lia.
  rewrite stream_bytes_app.
  rewrite take_app_length' by (unfold stream_bytes; now rewrite length_map, length_seq).
  reflexivity.
Qed.

Lemma drop_stream_bytes (from n k : nat) :
  (k <= n)%nat ->
  drop k (stream_bytes from n) = stream_bytes (from + k) (n - k).
Proof.
  intros Hk. replace n with (k + (n - k))%nat at 1 by lia.
  rewrite stream_bytes_app.
  rewrite drop_app_length' by (unfold stream_bytes; now rewrite length_map, length_seq).
  reflexivity.
Qed.

Lemma length_stream_bytes (from n : nat) : length (stream_bytes from n) = n.
Proof. unfold stream_bytes. now rewrite length_map, length_seq. Qed.

(** While all requests fit the buffer: [consumed] bytes were handed out,
    the unread part of the buffer holds the bytes that follow them, and
    the generator was asked for whole blocks only. *)
Definition in_order (st : rnd_state) (consumed : nat) : Prop :=
  (1 <= buf_begin st <= BUF_SIZE)%nat /\
  drawn st = (consumed + (BUF_SIZE - buf_begin st))%nat /\
  Nat.divide BUF_SIZE (drawn st) /\
  drop (buf_begin st) (buf st)
  = stream_bytes consumed (BUF_SIZE - buf_begin st).

Lemma in_order_start : in_order rnd_start 0.
Proof.
  unfold in_order, rnd_start, BUF_SIZE. simpl.
  repeat split; try lia. exists 0%nat. reflexivity.
Qed.

Lemma kr_rnd_buffered_in_order (st : rnd_state) (consumed size : nat) :
  in_order st consumed -> (size <= BUF_SIZE)%nat ->
  fst (kr_rnd_buffered st size) = stream_bytes consumed size /\
  in_order (snd (kr_rnd_buffered st size)) (consumed + size).
Proof.
  intros (Hb & Hd & Hdiv & Hbuf) Hsize. unfold kr_rnd_buffered.
  destruct (Nat.ltb_spec BUF_SIZE size) as [|_]; [lia|].
  rewrite Hbuf.
  set (rem := (BUF_SIZE - buf_begin st)%nat) in *.
  destruct (Nat.le_gt_cases size rem) as [Hle|Hgt].
  - rewrite Nat.min_l by lia. rewrite Nat.eqb_refl. cbn [fst snd].
    split; [now apply take_stream_bytes|].
    unfold in_order. cbn [buf buf_begin drawn].
    repeat split; try lia; try assumption.
    rewrite <- (drop_drop (buf st)), Hbuf. fold rem.
    rewrite drop_stream_bytes by lia. f_equal. lia.
  - rewrite Nat.min_r by lia.
    destruct (Nat.eqb_spec rem size) as [|_]; [lia|].
    unfold rnd_noerror. cbn [fst snd]. fold (stream_bytes (drawn st) BUF_SIZE).
    rewrite take_ge by (rewrite length_stream_bytes; lia).
    rewrite take_stream_bytes by lia.
    split.
    + replace size with (rem + (size - rem))%nat at 2 by lia.
      rewrite stream_bytes_app. do 2 f_equal. lia.
    + unfold in_order. cbn [buf buf_begin drawn].
      repeat split; try lia.
      * destruct Hdiv as [k Hk]. exists (S k). lia.
      * rewrite drop_stream_bytes by lia. f_equal. lia.
Qed.

(** X7: As long as every request is for at most 64 bytes, the calls hand out
    the generator's bytes in order, each exactly once, every call as
    many as asked for; and the generator has been asked for just the
    64-byte blocks this takes. *)
Theorem kr_rnd_run_in_order (sizes : list nat) :
  Forall (fun size => (size <= BUF_SIZE)%nat) sizes ->
  let '(outs, st) := kr_rnd_run rnd_start sizes in
  concat outs = stream_bytes 0 (list_sum sizes) /\
  map (@length Z) outs = sizes /\
  Nat.divide BUF_SIZE (drawn st) /\
  (list_sum sizes <= drawn st < list_sum sizes + BUF_SIZE)%nat.
Proof.
  intros Hsizes.
  assert (Hgen : forall st consumed, in_order st consumed ->
            let '(outs, st') := kr_rnd_run st sizes in
            concat outs = stream_bytes consumed (list_sum sizes) /\
            map (@length Z) outs = sizes /\
            in_order st' (consumed + list_sum sizes)).
  { induction Hsizes as [|size sizes Hsize Hrest IH]; intros st consumed Hin.
    - simpl. rewrite Nat.add_0_r. auto.
    - cbn [kr_rnd_run list_sum fold_right].
      destruct (kr_rnd_buffered_in_order st consumed size Hin Hsize)
        as [Hdata Hin'].
      destruct (kr_rnd_buffered st size) as [data st1]. cbn [fst snd] in *.
      specialize (IH st1 (consumed + size)%nat Hin').
      destruct (kr_rnd_run st1 sizes) as [outs st2].
      destruct IH as (Hc & Hl & Hin2).
      cbn [concat map]. rewrite Hc, Hdata, Hl, length_stream_bytes.
      rewrite stream_bytes_app, Nat.add_assoc. auto. }
  specialize (Hgen rnd_start 0%nat in_order_start).
  destruct (kr_rnd_run rnd_start sizes) as [outs st].
  destruct Hgen as (Hc & Hl & (Hb & Hd & Hdiv & _)).
  repeat split; try assumption; unfold BUF_SIZE in *; lia.
Qed.






End Buffered.

Lemma kr_rnd_run_in_order_witness :
  Forall (fun size => (size <= BUF_SIZE)%nat) [5; 64; 60; 3]%nat /\
  concat (fst (@kr_rnd_run counting_gnutls rnd_start [5; 64; 60; 3]%nat))
  = map Z.of_nat (seq 0 132) /\
  drawn (snd (@kr_rnd_run counting_gnutls rnd_start [5; 64; 60; 3]%nat))
  = 192%nat.
Proof.
  assert (Hsizes : Forall (fun size => (size <= BUF_SIZE)%nat)
                     [5; 64; 60; 3]%nat)
    by (unfold BUF_SIZE; repeat constructor; lia).
  split; [exact Hsizes|].
  pose proof (@kr_rnd_run_in_order counting_gnutls _ Hsizes) as Hrun.
  destruct (@kr_rnd_run counting_gnutls rnd_start [5; 64; 60; 3]%nat)
    as [outs st].
  destruct Hrun as (Hc & _ & [k Hk] & Hrange).
  split; [exact Hc|]. cbn [snd]. unfold BUF_SIZE in *. simpl in Hrange. lia.
Defined.


End RndProofs.

Module ValidateProofs.
Import Dnssec DnssecProofs.

Section Complete.
Context `{Defines} `{Libknot} `{Libdnssec} `{!Validators}.

(** The turn of the inner loop on an accepted record ends the loop with
    success. *)
Lemma with_key_try_rrsig_accepts pkt covered keys key_pos key zone_name
    timestamp has_nsec3 rrsig j ret :
  sig_accepted pkt covered keys key_pos key zone_name timestamp has_nsec3
    rrsig j ->
  with_key_try_rrsig pkt covered keys key_pos (Some key) (Some zone_name)
    timestamp has_nsec3 rrsig j ret = (Break, kr_ok).
Proof.
  intros (Hvalid & Hsig & Hwild).
  rewrite (with_key_try_rrsig_valid _ _ _ _ _ _ _ _ _ _ _ Hvalid).
  rewrite Hsig. cbn [Z.eqb negb].
  destruct (expanded covered rrsig j); [|reflexivity].
  unfold wildcard_check. rewrite (Hwild eq_refl). reflexivity.
Qed.

(** Records that fail before an accepted one do not stop the inner loop
    from reaching it. *)
Lemma with_key_rrsig_loop_accepts pkt covered keys key_pos key zone_name
    timestamp has_nsec3 rrsig n j j' ret :
  (j <= j' < j + n)%nat ->
  sig_accepted pkt covered keys key_pos key zone_name timestamp has_nsec3
    rrsig j' ->
  with_key_rrsig_loop pkt covered keys key_pos (Some key) (Some zone_name)
    timestamp has_nsec3 rrsig n j ret = 0.
Proof.
  intros Hj Hacc. revert j ret Hj.
  induction n as [|n IH]; intros j ret Hj; [lia|].
  cbn [with_key_rrsig_loop].
  destruct (with_key_try_rrsig pkt covered keys key_pos (Some key)
              (Some zone_name) timestamp has_nsec3 rrsig j ret)
    as [c r] eqn:Ht.
  destruct (decide (j' = j)) as [->|Hne].
  - rewrite (with_key_try_rrsig_accepts _ _ _ _ _ _ _ _ _ _ _ Hacc) in Ht.
    injection Ht as <- <-. apply kr_ok_zero.
  - apply with_key_try_rrsig_cases in Ht as [[-> _] | (-> & -> & _)];
      [|reflexivity].
    apply IH. lia.
Qed.

(** Nor do the sets before its set stop the loop over the section. *)
Lemma with_key_section_loop_accepts pkt covered keys key_pos key zone_name
    timestamp has_nsec3 sec rrsig j ret :
  In rrsig sec -> type rrsig = KNOT_RRTYPE_RRSIG ->
  (j < length (rrs rrsig))%nat ->
  sig_accepted pkt covered keys key_pos key zone_name timestamp has_nsec3
    rrsig j ->
  with_key_section_loop pkt covered keys key_pos (Some key) (Some zone_name)
    timestamp has_nsec3 sec ret = 0.
Proof.
  intros Hin Ht Hj Hacc. revert ret Hin.
  induction sec as [|r rest IH]; intros ret Hin; [destruct Hin|].
  cbn [with_key_section_loop].
  destruct (Z.eqb_spec (type r) KNOT_RRTYPE_RRSIG) as [Hr|Hr]; cbn [negb].
  - destruct (Z.eqb_spec
                (with_key_rrsig_loop pkt covered keys key_pos (Some key)
                   (Some zone_name) timestamp has_nsec3 r (length (rrs r))
                   0 ret) kr_ok) as [Hok|Hno].
    + rewrite Hok. apply kr_ok_zero.
    + destruct Hin as [->|Hin]; [|now apply IH].
      exfalso. apply Hno. rewrite kr_ok_zero.
      apply with_key_rrsig_loop_accepts with (j' := j); [lia | exact Hacc].
  - destruct Hin as [->|Hin]; [congruence | now apply IH].
Qed.

(** X9: [kr_rrset_validate_with_key], given a key and a zone name, returns 0
    if and only if some record of some RRSIG set of the section is
    accepted under the key: it passes the checks of [validate_rrsig_rr],
    its signature verifies, and for an expanded answer the wildcard
    answer check succeeds.  Where the record stands in the section, and
    what failed before it, does not matter. *)
Theorem kr_rrset_validate_with_key_iff (pkt : knot_pkt_t)
    (section_id : knot_section_t) (covered keys : knot_rrset_t)
    (key_pos : nat) (key : dnssec_key_t) (zone_name : knot_dname_t)
    (timestamp : Z) (has_nsec3 : bool) :
  kr_rrset_validate_with_key pkt section_id covered keys key_pos (Some key)
    (Some zone_name) timestamp has_nsec3 = 0
  <->
  exists rrsig j,
    In rrsig (knot_pkt_section pkt section_id) /\
    type rrsig = KNOT_RRTYPE_RRSIG /\ (j < length (rrs rrsig))%nat /\
    sig_accepted pkt covered keys key_pos key zone_name timestamp has_nsec3
      rrsig j.
Proof.
  split.
  - intros Hz. apply kr_rrset_validate_with_key_zero in Hz
      as (k & z & rrsig & j & Hk & [= <-] & Hin & Ht & Hj & Hacc).
    destruct Hk as [[= <-] | [[=] _]]. exists rrsig, j. auto.
  - intros (rrsig & j & Hin & Ht & Hj & Hacc).
    unfold kr_rrset_validate_with_key, with_key_key.
    now apply with_key_section_loop_accepts with (rrsig := rrsig) (j := j).
Qed.

(** Without a key of the caller's, the key is made from the DNSKEY
    record at [key_pos]. *)
Lemma kr_rrset_validate_with_key_made pkt section_id covered keys key_pos
    zone_name timestamp has_nsec3 :
  kr_rrset_validate_with_key pkt section_id covered keys key_pos None
    (Some zone_name) timestamp has_nsec3 = 0
  <->
  exists k rrsig j,
    kr_dnssec_key_from_rdata (Some (owner keys)) (rrs keys !! key_pos)
    = (0, Some k) /\
    In rrsig (knot_pkt_section pkt section_id) /\
    type rrsig = KNOT_RRTYPE_RRSIG /\ (j < length (rrs rrsig))%nat /\
    sig_accepted pkt covered keys key_pos k zone_name timestamp has_nsec3
      rrsig j.
Proof.
  split.
  - intros Hz. apply kr_rrset_validate_with_key_zero in Hz
      as (k & z & rrsig & j & Hk & [= <-] & Hrest).
    destruct Hk as [[=] | [_ Hk]]. exists k, rrsig, j. auto.
  - intros (k & rrsig & j & Hk & Hin & Ht & Hj & Hacc).
    unfold kr_rrset_validate_with_key, with_key_key. rewrite Hk.
    cbn [Z.eqb negb].
    now apply with_key_section_loop_accepts with (rrsig := rrsig) (j := j).
Qed.

Lemma validate_key_loop_accepts pkt section_id covered keys zone_name
    timestamp has_nsec3 n i i' :
  (i <= i' < i + n)%nat ->
  kr_rrset_validate_with_key pkt section_id covered keys i' None
    (Some zone_name) timestamp has_nsec3 = 0 ->
  validate_key_loop pkt section_id covered keys zone_name timestamp
    has_nsec3 n i = 0.
Proof.
  intros Hi Hz. revert i Hi. induction n as [|n IH]; intros i Hi; [lia|].
  cbn [validate_key_loop].
  destruct (Z.eqb_spec
              (kr_rrset_validate_with_key pkt section_id covered keys i
                 None (Some zone_name) timestamp has_nsec3) 0) as [E|E].
  - exact E.
  - apply IH. destruct (decide (i' = i)) as [->|]; [contradiction | lia].
Qed.

(** X10: [kr_rrset_validate], given all its arguments, returns 0 if and only
    if a key can be made from some record of the DNSKEY set under which
    some RRSIG record of the section is accepted; otherwise it returns
    the error of ENOENT, whatever made the single attempts fail. *)
Theorem kr_rrset_validate_iff (pkt : knot_pkt_t)
    (section_id : knot_section_t) (covered keys : knot_rrset_t)
    (zone_name : knot_dname_t) (timestamp : Z) (has_nsec3 : bool) :
  let ret := kr_rrset_validate (Some pkt) section_id (Some covered)
               (Some keys) (Some zone_name) timestamp has_nsec3 in
  (ret = 0 <->
   exists i k rrsig j,
     kr_dnssec_key_from_rdata (Some (owner keys)) (rrs keys !! i)
     = (0, Some k) /\
     In rrsig (knot_pkt_section pkt section_id) /\
     type rrsig = KNOT_RRTYPE_RRSIG /\ (j < length (rrs rrsig))%nat /\
     sig_accepted pkt covered keys i k zone_name timestamp has_nsec3
       rrsig j) /\
  (ret = 0 \/ ret = kr_error ENOENT) /\ kr_error ENOENT <> 0.
Proof.
  cbv zeta. unfold kr_rrset_validate. split; [split|split].
  - intros Hz. apply validate_key_loop_zero in Hz as (i & Hi & Hz).
    apply kr_rrset_validate_with_key_made in Hz
      as (k & rrsig & j & Hk & Hrest).
    exists i, k, rrsig, j. auto.
  - intros (i & k & rrsig & j & Hk & Hrest).
    apply validate_key_loop_accepts with (i' := i).
    + destruct (rrs keys !! i) eqn:E; [|discriminate Hk].
      apply lookup_lt_Some in E. lia.
    + apply kr_rrset_validate_with_key_made. exists k, rrsig, j. auto.
  - apply validate_key_loop_codes.
  - apply Z.eqb_neq, kr_error_nonzero. reflexivity.
Qed.

End Complete.
End ValidateProofs.

Module RankedArrayFrame.
Import Utils RankedArrayProofs.

(** The entries [kr_ranked_rrarray_set_wire] writes to: those of the
    query that pass [extraCheck], if there is one. *)
Definition selected (qry_uid_ : Z)
    (extraCheck : option (ranked_rr_array_entry_t -> bool))
    (e : ranked_rr_array_entry_t) : bool :=
  (qry_uid e =? qry_uid_)
  && match extraCheck with Some check => check e | None => true end.

(** [e'] is [e] up to the [to_wire] flag. *)
Definition same_but_wire (e e' : ranked_rr_array_entry_t) : Prop :=
  set_to_wire e' (to_wire e) = e.

Lemma same_but_wire_refl e : same_but_wire e e.
Proof. now destruct e. Qed.

Lemma same_but_wire_trans e1 e2 e3 :
  same_but_wire e1 e2 -> same_but_wire e2 e3 -> same_but_wire e1 e3.
Proof.
  unfold same_but_wire, set_to_wire. destruct e1, e2, e3. cbn.
  intros E1 E2. inversion E1. inversion E2. subst. reflexivity.
Qed.

Lemma same_but_wire_set e b : same_but_wire e (set_to_wire e b).
Proof. now destruct e. Qed.

Lemma same_but_wire_qry_uid e e' : same_but_wire e e' -> qry_uid e' = qry_uid e.
Proof. unfold same_but_wire. intros <-. reflexivity. Qed.

Section Frame.
Context `{Defines} `{Build} `{LibknotRRset}.

Lemma same_but_wire_cleared e0 e : same_but_wire e (cleared e0 e).
Proof.
  unfold cleared. repeat case_match;
    auto using same_but_wire_refl, same_but_wire_set.
Qed.

Lemma cleared_only_clears e0 e :
  to_wire (cleared e0 e) = true -> to_wire e = true.
Proof. intros W. now apply cleared_to_wire in W. Qed.

(** What the turns [i], ..., [i + n - 1] of the loop of
    [kr_ranked_rrarray_set_wire] make of [array]. *)
Definition set_wire_turns (to_wire_ : bool) (qry_uid_ : Z) (check_dups : bool)
    (extraCheck : option (ranked_rr_array_entry_t -> bool)) (i n : nat)
    (array array' : ranked_rr_array_t) : Prop :=
  length array' = length array /\
  forall k e, array !! k = Some e ->
    exists e', array' !! k = Some e' /\ same_but_wire e e' /\
      (qry_uid e = qry_uid_ ->
       if bool_decide (i <= k < i + n)%nat && selected qry_uid_ extraCheck e
       then to_wire e' = to_wire_ else e' = e) /\
      (qry_uid e <> qry_uid_ ->
       (to_wire e' = true -> to_wire e = true) /\
       (check_dups = false -> e' = e)).

Lemma set_wire_turns_none to_wire_ qry_uid_ check_dups extraCheck i
    (array : ranked_rr_array_t) :
  set_wire_turns to_wire_ qry_uid_ check_dups extraCheck i 0 array array.
Proof.
  split; [reflexivity|]. intros k e Hk. exists e.
  split; [exact Hk|]. split; [apply same_but_wire_refl|].
  split; [|auto]. intros _. rewrite bool_decide_eq_false_2 by lia.
  reflexivity.
Qed.

(** A turn that writes nothing. *)
Lemma set_wire_turns_skip to_wire_ qry_uid_ check_dups extraCheck i n
    (array array' : ranked_rr_array_t) :
  (forall e, array !! i = Some e -> selected qry_uid_ extraCheck e = false) ->
  set_wire_turns to_wire_ qry_uid_ check_dups extraCheck (S i) n array array'
  -> set_wire_turns to_wire_ qry_uid_ check_dups extraCheck i (S n)
       array array'.
Proof.
  intros Hskip [Hlen Hall]. split; [exact Hlen|]. intros k e Hk.
  destruct (Hall k e Hk) as (e' & Hk' & Hs & Hq & Ho).
  exists e'. split; [exact Hk'|]. split; [exact Hs|]. split; [|exact Ho].
  intros Eq. specialize (Hq Eq).
  destruct (decide (k = i)) as [->|Hne].
  - rewrite (Hskip e Hk), andb_false_r in *. exact Hq.
  - rewrite (bool_decide_ext (i <= k < i + S n)%nat (S i <= k < S i + n)%nat)
      by lia. exact Hq.
Qed.

(** A turn that writes the flag of slot [i], with or without the
    duplicate check after it. *)
Lemma set_wire_turns_write to_wire_ qry_uid_ check_dups extraCheck i n
    (array array2 array' : ranked_rr_array_t) entry :
  array !! i = Some entry ->
  selected qry_uid_ extraCheck entry = true ->
  let e0 := set_to_wire entry to_wire_ in
  array2 = <[i := e0]> array \/
  check_dups = true /\ array2 = (cleared e0 <$> <[i := e0]> array) ->
  set_wire_turns to_wire_ qry_uid_ check_dups extraCheck (S i) n array2 array'
  -> set_wire_turns to_wire_ qry_uid_ check_dups extraCheck i (S n)
       array array'.
Proof.
  intros Hi Hsel e0 Harray2 [Hlen Hall].
  assert (Hq0 : qry_uid e0 = qry_uid_).
  { unfold selected in Hsel. apply andb_true_iff in Hsel as [Hq _].
    now apply Z.eqb_eq in Hq. }
  assert (Hlt : (i < length array)%nat) by eauto using lookup_lt_Some.
  assert (Hlen2 : length array2 = length array).
  { destruct Harray2 as [-> | [_ ->]];
      now rewrite ?length_fmap, length_insert. }
  split; [congruence|]. intros k e Hk.
  destruct (decide (k = i)) as [->|Hne].
  - assert (e = entry) by congruence. subst e.
    assert (H2 : array2 !! i = Some e0).
    { destruct Harray2 as [-> | [_ ->]].
      - now apply list_lookup_insert_eq.
      - rewrite list_lookup_fmap, list_lookup_insert_eq by assumption.
        cbn. now rewrite cleared_same_query. }
    destruct (Hall i e0 H2) as (e' & Hk' & _ & Hq & _).
    specialize (Hq Hq0). rewrite bool_decide_eq_false_2 in Hq by lia.
    cbn [andb] in Hq. subst e'.
    exists e0. split; [exact Hk'|]. split; [apply same_but_wire_set|].
    split.
    + intros _. rewrite bool_decide_eq_true_2 by lia. rewrite Hsel.
      reflexivity.
    + intros Hno. exfalso. apply Hno. exact Hq0.
  - assert (H2 : exists e2, array2 !! k = Some e2 /\
                   (e2 = e \/ check_dups = true /\ e2 = cleared e0 e)).
    { destruct Harray2 as [-> | [Hc ->]].
      - exists e. rewrite list_lookup_insert_ne by congruence. auto.
      - exists (cleared e0 e).
        rewrite list_lookup_fmap, list_lookup_insert_ne by congruence.
        rewrite Hk. auto. }
    destruct H2 as (e2 & H2 & He2).
    destruct (Hall k e2 H2) as (e' & Hk' & Hs & Hq & Ho).
    exists e'. split; [exact Hk'|].
    assert (Hs2 : same_but_wire e e2).
    { destruct He2 as [-> | [_ ->]];
        auto using same_but_wire_refl, same_but_wire_cleared. }
    split; [eapply same_but_wire_trans; eassumption|]. split.
    + intros Eq.
      assert (e2 = e) as ->.
      { destruct He2 as [-> | [_ ->]]; [reflexivity|].
        apply cleared_same_query. congruence. }
      specialize (Hq Eq).
      rewrite (bool_decide_ext (i <= k < i + S n)%nat
                 (S i <= k < S i + n)%nat) by lia.
      exact Hq.
    + intros Hno.
      destruct Ho as [Hw Hd];
        [rewrite (same_but_wire_qry_uid _ _ Hs2); exact Hno|].
      split.
      * intros W. apply Hw in W.
        destruct He2 as [-> | [_ ->]]; [exact W|].
        eapply cleared_only_clears; eassumption.
      * intros Hc. rewrite (Hd Hc).
        destruct He2 as [-> | [Hc' _]]; [reflexivity | congruence].
Qed.

Lemma rrarray_set_wire_loop_turns to_wire_ qry_uid_ check_dups extraCheck
    n i (array : ranked_rr_array_t) :
  let '(ret, array') :=
    rrarray_set_wire_loop to_wire_ qry_uid_ check_dups extraCheck n i array in
  ret = kr_ok /\
  set_wire_turns to_wire_ qry_uid_ check_dups extraCheck i n array array'.
Proof.
  revert i array. induction n as [|n IH]; intros i array.
  { cbn. split; [reflexivity | apply set_wire_turns_none]. }
  cbn [rrarray_set_wire_loop].
  destruct (array !! i) as [entry|] eqn:Hi.
  2:{ specialize (IH (S i) array).
      destruct (rrarray_set_wire_loop _ _ _ _ n (S i) array) as [ret array'].
      destruct IH as [-> IH]. split; [reflexivity|].
      apply set_wire_turns_skip; [intros e He; congruence | exact IH]. }
  destruct (Z.eqb_spec (qry_uid entry) qry_uid_) as [Hq|Hq]; cbn [negb].
  2:{ specialize (IH (S i) array).
      destruct (rrarray_set_wire_loop _ _ _ _ n (S i) array) as [ret array'].
      destruct IH as [-> IH]. split; [reflexivity|].
      apply set_wire_turns_skip; [|exact IH].
      intros e He. assert (e = entry) as -> by congruence. unfold selected.
      now rewrite (proj2 (Z.eqb_neq _ _) Hq). }
  destruct (match extraCheck with
            | Some check => negb (check entry)
            | None => false
            end) eqn:Hcheck.
  { specialize (IH (S i) array).
    destruct (rrarray_set_wire_loop _ _ _ _ n (S i) array) as [ret array'].
    destruct IH as [-> IH]. split; [reflexivity|].
    apply set_wire_turns_skip; [|exact IH].
    intros e He. assert (e = entry) as -> by congruence. unfold selected.
    destruct extraCheck as [check|]; [|discriminate].
    apply negb_true_iff in Hcheck. rewrite Hcheck. apply andb_false_r. }
  assert (Hsel : selected qry_uid_ extraCheck entry = true).
  { unfold selected. rewrite (proj2 (Z.eqb_eq _ _) Hq).
    destruct extraCheck as [check|]; [|reflexivity].
    apply negb_false_iff in Hcheck. now rewrite Hcheck. }
  set (e0 := set_to_wire entry to_wire_).
  assert (Hlt : (i < length array)%nat) by eauto using lookup_lt_Some.
  destruct check_dups.
  - rewrite (to_wire_ensure_unique_spec (<[i := e0]> array) i e0)
      by now apply list_lookup_insert_eq.
    rewrite kr_ok_zero. cbn [Z.eqb negb].
    set (array2 := if to_wire e0 then cleared e0 <$> <[i := e0]> array
                   else <[i := e0]> array).
    specialize (IH (S i) array2).
    destruct (rrarray_set_wire_loop _ _ _ _ n (S i) array2) as [ret array'].
    destruct IH as [-> IH]. split; [apply kr_ok_zero|].
    apply (set_wire_turns_write _ _ _ _ _ _ array array2 array' entry Hi Hsel);
      [|exact IH].
    subst array2. fold e0. destruct (to_wire e0); auto.
  - specialize (IH (S i) (<[i := e0]> array)).
    destruct (rrarray_set_wire_loop _ _ _ _ n (S i) (<[i := e0]> array))
      as [ret array'].
    destruct IH as [-> IH]. split; [reflexivity|].
    apply (set_wire_turns_write _ _ _ _ _ _ array (<[i := e0]> array)
             array' entry Hi Hsel); [|exact IH].
    left. reflexivity.
Qed.

(** X11: [kr_ranked_rrarray_set_wire] always succeeds and keeps every entry in
    its slot, changing at most [to_wire] flags: an entry of the query
    that passes [extraCheck] ends with the flag as given, any other entry
    of the query is as before, and an entry of another query can only
    lose the flag, and only under [check_dups]. *)
Theorem kr_ranked_rrarray_set_wire_frame (array : ranked_rr_array_t)
    (to_wire_ : bool) (qry_uid_ : Z) (check_dups : bool)
    (extraCheck : option (ranked_rr_array_entry_t -> bool)) :
  let '(ret, array') :=
    kr_ranked_rrarray_set_wire array to_wire_ qry_uid_ check_dups extraCheck in
  ret = 0 /\ length array' = length array /\
  forall k e, array !! k = Some e ->
    exists e', array' !! k = Some e' /\ set_to_wire e' (to_wire e) = e /\
      (selected qry_uid_ extraCheck e = true -> to_wire e' = to_wire_) /\
      (qry_uid e = qry_uid_ -> selected qry_uid_ extraCheck e = false ->
       e' = e) /\
      (qry_uid e <> qry_uid_ ->
       (to_wire e' = true -> to_wire e = true) /\
       (check_dups = false -> e' = e)).
Proof.
  unfold kr_ranked_rrarray_set_wire.
  pose proof (rrarray_set_wire_loop_turns to_wire_ qry_uid_ check_dups
                extraCheck (length array) 0 array) as Hloop.
  destruct (rrarray_set_wire_loop _ _ _ _ (length array) 0 array)
    as [ret array'].
  destruct Hloop as (-> & Hlen & Hall).
  split; [apply kr_ok_zero|]. split; [exact Hlen|].
  intros k e Hk. destruct (Hall k e Hk) as (e' & Hk' & Hs & Hq & Ho).
  exists e'. split; [exact Hk'|]. split; [exact Hs|].
  assert (Hin : bool_decide (0 <= k < 0 + length array)%nat = true).
  { apply bool_decide_eq_true_2. apply lookup_lt_Some in Hk. lia. }
  rewrite Hin in Hq. cbn [andb] in Hq.
  split; [|split; [|exact Ho]].
  - intros Hsel. rewrite Hsel in Hq. apply Hq.
    unfold selected in Hsel. apply andb_true_iff in Hsel as [E _].
    now apply Z.eqb_eq in E.
  - intros Eq Hsel. rewrite Hsel in Hq. now apply Hq.
Qed.






End Frame.
End RankedArrayFrame.

Module RrkeyInjective.
Import Utils RrkeyProofs.

(** Reading a string of ASCII digits as a decimal number. *)
Definition digits_value (digits : list Z) : Z :=
  fold_left (fun acc d => acc * 10 + (d - 48)) digits 0.

Lemma digits_value_decimal5 (num : Z) :
  0 <= num < 100000 -> digits_value (decimal5 num) = num.
Proof.
  intros Hn. unfold digits_value, decimal5. cbn [fold_left].
  pose proof (Z.div_mod num 10 ltac:(lia)).
  pose proof (Z.mod_pos_bound num 10 ltac:(lia)).
  pose proof (Z.div_mod (num / 10) 10 ltac:(lia)).
  pose proof (Z.mod_pos_bound (num / 10) 10 ltac:(lia)).
  pose proof (Z.div_mod (num / 10 / 10) 10 ltac:(lia)).
  pose proof (Z.mod_pos_bound (num / 10 / 10) 10 ltac:(lia)).
  pose proof (Z.div_mod (num / 10 / 10 / 10) 10 ltac:(lia)).
  pose proof (Z.mod_pos_bound (num / 10 / 10 / 10) 10 ltac:(lia)).
  assert (E4 : num / 10000 = num / 10 / 10 / 10 / 10)
    by (rewrite !Z.div_div by lia; reflexivity).
  assert (E3 : num / 1000 = num / 10 / 10 / 10)
    by (rewrite !Z.div_div by lia; reflexivity).
  assert (E2 : num / 100 = num / 10 / 10)
    by (rewrite !Z.div_div by lia; reflexivity).
  rewrite E4, E3, E2.
  assert (Hq : 0 <= num / 10 / 10 / 10 / 10 < 10).
  { rewrite <- E4. split; [apply Z.div_pos; lia|].
    apply Z.div_lt_upper_bound; lia. }
  rewrite (Z.mod_small (num / 10 / 10 / 10 / 10)) by exact Hq.
  lia.
Qed.

Lemma decimal5_digits (num : Z) :
  Forall (fun d => 48 <= d <= 57) (decimal5 num).
Proof.
  unfold decimal5.
  repeat (constructor;
          [match goal with
           | |- 48 <= 48 + ?x mod 10 <= 57 =>
             pose proof (Z.mod_pos_bound x 10 ltac:(lia)); lia
           end|]).
  constructor.
Qed.

(** X13: [u16tostr] can be read back: it returns 5 and stores five ASCII
    digits whose decimal value is the number. *)
Theorem u16tostr_round_trip (num : Z) :
  0 <= num < 65536 ->
  fst (u16tostr num) = 5 /\
  length (snd (u16tostr num)) = 5%nat /\
  Forall (fun d => 48 <= d <= 57) (snd (u16tostr num)) /\
  digits_value (snd (u16tostr num)) = num.
Proof.
  intros Hn. rewrite (u16tostr_decimal num Hn). cbn [fst snd].
  split; [reflexivity|]. split; [reflexivity|].
  split; [apply decimal5_digits|]. apply digits_value_decimal5. lia.
Qed.

Lemma u16tostr_round_trip_witness :
  0 <= 65535 < 65536 /\
  snd (u16tostr 65535) = [54; 53; 53; 51; 53] /\
  digits_value (snd (u16tostr 65535)) = 65535.
Proof.
  split; [lia|]. split; [reflexivity|].
  exact (proj2 (proj2 (proj2 (u16tostr_round_trip 65535 ltac:(lia))))).
Defined.

Lemma decimal5_inj (x y : Z) :
  0 <= x < 65536 -> 0 <= y < 65536 -> decimal5 x = decimal5 y -> x = y.
Proof.
  intros Hx Hy E.
  rewrite <- (digits_value_decimal5 x), <- (digits_value_decimal5 y) by lia.
  now rewrite E.
Qed.

(** The bytes [kr_rrkey] leaves in a buffer that is large enough. *)
Lemma kr_rrkey_bytes `{Defines} `{LibknotDname} (key : list Z)
    (class : Z) (owner : knot_dname_t) (type additional : Z)
    (n : Z) (w : list Z) :
  0 <= class < 65536 -> 0 <= type < 65536 -> 0 <= additional < 65536 ->
  knot_dname_to_wire owner KNOT_DNAME_MAXLEN = (n, w) -> 0 < n ->
  n + 15 <= Z.of_nat (length key) ->
  let body := decimal5 class ++ removelast (knot_dname_to_lower w)
                ++ decimal5 type ++ decimal5 additional in
  kr_rrkey (Some key) class (Some owner) type additional
  = (n + 14, Some (body ++ [0] ++ drop (Z.to_nat (n + 15)) key)) /\
  Z.of_nat (length body) = n + 14.
Proof.
  intros Hc Ht Ha Hw Hn Hlen body.
  pose proof (knot_dname_to_wire_size _ _ _ _ Hw Hn) as Hwl.
  pose proof (knot_dname_to_lower_length w) as Hll.
  set (lw := knot_dname_to_lower w) in *.
  assert (Hlw : lw = removelast lw ++ [last lw 0]).
  { apply app_removelast_last. intros E. rewrite E in Hll. simpl in Hll. lia. }
  assert (Hrl : length (removelast lw) = Z.to_nat (n - 1)).
  { pose proof (f_equal (@length Z) Hlw) as E.
    rewrite length_app in E. simpl in E. lia. }
  split.
  2:{ subst body. rewrite !length_app, !length_decimal5, Hrl. lia. }
  unfold kr_rrkey.
  rewrite !u16tostr_decimal by assumption. rewrite Hw.
  cbv beta iota zeta. change (5 <=? 0) with false. cbv iota.
  destruct (Z.leb_spec n 0) as [|_]; [lia|].
  change (knot_dname_to_lower w) with lw.
  (* the buffer, cut where the six stores fall *)
  destruct (split_buffer 5 key ltac:(lia)) as [K0 L0].
  set (k1 := drop 5 key) in *.
  destruct (split_buffer (Z.to_nat n) k1 ltac:(subst k1; rewrite length_drop; lia))
    as [K1 L1].
  set (k2 := drop (Z.to_nat n) k1) in *.
  assert (Hk2 : (10 <= length k2)%nat).
  { subst k2 k1. rewrite !length_drop. lia. }
  destruct (split_buffer 4 k2 ltac:(lia)) as [K2 L2].
  set (k3 := drop 4 k2) in *.
  destruct (split_buffer 5 k3 ltac:(subst k3; rewrite length_drop; lia))
    as [K3 L3].
  set (k4 := drop 5 k3) in *.
  destruct (split_buffer 1 k4
              ltac:(subst k4 k3; rewrite !length_drop; lia)) as [K4 L4].
  assert (Hrest : drop 1 k4 = drop (Z.to_nat (n + 15)) key).
  { subst k4 k3 k2 k1. rewrite !drop_drop. f_equal. lia. }
  rewrite <- Hrest. clear Hrest.
  (* store the class *)
  rewrite K0 at 1.
  pose proof (store_over [] (take 5 key) (decimal5 class) k1 0
                eq_refl ltac:(simpl; congruence)) as S0.
  cbn [app] in S0. rewrite S0. clear S0.
  (* store the name, then lower it in place *)
  rewrite K1.
  rewrite (store_over (decimal5 class) (take (Z.to_nat n) k1) w k2 (0 + 5))
    by (rewrite ?length_decimal5; lia).
  rewrite (store_over (decimal5 class) w lw k2 (0 + 5))
    by (rewrite ?length_decimal5; lia).
  (* store the type over the last byte of the name and four more *)
  rewrite Hlw, K2.
  replace (decimal5 class ++ (removelast lw ++ [last lw 0])
             ++ take 4 k2 ++ k3)
    with ((decimal5 class ++ removelast lw)
            ++ ([last lw 0] ++ take 4 k2) ++ k3)
    by (rewrite <- !app_assoc; reflexivity).
  rewrite (store_over _ _ (decimal5 type) k3 (0 + 5 + (n - 1)))
    by (rewrite ?length_app, ?length_decimal5, ?Hrl; simpl; lia).
  (* store the discriminator *)
  rewrite K3.
  replace ((decimal5 class ++ removelast lw) ++ decimal5 type
             ++ take 5 k3 ++ k4)
    with ((decimal5 class ++ removelast lw ++ decimal5 type)
            ++ take 5 k3 ++ k4)
    by (rewrite <- !app_assoc; reflexivity).
  rewrite (store_over _ _ (decimal5 additional) k4 (0 + 5 + (n - 1) + 5))
    by (rewrite ?length_app, ?length_decimal5, ?Hrl; simpl; lia).
  (* the terminating zero *)
  rewrite K4.
  replace ((decimal5 class ++ removelast lw ++ decimal5 type)
             ++ decimal5 additional ++ take 1 k4 ++ drop 1 k4)
    with (body ++ take 1 k4 ++ drop 1 k4)
    by (subst body; rewrite <- !app_assoc; reflexivity).
  rewrite (store_over body _ [0] (drop 1 k4) (0 + 5 + (n - 1) + 5 + 5)).
  - rewrite <- K4. f_equal. lia.
  - subst body. rewrite !length_app, !length_decimal5, Hrl. lia.
  - simpl. lia.
Qed.

(** X14: The key tells its parts: two calls that produce the same key (the
    same length and the same bytes up to it) were made with the same
    class, type and discriminator, and with owners whose lowercased wire
    forms agree up to their last byte, the root label. *)
Theorem kr_rrkey_injective `{Defines} `{LibknotDname} (key1 key2 : list Z)
    (class1 class2 : Z) (owner1 owner2 : knot_dname_t)
    (type1 type2 additional1 additional2 : Z)
    (n1 n2 : Z) (w1 w2 : list Z) (ret : Z) (out1 out2 : list Z) :
  (0 <= class1 < 65536 /\ 0 <= type1 < 65536 /\ 0 <= additional1 < 65536) ->
  (0 <= class2 < 65536 /\ 0 <= type2 < 65536 /\ 0 <= additional2 < 65536) ->
  knot_dname_to_wire owner1 KNOT_DNAME_MAXLEN = (n1, w1) -> 0 < n1 ->
  knot_dname_to_wire owner2 KNOT_DNAME_MAXLEN = (n2, w2) -> 0 < n2 ->
  n1 + 15 <= Z.of_nat (length key1) -> n2 + 15 <= Z.of_nat (length key2) ->
  kr_rrkey (Some key1) class1 (Some owner1) type1 additional1
  = (ret, Some out1) ->
  kr_rrkey (Some key2) class2 (Some owner2) type2 additional2
  = (ret, Some out2) ->
  take (Z.to_nat ret) out1 = take (Z.to_nat ret) out2 ->
  class1 = class2 /\ type1 = type2 /\ additional1 = additional2 /\
  removelast (knot_dname_to_lower w1) = removelast (knot_dname_to_lower w2).
Proof.
  intros (Hc1 & Ht1 & Ha1) (Hc2 & Ht2 & Ha2) Hw1 Hn1 Hw2 Hn2 Hl1 Hl2.
  destruct (kr_rrkey_bytes key1 class1 owner1 type1 additional1 n1 w1
              Hc1 Ht1 Ha1 Hw1 Hn1 Hl1) as [E1 L1].
  destruct (kr_rrkey_bytes key2 class2 owner2 type2 additional2 n2 w2
              Hc2 Ht2 Ha2 Hw2 Hn2 Hl2) as [E2 L2].
  intros K1 K2. rewrite E1 in K1. rewrite E2 in K2.
  set (body1 := decimal5 class1 ++ removelast (knot_dname_to_lower w1)
                  ++ decimal5 type1 ++ decimal5 additional1) in *.
  set (body2 := decimal5 class2 ++ removelast (knot_dname_to_lower w2)
                  ++ decimal5 type2 ++ decimal5 additional2) in *.
  assert (Hr1 : ret = n1 + 14) by congruence.
  assert (Hr2 : ret = n2 + 14) by congruence.
  assert (Ho1 : out1 = body1 ++ [0] ++ drop (Z.to_nat (n1 + 15)) key1)
    by congruence.
  assert (Ho2 : out2 = body2 ++ [0] ++ drop (Z.to_nat (n2 + 15)) key2)
    by congruence.
  rewrite Ho1, Ho2, !take_app_length' by lia.
  subst body1 body2. intros Hbody.
  apply app_inj_1 in Hbody as [Hc Hbody]; [|reflexivity].
  assert (Hlen : length (removelast (knot_dname_to_lower w1))
                 = length (removelast (knot_dname_to_lower w2))).
  { rewrite !length_app, !length_decimal5 in L1, L2. lia. }
  apply app_inj_1 in Hbody as [Hname Hbody]; [|exact Hlen].
  apply app_inj_1 in Hbody as [Ht Ha]; [|reflexivity].
  split; [now apply decimal5_inj|]. split; [now apply decimal5_inj|].
  split; [now apply decimal5_inj | exact Hname].
Qed.

(** The names "A." and "a." give the same key, and nothing else about
    the calls can differ. *)
Lemma kr_rrkey_injective_witness :
  fst (@kr_rrkey upstream_defines wire_dname
         (Some (repeat 7 20)) 1 (Some [1; 65; 0]) 46 1) = 17 /\
  fst (@kr_rrkey upstream_defines wire_dname
         (Some (repeat 9 18)) 1 (Some [1; 97; 0]) 46 1) = 17 /\
  removelast (@knot_dname_to_lower wire_dname [1; 65; 0])
  = removelast (@knot_dname_to_lower wire_dname [1; 97; 0]).
Proof.
  split; [reflexivity|]. split; [reflexivity|].
  refine (proj2 (proj2 (proj2
    (@kr_rrkey_injective upstream_defines wire_dname
       (repeat 7 20) (repeat 9 18) 1 1 [1; 65; 0] [1; 97; 0] 46 46 1 1
       3 3 [1; 65; 0] [1; 97; 0] 17 _ _
       ltac:(lia) ltac:(lia) eq_refl ltac:(lia) eq_refl ltac:(lia)
       ltac:(simpl; lia) ltac:(simpl; lia) eq_refl eq_refl eq_refl)))).
Defined.

End RrkeyInjective.

Module InaddrPortProofs.
Import Utils Inaddr InaddrProofs.

Section Layout.
Context `{SockaddrLayout}.

(** A port field reads back what was stored in it. *)
Lemma load_port_store_port (f : port_field) (port : Z) (a : list Z) :
  0 <= port < 65536 -> (offsetof f + 2 <= length a)%nat ->
  load_port f (store_port f port a) = port.
Proof.
  intros Hp Hlen. unfold load_port, store_port, htons_bytes.
  rewrite (nth_lookup_Some _ (offsetof f) 0 (Z.shiftr port 8 mod 256)).
  2:{ rewrite list_lookup_inserts by (simpl; lia).
      now rewrite Nat.sub_diag. }
  rewrite (nth_lookup_Some _ (S (offsetof f)) 0 (port mod 256)).
  2:{ rewrite list_lookup_inserts by (simpl; lia).
      now replace (S (offsetof f) - offsetof f)%nat with 1%nat by lia. }
  rewrite Z.shiftr_div_pow2 by lia. change (2 ^ 8) with 256.
  rewrite (Z.mod_small (port / 256))
    by (split; [apply Z.div_pos; lia | apply Z.div_lt_upper_bound; lia]).
  pose proof (Z.div_mod port 256 ltac:(lia)). lia.
Qed.

(** A store into a field that lies apart does not change what a field
    reads. *)
Lemma load_port_store_port_apart (f g : port_field) (port : Z) (a : list Z) :
  (offsetof f + 2 <= offsetof g)%nat \/ (offsetof g + 2 <= offsetof f)%nat ->
  load_port f (store_port g port a) = load_port f a.
Proof.
  intros Hapart. unfold load_port.
  rewrite !(nth_lookup _ _ 0).
  rewrite !(store_port_frame g port a) by lia. reflexivity.
Qed.

Lemma length_store_port (f : port_field) (port : Z) (a : list Z) :
  length (store_port f port a) = length a.
Proof. apply length_inserts. Qed.

(** X15: On a layout whose port fields do not reach into the family field,
    [kr_inaddr_port] reads back the port that [kr_inaddr_set_port] has
    set, for an AF_INET6 address and also for an AF_INET address, where
    the second store of [kr_inaddr_set_port] goes to a field that is the
    same as the first or lies apart from it.  The address keeps its
    size. *)
Theorem kr_inaddr_port_set_port (a : list Z) (port : Z) :
  0 <= port < 65536 ->
  (forall f p b, sa_family (store_port f p b) = sa_family b) ->
  (sa_family a = AF_INET /\ (offsetof sin_port + 2 <= length a)%nat /\
   (offsetof sin6_port = offsetof sin_port \/
    (offsetof sin_port + 2 <= offsetof sin6_port)%nat \/
    (offsetof sin6_port + 2 <= offsetof sin_port)%nat)) \/
  (sa_family a = AF_INET6 /\ (offsetof sin6_port + 2 <= length a)%nat) ->
  exists a',
    fst (kr_inaddr_set_port (Some a) port) = Some a' /\
    length a' = length a /\ sa_family a' = sa_family a /\
    kr_inaddr_port (Some a') = port.
Proof.
  intros Hp Hfam [(Hf & Hlen & Hoff) | (Hf & Hlen)];
    unfold kr_inaddr_set_port; rewrite Hf; cbn [Z.eqb AF_INET AF_INET6 fst].
  - eexists. split; [reflexivity|].
    split; [now rewrite !length_store_port|].
    split; [now rewrite !Hfam|].
    unfold kr_inaddr_port. rewrite !Hfam, Hf. cbn [Z.eqb AF_INET].
    destruct Hoff as [Hsame | Hapart].
    + replace (store_port sin6_port port (store_port sin_port port a))
        with (store_port sin_port port (store_port sin_port port a))
        by (unfold store_port; now rewrite Hsame).
      rewrite store_port_twice. now apply load_port_store_port.
    + rewrite load_port_store_port_apart by exact Hapart.
      now apply load_port_store_port.
  - eexists. split; [reflexivity|].
    split; [now rewrite !length_store_port|].
    split; [now rewrite !Hfam|].
    unfold kr_inaddr_port. rewrite !Hfam, Hf. cbn [Z.eqb AF_INET AF_INET6].
    now apply load_port_store_port.
Qed.

End Layout.

Lemma linux_family_frame (f : port_field) (p : Z) (b : list Z) :
  @sa_family linux_sockaddr (@store_port linux_sockaddr f p b)
  = @sa_family linux_sockaddr b.
Proof.
  cbn [sa_family linux_sockaddr].
  rewrite !(nth_lookup _ _ 0).
  rewrite !(@store_port_frame linux_sockaddr f p b)
    by (left; destruct f; cbn; lia).
  reflexivity.
Qed.

(** 127.0.0.1 as a [struct sockaddr_in] on Linux: port 5353 is read back. *)
Lemma kr_inaddr_port_set_port_witness :
  exists a',
    fst (@kr_inaddr_set_port linux_sockaddr
           (Some [2; 0; 0; 0; 127; 0; 0; 1; 0; 0; 0; 0; 0; 0; 0; 0]) 5353)
    = Some a' /\
    length a' = 16%nat /\
    @sa_family linux_sockaddr a' = AF_INET /\
    @kr_inaddr_port linux_sockaddr (Some a') = 5353.
Proof.
  apply (@kr_inaddr_port_set_port linux_sockaddr
           [2; 0; 0; 0; 127; 0; 0; 1; 0; 0; 0; 0; 0; 0; 0; 0] 5353).
  - lia.
  - exact linux_family_frame.
  - left. split; [reflexivity|]. split; [cbn; lia|]. left. reflexivity.
Defined.

End InaddrPortProofs.

Module StraddrProofs.
Import Utils Straddr RrkeyProofs RrkeyInjective.

Lemma strchr_none (s : list Z) (c : Z) :
  strchr s c = None <-> Forall (fun x => x <> c) s.
Proof.
  induction s as [|x s IH]; simpl; [split; [constructor | reflexivity]|].
  destruct (Z.eqb_spec x c) as [->|Hne].
  - split; [discriminate|]. intros Hall. apply Forall_inv in Hall.
    contradiction.
  - destruct (strchr s c); simpl.
    + split; [discriminate|]. intros Hall. apply Forall_inv_tail in Hall.
      apply IH in Hall. discriminate.
    + split; [|reflexivity]. intros _. constructor; [exact Hne|].
      now apply IH.
Qed.

(** [strchr] finds the first occurrence: the string splits there. *)
Lemma strchr_some (s : list Z) (c : Z) (i : nat) :
  strchr s c = Some i ->
  s = take i s ++ c :: drop (S i) s /\ Forall (fun x => x <> c) (take i s).
Proof.
  revert i. induction s as [|x s IH]; intros i; simpl; [discriminate|].
  destruct (Z.eqb_spec x c) as [->|Hne].
  - intros [= <-]. simpl. split; [reflexivity | constructor].
  - destruct (strchr s c) as [j|]; simpl; [|discriminate].
    intros [= <-]. destruct (IH j eq_refl) as [Hs Hall]. simpl.
    split; [now rewrite <- Hs | now constructor].
Qed.

Lemma strchr_first (front rest : list Z) (c : Z) :
  Forall (fun x => x <> c) front ->
  strchr (front ++ c :: rest) c = Some (length front).
Proof.
  induction 1 as [|x front Hx _ IH]; simpl.
  - now rewrite Z.eqb_refl.
  - rewrite (proj2 (Z.eqb_neq _ _) Hx), IH. reflexivity.
Qed.

Lemma c_str_terminated (s rest : list Z) :
  Forall (fun x => x <> 0) s -> c_str (s ++ 0 :: rest) = s.
Proof.
  induction 1 as [|x s Hx _ IH]; simpl; [reflexivity|].
  rewrite (proj2 (Z.eqb_neq _ _) Hx), IH. reflexivity.
Qed.

Section Text.
Context `{Defines} `{LibcInet}.

Lemma kr_error_EILSEQ_nonzero : kr_error EILSEQ <> 0.
Proof. pose proof (kr_error_neg EILSEQ ltac:(reflexivity)). lia. Qed.

(** X16: [kr_straddr_split] either fails with EILSEQ and stores no address,
    or succeeds with the address being the text before the first "@"
    or, if the input has no "@", before the first "#" (all of the input
    if it has neither), of at most 46 bytes.  With a separator, what
    follows it is not empty, is a number to its end as [strtol] reads
    it, and the port stored is that number, between 1 and 65535. *)
Theorem kr_straddr_split_ok (instr : list Z) :
  let '(ret, ipaddr, port) := kr_straddr_split instr in
  (ret = 0 \/ ret = kr_error EILSEQ) /\ kr_error EILSEQ <> 0 /\
  (ret <> 0 -> ipaddr = None) /\
  (ret = 0 ->
   exists a,
     ipaddr = Some a /\ (length a <= 46)%nat /\
     Forall (fun c => c <> 64) a /\
     ((instr = a /\ Forall (fun c => c <> 35) a /\ port = None) \/
      exists sep number p,
        instr = a ++ sep :: number /\
        (sep = 64 \/
         sep = 35 /\ Forall (fun c => c <> 64) instr /\
         Forall (fun c => c <> 35) a) /\
        number <> [] /\ strtol number = (p, length number) /\
        1 <= p <= 65535 /\ port = Some p)).
Proof.
  pose proof kr_error_EILSEQ_nonzero as Hne.
  assert (Hfail : forall port : option Z,
            let '(ret, ipaddr, port) :=
              (kr_error EILSEQ, @None (list Z), port) in
            (ret = 0 \/ ret = kr_error EILSEQ) /\ kr_error EILSEQ <> 0 /\
            (ret <> 0 -> ipaddr = None) /\
            (ret = 0 ->
             exists a,
               ipaddr = Some a /\ (length a <= 46)%nat /\
               Forall (fun c => c <> 64) a /\
               ((instr = a /\ Forall (fun c => c <> 35) a /\ port = None) \/
                exists sep number p,
                  instr = a ++ sep :: number /\
                  (sep = 64 \/
                   sep = 35 /\ Forall (fun c => c <> 64) instr /\
                   Forall (fun c => c <> 35) a) /\
                  number <> [] /\ strtol number = (p, length number) /\
                  1 <= p <= 65535 /\ port = Some p))).
  { intros port. split; [now right|]. split; [exact Hne|].
    split; [reflexivity | contradiction]. }
  unfold kr_straddr_split, INET6_ADDRSTRLEN, UINT16_MAX.
  set (p_start := match strchr instr 64 with
                  | Some i => Some i
                  | None => strchr instr 35
                  end).
  assert (Hsep : match p_start with
                 | Some i =>
                   exists sep,
                     instr = take i instr ++ sep :: drop (S i) instr /\
                     Forall (fun c => c <> 64) (take i instr) /\
                     (sep = 64 \/
                      sep = 35 /\ Forall (fun c => c <> 64) instr /\
                      Forall (fun c => c <> 35) (take i instr))
                 | None =>
                   Forall (fun c => c <> 64) instr /\
                   Forall (fun c => c <> 35) instr
                 end).
  { subst p_start. destruct (strchr instr 64) as [i|] eqn:Hat.
    - destruct (strchr_some _ _ _ Hat) as [Hs Hall]. exists 64. auto.
    - apply strchr_none in Hat.
      destruct (strchr instr 35) as [i|] eqn:Hhash.
      + destruct (strchr_some _ _ _ Hhash) as [Hs Hall]. exists 35.
        split; [exact Hs|]. split; [now apply Forall_take|]. right. auto.
      + apply strchr_none in Hhash. auto. }
  destruct p_start as [i|].
  - destruct Hsep as (sep & Hs & Hat & Hwhich).
    set (number := drop (S i) instr) in *.
    case_bool_decide as Hempty; [apply Hfail|].
    destruct (strtol number) as [p p_end] eqn:Hstrtol.
    destruct (Nat.eqb_spec p_end (length number)) as [->|]; cbn [negb orb];
      [|apply Hfail].
    destruct (Z.leb_spec p 0); cbn [orb]; [apply Hfail|].
    destruct (Z.gtb_spec p 65535); [apply Hfail|].
    destruct (Z.gtb_spec (Z.of_nat i) 46); [apply Hfail|].
    split; [left; apply kr_ok_zero|]. split; [exact Hne|].
    split; [intros Hno; destruct Hno; apply kr_ok_zero|].
    intros _. exists (take i instr).
    split; [reflexivity|]. split; [rewrite length_take; lia|].
    split; [exact Hat|]. right. exists sep, number, p.
    rewrite Z.mod_small by lia. repeat split; try assumption; lia.
  - destruct Hsep as [Hat Hhash].
    destruct (Z.gtb_spec (Z.of_nat (length instr)) 46); [apply Hfail|].
    split; [left; apply kr_ok_zero|]. split; [exact Hne|].
    split; [intros Hno; destruct Hno; apply kr_ok_zero|].
    intros _. exists instr. rewrite firstn_all.
    split; [reflexivity|]. split; [lia|]. split; [exact Hat|]. left. auto.
Qed.

(** The bytes [kr_straddr_join] leaves in a buffer that has room:
    the address, "#", the five digits of the port and a zero. *)
Lemma kr_straddr_join_bytes (addr : list Z) (port : Z) (buf : list Z)
    (buflen : Z) :
  0 <= port < 65536 ->
  fst (inet_pton (kr_straddr_family (Some addr)) addr) <> 0 ->
  Z.of_nat (length addr) + 6 < buflen <= Z.of_nat (length buf) ->
  kr_straddr_join (Some addr) port (Some buf) (Some buflen)
  = (kr_ok,
     Some ((addr ++ [35] ++ decimal5 port) ++ [0]
           ++ drop (length addr + 7) buf),
     Some (Z.of_nat (length addr) + 6)).
Proof.
  intros Hport Hpton Hroom. unfold kr_straddr_join.
  assert (Hfam : kr_straddr_family (Some addr) <> kr_error EINVAL).
  { pose proof (kr_error_neg EINVAL ltac:(reflexivity)).
    unfold kr_straddr_family, AF_INET, AF_INET6.
    destruct (strchr addr 58); lia. }
  rewrite (proj2 (Z.eqb_neq _ _) Hfam), (proj2 (Z.eqb_neq _ _) Hpton).
  cbn [orb]. cbv zeta.
  destruct (Z.geb_spec (Z.of_nat (length addr) + 6) buflen) as [|_]; [lia|].
  rewrite (u16tostr_decimal port Hport). cbn [snd].
  set (n := length addr).
  destruct (split_buffer (n + 1) buf ltac:(lia)) as [K0 L0].
  set (k1 := drop (n + 1) buf) in *.
  destruct (split_buffer 5 k1 ltac:(subst k1; rewrite length_drop; lia))
    as [K1 L1].
  set (k2 := drop 5 k1) in *.
  destruct (split_buffer 1 k2
              ltac:(subst k2 k1; rewrite !length_drop; lia)) as [K2 L2].
  assert (Hrest : drop 1 k2 = drop (n + 7) buf).
  { subst k2 k1. rewrite !drop_drop. f_equal. lia. }
  rewrite <- Hrest. clear Hrest.
  do 2 f_equal. f_equal.
  (* the address and its zero *)
  rewrite K0 at 1.
  pose proof (store_over [] (take (n + 1) buf) (addr ++ [0]) k1 0 eq_refl
                ltac:(rewrite length_app, L0; reflexivity)) as S0.
  cbn [app] in S0. rewrite S0. clear S0.
  (* "#" over the zero *)
  rewrite <- app_assoc.
  rewrite (store_over addr [0] [35] k1 (Z.of_nat n)) by (subst n; simpl; lia).
  (* the digits *)
  rewrite K1.
  replace (addr ++ [35] ++ take 5 k1 ++ k2)
    with ((addr ++ [35]) ++ take 5 k1 ++ k2)
    by (rewrite <- app_assoc; reflexivity).
  rewrite (store_over (addr ++ [35]) (take 5 k1) (decimal5 port) k2
             (Z.of_nat n + 1))
    by (rewrite ?length_app, ?length_decimal5; subst n; simpl; lia).
  (* the final zero *)
  rewrite K2.
  replace ((addr ++ [35]) ++ decimal5 port ++ take 1 k2 ++ drop 1 k2)
    with ((addr ++ [35] ++ decimal5 port) ++ take 1 k2 ++ drop 1 k2)
    by (rewrite <- !app_assoc; reflexivity).
  rewrite (store_over (addr ++ [35] ++ decimal5 port) (take 1 k2) [0]
             (drop 1 k2) (Z.of_nat n + 6)).
  - rewrite <- K2. reflexivity.
  - rewrite !length_app, length_decimal5. subst n. simpl. lia.
  - simpl. lia.
Qed.

Lemma decimal5_no (c : Z) (port : Z) :
  c < 48 \/ 57 < c -> Forall (fun x => x <> c) (decimal5 port).
Proof.
  intros Hc. eapply Forall_impl; [|apply decimal5_digits].
  intros x Hx. simpl in Hx. lia.
Qed.

(** X17: What [kr_straddr_join] writes, [kr_straddr_split] takes apart again,
    unless the port is 0.  Let [strtol] read a string of digits as its
    decimal value, and let the address be a C string of at most 46 bytes
    without "@" and "#" that [inet_pton] accepts.  Then joining it with a
    port in a buffer that has room leaves the address, "#" and the five
    digits of the port as the buffer's string, of the length stored in
    [*buflen]; and splitting that string gives back the address and the
    port when the port is not 0, and fails with EILSEQ when it is 0. *)
Theorem kr_straddr_split_join (addr : list Z) (port : Z) (buf : list Z)
    (buflen : Z) :
  (forall digits, digits <> [] -> Forall (fun d => 48 <= d <= 57) digits ->
     digits_value digits < 2 ^ 31 ->
     strtol digits = (digits_value digits, length digits)) ->
  Forall (fun c => c <> 0 /\ c <> 64 /\ c <> 35) addr ->
  (length addr <= 46)%nat ->
  fst (inet_pton (kr_straddr_family (Some addr)) addr) <> 0 ->
  0 <= port < 65536 ->
  Z.of_nat (length addr) + 6 < buflen <= Z.of_nat (length buf) ->
  exists buf',
    kr_straddr_join (Some addr) port (Some buf) (Some buflen)
    = (kr_ok, Some buf', Some (Z.of_nat (length (c_str buf')))) /\
    c_str buf' = addr ++ [35] ++ decimal5 port /\
    kr_straddr_split (c_str buf')
    = if port =? 0 then (kr_error EILSEQ, None, None)
      else (kr_ok, Some addr, Some port).
Proof.
  intros Hstrtol Haddr Hlen Hpton Hport Hroom.
  assert (Hzero : Forall (fun c => c <> 0) addr)
    by (eapply Forall_impl; [|exact Haddr]; cbn; intros c Hc; tauto).
  assert (Hat : Forall (fun c => c <> 64) addr)
    by (eapply Forall_impl; [|exact Haddr]; cbn; intros c Hc; tauto).
  assert (Hhash : Forall (fun c => c <> 35) addr)
    by (eapply Forall_impl; [|exact Haddr]; cbn; intros c Hc; tauto).
  eexists. rewrite (kr_straddr_join_bytes addr port buf buflen Hport Hpton Hroom).
  assert (Hstr : c_str ((addr ++ [35] ++ decimal5 port) ++ [0]
                        ++ drop (length addr + 7) buf)
                 = addr ++ [35] ++ decimal5 port).
  { apply c_str_terminated. apply Forall_app. split; [exact Hzero|].
    apply Forall_app. split; [repeat constructor; lia|].
    apply decimal5_no. lia. }
  rewrite Hstr. split; [|split; [reflexivity|]].
  { do 3 f_equal. rewrite !length_app, length_decimal5. simpl. lia. }
  unfold kr_straddr_split, INET6_ADDRSTRLEN, UINT16_MAX.
  assert (Hno_at : strchr (addr ++ [35] ++ decimal5 port) 64 = None).
  { apply strchr_none. apply Forall_app. split; [exact Hat|].
    apply Forall_app. split; [repeat constructor; lia|].
    apply decimal5_no. lia. }
  rewrite Hno_at. change (addr ++ [35] ++ decimal5 port)
    with (addr ++ 35 :: decimal5 port).
  rewrite (strchr_first addr (decimal5 port) 35 Hhash).
  assert (Hnum : drop (S (length addr)) (addr ++ 35 :: decimal5 port)
                 = decimal5 port).
  { rewrite drop_app_ge by lia.
    replace (S (length addr) - length addr)%nat with 1%nat by lia.
    reflexivity. }
  rewrite Hnum.
  rewrite bool_decide_false by discriminate.
  rewrite (Hstrtol (decimal5 port)); [|discriminate|apply decimal5_digits|].
  2:{ rewrite digits_value_decimal5 by lia. lia. }
  rewrite digits_value_decimal5 by lia.
  rewrite length_decimal5, Nat.eqb_refl. cbn [negb orb].
  destruct (Z.eqb_spec port 0) as [->|Hnz]; [reflexivity|].
  destruct (Z.leb_spec port 0); [lia|].
  destruct (Z.gtb_spec port 65535); [lia|]. cbn [orb].
  destruct (Z.gtb_spec (Z.of_nat (length addr)) 46); [lia|].
  rewrite take_app_length, Z.mod_small by lia. reflexivity.
Qed.

(** X18: [kr_straddr_subnet], given a destination and a text: a return value
    that is not negative is a prefix length fit for the family the text
    shows (at most 128 with a ":" in it, at most 32 without) and is that
    maximum when the text has no "/"; the other return values are the
    errors of ERANGE and EILSEQ.  EILSEQ is returned only when
    [inet_pton] returns a negative value: an address that [inet_pton]
    does not parse, returning 0, is not reported. *)
Theorem kr_straddr_subnet_range (dst addr : list Z) :
  let ret := fst (kr_straddr_subnet (Some dst) (Some addr)) in
  let max_len := match strchr addr 58 with Some _ => 128 | None => 32 end in
  let addr_str := match strchr addr 47 with
                  | Some i => take i addr
                  | None => addr
                  end in
  (ret = kr_error ERANGE \/ ret = kr_error EILSEQ \/ 0 <= ret <= max_len) /\
  (kr_error ERANGE < 0 /\ kr_error EILSEQ < 0) /\
  (strchr addr 47 = None -> ret = kr_error EILSEQ \/ ret = max_len) /\
  (0 <= fst (inet_pton (kr_straddr_family (Some addr)) addr_str) ->
   ret = kr_error ERANGE \/ 0 <= ret <= max_len).
Proof.
  cbv zeta. unfold kr_straddr_subnet.
  assert (Hmax : (if kr_straddr_family (Some addr) =? AF_INET6
                  then 128 else 32)
                 = match strchr addr 58 with Some _ => 128 | None => 32 end).
  { unfold kr_straddr_family. destruct (strchr addr 58); reflexivity. }
  rewrite !Hmax.
  set (max_len := match strchr addr 58 with Some _ => 128 | None => 32 end).
  assert (Hpos : 0 <= max_len) by (subst max_len; destruct (strchr addr 58); lia).
  split; [|split; [split; apply kr_error_neg; reflexivity|]].
  - destruct (strchr addr 47) as [i|].
    + set (bit_len := int_of_long _).
      destruct (Z.ltb_spec bit_len 0); cbn [orb fst]; [now left|].
      destruct (Z.gtb_spec bit_len max_len); cbn [fst]; [now left|].
      destruct (inet_pton _ _) as [r stored].
      destruct (Z.ltb_spec r 0); cbn [fst]; [right; now left|].
      right. right. lia.
    + destruct (inet_pton _ _) as [r stored].
      destruct (Z.ltb_spec r 0); cbn [fst]; [right; now left|].
      right. right. lia.
  - split.
    + intros Hno. rewrite Hno.
      destruct (inet_pton _ _) as [r stored].
      destruct (Z.ltb_spec r 0); cbn [fst]; auto.
    + destruct (strchr addr 47) as [i|].
      * set (bit_len := int_of_long _).
        destruct (Z.ltb_spec bit_len 0); cbn [orb fst]; [now left|].
        destruct (Z.gtb_spec bit_len max_len); cbn [fst]; [now left|].
        destruct (inet_pton _ _) as [r stored]. cbn [fst]. intros Hr.
        destruct (Z.ltb_spec r 0); [lia|]. cbn [fst]. right. lia.
      * destruct (inet_pton _ _) as [r stored]. cbn [fst]. intros Hr.
        destruct (Z.ltb_spec r 0); [lia|]. cbn [fst]. right. lia.
Qed.

End Text.

Lemma read_digits_all (digits : list Z) (acc : Z) (n : nat) :
  Forall (fun d => 48 <= d <= 57) digits ->
  read_digits digits acc n
  = (fold_left (fun acc d => acc * 10 + (d - 48)) digits acc,
     (n + length digits)%nat).
Proof.
  intros Hall. revert acc n.
  induction Hall as [|d digits Hd _ IH]; intros acc n; simpl.
  - now rewrite Nat.add_0_r.
  - unfold is_digit.
    destruct (Z.leb_spec 48 d); [|lia]. destruct (Z.leb_spec d 57); [|lia].
    cbn [andb]. rewrite IH. f_equal. lia.
Qed.

Lemma digits_value_nonneg (digits : list Z) (acc : Z) :
  Forall (fun d => 48 <= d <= 57) digits -> 0 <= acc ->
  0 <= fold_left (fun acc d => acc * 10 + (d - 48)) digits acc.
Proof.
  intros Hall. revert acc.
  induction Hall as [|d digits Hd _ IH]; intros acc Hacc; simpl; [exact Hacc|].
  apply IH. lia.
Qed.

(** glibc's [strtol] reads a string of digits as its decimal value. *)
Lemma glibc_strtol_digits (digits : list Z) :
  digits <> [] -> Forall (fun d => 48 <= d <= 57) digits ->
  digits_value digits < 2 ^ 31 ->
  glibc_strtol digits = (digits_value digits, length digits).
Proof.
  intros Hne Hall Hsmall. unfold glibc_strtol.
  destruct digits as [|d digits]; [contradiction|].
  pose proof (Forall_inv Hall) as Hd. cbn beta in Hd.
  assert (Hsp : skip_spaces (d :: digits) = O).
  { simpl. unfold is_space.
    destruct (Z.eqb_spec d 32); [lia|].
    destruct (Z.leb_spec 9 d), (Z.leb_spec d 13); try lia; reflexivity. }
  rewrite Hsp. cbn [drop].
  assert (Hsign : match d :: digits with
                  | 45 :: _ => (true, 1%nat)
                  | 43 :: _ => (false, 1%nat)
                  | _ => (false, O)
                  end = (false, O)).
  { destruct d as [|p|p]; try reflexivity.
    do 6 (destruct p as [p|p|]; try reflexivity); lia. }
  rewrite Hsign. cbn [drop].
  rewrite (read_digits_all _ 0 0 Hall). cbn [Nat.add].
  change (length (d :: digits) =? 0)%nat with false. cbv iota.
  fold (digits_value (d :: digits)).
  pose proof (digits_value_nonneg _ 0 Hall ltac:(lia)) as Hpos.
  fold (digits_value (d :: digits)) in Hpos.
  f_equal. lia.
Qed.

(** "127.0.0.1" and port 53 in a buffer of 64 bytes: joined to
    "127.0.0.1#00053" and split again. *)
Lemma kr_straddr_split_join_witness :
  exists buf',
    @kr_straddr_join upstream_defines glibc_inet
      (Some [49; 50; 55; 46; 48; 46; 48; 46; 49]) 53 (Some (repeat 1 64))
      (Some 64)
    = (0, Some buf', Some 15) /\
    c_str buf' = [49; 50; 55; 46; 48; 46; 48; 46; 49; 35; 48; 48; 48; 53; 51]
    /\
    @kr_straddr_split upstream_defines glibc_inet (c_str buf')
    = (0, Some [49; 50; 55; 46; 48; 46; 48; 46; 49], Some 53).
Proof.
  destruct (@kr_straddr_split_join upstream_defines glibc_inet
              [49; 50; 55; 46; 48; 46; 48; 46; 49] 53 (repeat 1 64) 64)
    as (buf' & Hjoin & Hstr & Hsplit).
  - exact glibc_strtol_digits.
  - repeat constructor; lia.
  - simpl. lia.
  - vm_compute. discriminate.
  - lia.
  - simpl. lia.
  - exists buf'. rewrite Hstr in Hjoin. split; [exact Hjoin|].
    split; [exact Hstr | exact Hsplit].
Defined.

End StraddrProofs.

Module DnssecKeysProofs.
Import Dnssec DnssecKeys DnssecProofs.

(** Two bytes read big-endian: the first times 256 plus the second. *)
Lemma wire_read_u16_value (rdata : list Z) :
  0 <= nth 0 rdata 0 < 256 -> 0 <= nth 1 rdata 0 < 256 ->
  wire_read_u16 rdata = 256 * nth 0 rdata 0 + nth 1 rdata 0.
Proof.
  intros H0 H1. unfold wire_read_u16.
  set (hi := nth 0 rdata 0) in *. set (lo := nth 1 rdata 0) in *.
  assert (Hland : Z.land (Z.shiftl hi 8) lo = 0).
  { apply Z.bits_inj'. intros n Hn. rewrite Z.land_spec, Z.bits_0.
    destruct (Z.lt_ge_cases n 8) as [Hlow|Hhigh].
    - now rewrite Z.shiftl_spec_low.
    - replace (Z.testbit lo n) with false; [apply andb_false_r|].
      symmetry. destruct (Z.eq_dec lo 0) as [->|Hnz]; [apply Z.bits_0|].
      apply Z.bits_above_log2; [lia|].
      apply Z.lt_le_trans with 8; [|exact Hhigh].
      apply Z.log2_lt_pow2; lia. }
  pose proof (Z.add_lor_land (Z.shiftl hi 8) lo) as Hadd.
  rewrite Hland, Z.add_0_r in Hadd. rewrite Hadd.
  rewrite Z.shiftl_mul_pow2 by lia. lia.
Qed.

Section Keys.
Context `{Defines} `{Libdnssec} `{!LibdnssecPubkey}.

(** What [kr_dnssec_key_from_rdata] can return. *)
Lemma kr_dnssec_key_from_rdata_cases kown rdata :
  (exists key, kr_dnssec_key_from_rdata kown rdata = (0, Some key) /\
     exists bytes, rdata = Some bytes /\ bytes <> []) \/
  kr_dnssec_key_from_rdata kown rdata = (kr_error EINVAL, None) \/
  kr_dnssec_key_from_rdata kown rdata = (kr_error ENOMEM, None).
Proof.
  unfold kr_dnssec_key_from_rdata.
  destruct rdata as [bytes|]; [|auto].
  destruct (Z.eqb_spec (Z.of_nat (length bytes)) 0) as [|Hlen]; [auto|].
  assert (bytes <> []) by (intros ->; simpl in Hlen; lia).
  destruct dnssec_key_new as [r0 k0].
  destruct (negb (r0 =? DNSSEC_EOK)); [auto|].
  destruct (dnssec_key_set_rdata k0 bytes) as [r1 k1].
  destruct (negb (r1 =? DNSSEC_EOK)); [auto|].
  destruct kown as [kown|].
  - destruct (dnssec_key_set_dname k1 kown) as [r2 k2].
    destruct (negb (r2 =? DNSSEC_EOK)); [auto|].
    left. exists k2. rewrite kr_ok_zero. eauto.
  - left. exists k1. rewrite kr_ok_zero. eauto.
Qed.

(** X19: The result of [kr_dnssec_key_tag] tells a key tag from an error by
    its sign: it is a 16-bit value, or the negative error of EINVAL or
    ENOMEM.  For a DS record of at least two bytes it is the big-endian
    value of the first two; for a DNSKEY record it is the key tag of
    the key made from the record; for any other type it is EINVAL. *)
Theorem kr_dnssec_key_tag_range (rrtype : Z) (rdata : list Z) :
  Forall (fun b => 0 <= b < 256) rdata -> (2 <= length rdata)%nat ->
  let ret := kr_dnssec_key_tag rrtype (Some rdata) in
  (0 <= ret < 65536 \/ ret = kr_error EINVAL \/ ret = kr_error ENOMEM) /\
  (kr_error EINVAL < 0 /\ kr_error ENOMEM < 0) /\
  (rrtype = KNOT_RRTYPE_DS -> ret = 256 * nth 0 rdata 0 + nth 1 rdata 0) /\
  (rrtype = KNOT_RRTYPE_DNSKEY -> 0 <= ret ->
   exists key,
     kr_dnssec_key_from_rdata None (Some rdata) = (0, Some key) /\
     ret = dnssec_key_get_keytag key mod 65536) /\
  (rrtype <> KNOT_RRTYPE_DS -> rrtype <> KNOT_RRTYPE_DNSKEY ->
   ret = kr_error EINVAL).
Proof.
  intros Hbytes Hlen. cbv zeta.
  pose proof (kr_error_neg EINVAL ltac:(reflexivity)) as Hinval.
  pose proof (kr_error_neg ENOMEM ltac:(reflexivity)) as Hnomem.
  assert (Hb0 : 0 <= nth 0 rdata 0 < 256).
  { apply (Forall_nth (fun b => 0 <= b < 256)); [exact Hbytes | lia]. }
  assert (Hb1 : 0 <= nth 1 rdata 0 < 256).
  { apply (Forall_nth (fun b => 0 <= b < 256)); [exact Hbytes | lia]. }
  pose proof (wire_read_u16_value rdata Hb0 Hb1) as Hu16.
  unfold kr_dnssec_key_tag.
  destruct (Z.eqb_spec (Z.of_nat (length rdata)) 0) as [|_]; [lia|].
  cbn [orb].
  destruct (Z.eqb_spec rrtype KNOT_RRTYPE_DS) as [Hds|Hds]; cbn [negb andb].
  { rewrite Hu16. split; [left; lia|]. split; [auto|].
    split; [reflexivity|]. split; [|contradiction].
    intros ->. discriminate Hds. }
  destruct (Z.eqb_spec rrtype KNOT_RRTYPE_DNSKEY) as [Hkey|Hkey];
    cbn [negb].
  2:{ split; [auto|]. split; [auto|]. split; [contradiction|].
      split; [contradiction | reflexivity]. }
  destruct (kr_dnssec_key_from_rdata_cases None (Some rdata))
    as [(key & -> & _) | [-> | ->]].
  - cbn [Z.eqb negb].
    pose proof (Z.mod_pos_bound (dnssec_key_get_keytag key) 65536
                  ltac:(lia)).
    split; [left; lia|]. split; [auto|]. split; [contradiction|].
    split; [eauto | contradiction].
  - rewrite (proj2 (Z.eqb_neq _ _)) by lia. cbn [negb].
    split; [auto|]. split; [auto|]. split; [contradiction|].
    split; [lia | contradiction].
  - rewrite (proj2 (Z.eqb_neq _ _)) by lia. cbn [negb].
    split; [auto|]. split; [auto|]. split; [contradiction|].
    split; [lia | contradiction].
Qed.

(** X20: [kr_dnssec_key_match] returns 0 exactly when a key can be made from
    either record, the two keys have the same algorithm, the public key
    of either can be fetched, and the two public keys are the same
    bytes; every other return value is one of three negative errors. *)
Theorem kr_dnssec_key_match_iff (key_a_rdata key_b_rdata : option (list Z)) :
  let ret := kr_dnssec_key_match key_a_rdata key_b_rdata in
  (ret = 0 <->
   exists key_a key_b,
     kr_dnssec_key_from_rdata None key_a_rdata = (0, Some key_a) /\
     kr_dnssec_key_from_rdata None key_b_rdata = (0, Some key_b) /\
     dnssec_key_get_algorithm key_a = dnssec_key_get_algorithm key_b /\
     fst (dnssec_key_get_pubkey key_a) = DNSSEC_EOK /\
     fst (dnssec_key_get_pubkey key_b) = DNSSEC_EOK /\
     snd (dnssec_key_get_pubkey key_a) = snd (dnssec_key_get_pubkey key_b)) /\
  (ret = 0 \/ ret = kr_error ENOENT \/ ret = kr_error EINVAL \/
   ret = kr_error ENOMEM) /\
  (kr_error ENOENT < 0 /\ kr_error EINVAL < 0 /\ kr_error ENOMEM < 0).
Proof.
  cbv zeta.
  pose proof (kr_error_neg ENOENT ltac:(reflexivity)) as Hnoent.
  pose proof (kr_error_neg EINVAL ltac:(reflexivity)) as Hinval.
  pose proof (kr_error_neg ENOMEM ltac:(reflexivity)) as Hnomem.
  split; [|split; [|auto]].
  - unfold kr_dnssec_key_match.
    destruct (kr_dnssec_key_from_rdata_cases None key_a_rdata)
      as [(key_a & -> & _) | [-> | ->]].
    2,3: rewrite (proj2 (Z.eqb_neq _ _)) by lia; cbn [negb];
         split; [lia | intros (ka & kb & [=] & _); lia].
    cbn [Z.eqb negb].
    destruct (kr_dnssec_key_from_rdata_cases None key_b_rdata)
      as [(key_b & -> & _) | [-> | ->]].
    2,3: rewrite (proj2 (Z.eqb_neq _ _)) by lia; cbn [negb];
         split; [lia | intros (ka & kb & _ & [=] & _); lia].
    cbn [Z.eqb negb].
    destruct (Z.eqb_spec (dnssec_key_get_algorithm key_a)
                (dnssec_key_get_algorithm key_b)) as [Ealg|Ealg];
      cbn [andb].
    2:{ split; [lia|]. intros (ka & kb & [= <-] & [= <-] & E & _).
        contradiction. }
    destruct (Z.eqb_spec (fst (dnssec_key_get_pubkey key_a)) DNSSEC_EOK)
      as [Ea|Ea]; cbn [andb].
    2:{ split; [lia|]. intros (ka & kb & [= <-] & [= <-] & _ & E & _).
        contradiction. }
    destruct (Z.eqb_spec (fst (dnssec_key_get_pubkey key_b)) DNSSEC_EOK)
      as [Eb|Eb]; cbn [andb].
    2:{ split; [lia|]. intros (ka & kb & [= <-] & [= <-] & _ & _ & E & _).
        contradiction. }
    set (pk_a := snd (dnssec_key_get_pubkey key_a)).
    set (pk_b := snd (dnssec_key_get_pubkey key_b)).
    destruct (Nat.eqb_spec (length pk_a) (length pk_b)) as [El|El];
      cbn [andb].
    2:{ split; [lia|]. intros (ka & kb & [= <-] & [= <-] & _ & _ & _ & E).
        fold pk_a pk_b in E. congruence. }
    assert (Hm : memcmp pk_a pk_b (length pk_a) = 0 <-> pk_a = pk_b).
    { rewrite memcmp_zero by lia. rewrite firstn_all, El, firstn_all.
      reflexivity. }
    destruct (Z.eqb_spec (memcmp pk_a pk_b (length pk_a)) 0) as [Ez|Ez].
    + split; [|reflexivity]. intros _. exists key_a, key_b.
      repeat split; try assumption. fold pk_a pk_b. now apply Hm.
    + split; [lia|]. intros (ka & kb & [= <-] & [= <-] & _ & _ & _ & E).
      fold pk_a pk_b in E. exfalso. apply Ez, Hm. exact E.
  - unfold kr_dnssec_key_match.
    destruct (kr_dnssec_key_from_rdata_cases None key_a_rdata)
      as [(key_a & -> & _) | [-> | ->]].
    2,3: rewrite (proj2 (Z.eqb_neq _ _)) by lia; cbn [negb]; auto.
    cbn [Z.eqb negb].
    destruct (kr_dnssec_key_from_rdata_cases None key_b_rdata)
      as [(key_b & -> & _) | [-> | ->]].
    2,3: rewrite (proj2 (Z.eqb_neq _ _)) by lia; cbn [negb]; auto.
    cbn [Z.eqb negb].
    repeat match goal with
           | |- context [if ?b then _ else _] => destruct b
           end; auto.
Qed.

End Keys.

(** A DS record with key tag 0x1234, and the DNSKEY record of the zone. *)
Lemma kr_dnssec_key_tag_range_witness :
  @kr_dnssec_key_tag upstream_defines rdata_keys 43 (Some [18; 52; 8; 2; 0])
  = 256 * 18 + 52 /\
  0 <= @kr_dnssec_key_tag upstream_defines rdata_keys 48
         (Some Zone.dnskey_rdata) < 65536.
Proof.
  split.
  - apply (@kr_dnssec_key_tag_range upstream_defines rdata_keys 43
             [18; 52; 8; 2; 0]); [repeat constructor; lia | simpl; lia |].
    reflexivity.
  - vm_compute. split; [discriminate | reflexivity].
Defined.

End DnssecKeysProofs.

Module StrcatProofs.
Import Utils Straddr Strcat RrkeyProofs StraddrProofs.

(** The lengths of the items, added up, and their bytes, put together;
    a NULL item counts as empty. *)
Definition total_length (items : list (option (list Z))) : Z :=
  fold_right (fun item sum => strlen_safe item + sum) 0 items.

Definition contents (items : list (option (list Z))) : list Z :=
  flat_map (fun item => match item with Some s => s | None => [] end) items.

Lemma strlen_safe_nonneg (item : option (list Z)) : 0 <= strlen_safe item.
Proof. destruct item; simpl; lia. Qed.

Lemma total_length_nonneg (items : list (option (list Z))) :
  0 <= total_length items.
Proof.
  induction items as [|item items IH]; simpl; [lia|].
  pose proof (strlen_safe_nonneg item). lia.
Qed.

Lemma length_contents (items : list (option (list Z))) :
  Z.of_nat (length (contents items)) = total_length items.
Proof.
  induction items as [|[s|] items IH]; simpl; [reflexivity| |exact IH].
  rewrite length_app. lia.
Qed.

(** Without overflow the first loop adds up the lengths. *)
Lemma strcatdup_total_sum (items : list (option (list Z))) (acc : Z) :
  0 <= acc -> acc + total_length items < 2 ^ 64 ->
  strcatdup_total items acc = Some (acc + total_length items).
Proof.
  revert acc. induction items as [|item items IH]; intros acc Hacc Hsum; simpl.
  - now rewrite Z.add_0_r.
  - simpl in Hsum.
    pose proof (strlen_safe_nonneg item). pose proof (total_length_nonneg items).
    rewrite Z.mod_small by lia.
    destruct (Z.ltb_spec (acc + strlen_safe item) acc); [lia|].
    rewrite IH by lia. f_equal. lia.
Qed.

(** The second loop writes the items one behind the other, each with its
    zero, and stays within the room there is: behind the bytes of the
    items comes a zero, unless no item was written at all. *)
Lemma strcatdup_fill_contents (items : list (option (list Z)))
    (done tail : list Z) :
  total_length items + 1 <= Z.of_nat (length tail) ->
  exists z tail2,
    strcatdup_fill items (Z.of_nat (length done)) (done ++ tail)
    = (done ++ contents items) ++ z :: tail2 /\
    (z = 0 \/ total_length items = 0 /\ z :: tail2 = tail) /\
    Z.of_nat (length tail2) + total_length items + 1 = Z.of_nat (length tail).
Proof.
  revert done tail.
  induction items as [|[item|] items IH]; intros done tail Hroom.
  - destruct tail as [|z tail2]; [simpl in Hroom; lia|].
    exists z, tail2. simpl. rewrite app_nil_r.
    split; [reflexivity|]. split; [right; auto | simpl; lia].
  - cbn [strcatdup_fill]. cbn [total_length fold_right strlen_safe] in Hroom.
    fold (total_length items) in Hroom.
    pose proof (total_length_nonneg items) as Hpos.
    set (n := length item) in *.
    destruct (split_buffer (n + 1) tail ltac:(lia)) as [K L].
    assert (Hstore : store (Z.of_nat (length done)) (item ++ [0])
                       (done ++ tail)
                     = (done ++ item) ++ 0 :: drop (n + 1) tail).
    { rewrite K at 1.
      rewrite (store_over done (take (n + 1) tail) (item ++ [0])
                 (drop (n + 1) tail) (Z.of_nat (length done)))
        by (rewrite ?length_app, ?L; subst n; simpl; lia).
      rewrite <- !app_assoc. reflexivity. }
    rewrite Hstore. clear Hstore.
    replace (Z.of_nat (length done) + Z.of_nat n)
      with (Z.of_nat (length (done ++ item)))
      by (rewrite length_app; subst n; lia).
    destruct (IH (done ++ item) (0 :: drop (n + 1) tail))
      as (z & tail2 & Hfill & Hz & Hlen).
    { cbn [length]. rewrite length_drop. lia. }
    exists z, tail2. rewrite Hfill.
    split; [cbn [contents flat_map]; now rewrite <- !app_assoc|].
    split.
    + left. destruct Hz as [Hz | [_ Hz]]; [exact Hz | congruence].
    + cbn [total_length fold_right strlen_safe]. fold (total_length items).
      cbn [length] in Hlen. rewrite length_drop in Hlen. lia.
  - cbn [strcatdup_fill contents flat_map app].
    cbn [total_length fold_right strlen_safe] in *.
    fold (total_length items) in *. fold (contents items).
    destruct (IH done tail ltac:(lia)) as (z & tail2 & Hfill & Hz & Hlen).
    exists z, tail2. split; [exact Hfill|]. split; [|lia].
    destruct Hz as [Hz | [Hz Ht]]; [now left | right; split; [lia|exact Ht]].
Qed.

(** X21: [kr_strcatdup] of at least one argument, C strings or NULL, of a
    total length that fits size_t: it returns NULL when all the strings
    are empty or [malloc] fails; otherwise an object of the total length
    plus one that holds the strings one behind the other, as one C
    string. *)
Theorem kr_strcatdup_concat `{Malloc} (n : Z) (args : list (option (list Z))) :
  1 <= n ->
  let items := take (Z.to_nat n) args in
  Forall (fun item => forall s, item = Some s -> Forall (fun b => b <> 0) s)
    items ->
  total_length items + 1 < 2 ^ 64 ->
  (total_length items = 0 -> kr_strcatdup n args = None) /\
  (malloc (total_length items + 1) = None -> kr_strcatdup n args = None) /\
  (0 < total_length items ->
   forall m, malloc (total_length items + 1) = Some m ->
   exists result,
     kr_strcatdup n args = Some result /\
     Z.of_nat (length result) = total_length items + 1 /\
     c_str result = contents items).
Proof.
  intros Hn items Hstr Hfits. unfold kr_strcatdup.
  destruct (Z.ltb_spec n 1); [lia|]. cbv zeta. fold items.
  pose proof (total_length_nonneg items) as Hpos.
  rewrite (strcatdup_total_sum items 0) by lia. rewrite Z.add_0_l.
  split; [|split].
  - intros ->. reflexivity.
  - intros Hnull. destruct (total_length items >? 0); [|reflexivity].
    destruct ((total_length items + 1) mod 2 ^ 64 =? 0); [reflexivity|].
    now rewrite Hnull.
  - intros Hsome m Hm.
    destruct (Z.gtb_spec (total_length items) 0); [|lia].
    rewrite Z.mod_small by lia.
    destruct (Z.eqb_spec (total_length items + 1) 0); [lia|].
    rewrite Hm. eexists. split; [reflexivity|].
    pose proof (malloc_size _ _ Hm) as Hsize.
    destruct (strcatdup_fill_contents items [] m ltac:(lia))
      as (z & tail2 & Hfill & Hz & Hlen).
    cbn [length app] in Hfill. change (Z.of_nat 0) with 0 in Hfill.
    rewrite Hfill. split.
    + rewrite length_app. cbn [length].
      pose proof (length_contents items). lia.
    + destruct Hz as [-> | [Hz _]]; [|lia].
      apply c_str_terminated. unfold contents.
      clear -Hstr. induction Hstr as [|item items' Hitem _ IH]; simpl;
        [constructor|].
      apply Forall_app. split; [|exact IH].
      destruct item as [s|]; [now apply Hitem | constructor].
Qed.

(** "ab", NULL and "c" make "abc" in an object of four bytes. *)
Lemma kr_strcatdup_concat_witness :
  exists result,
    @kr_strcatdup plain_malloc 3 [Some [97; 98]; None; Some [99]]
    = Some result /\
    Z.of_nat (length result) = 4 /\ c_str result = [97; 98; 99].
Proof.
  apply (proj2 (proj2 (@kr_strcatdup_concat plain_malloc 3
                         [Some [97; 98]; None; Some [99]]
                         ltac:(lia)
                         ltac:(repeat constructor; intros s [= <-];
                               repeat constructor; lia)
                         ltac:(simpl; lia)))
           ltac:(simpl; lia) (repeat 255 4) eq_refl).
Defined.

End StrcatProofs.

Module ContextResultProofs.
Import ContextResult.

(** X22: [kr_result_init] returns 0 or -1.  On 0 the result holds a packet
    that the call has allocated and a transaction.  On -1 the heap holds
    the packets it held before, no more and no fewer; and if the failed
    call has left a packet in [result->ans], which it does when the
    cache transaction cannot begin, that packet is one the call has
    freed. *)
Theorem kr_result_init_packet `{Collaborators} (ctx : kr_context) (h : heap) :
  let '(ret, result, h') := kr_result_init ctx h in
  (ret = 0 \/ ret = -1) /\
  (ret = 0 ->
   exists p t,
     ans result = Some p /\ txn result = Some t /\
     allocated h' p /\ ~ allocated h p /\
     forall q, q <> p -> (allocated h' q <-> allocated h q)) /\
  (ret = -1 ->
   (forall q, allocated h' q <-> allocated h q) /\
   (forall p, ans result = Some p -> ~ allocated h' p) /\
   (knot_pkt_new h <> (None, h') -> kr_rplan_next (rplan ctx) <> None ->
    ans result <> None /\ kr_cache_txn_begin (cache ctx) = None)).
Proof.
  unfold kr_result_init.
  destruct (knot_pkt_new h) as [[p|] h1] eqn:Hnew.
  2:{ split; [now right|]. split; [discriminate|]. intros _.
      split; [exact (knot_pkt_new_null _ _ Hnew)|].
      split; [discriminate | congruence]. }
  destruct (knot_pkt_new_fresh _ _ _ Hnew) as (Hfresh & Hlive & Hothers).
  assert (Hfreed : forall h2,
            (forall q, allocated h2 q <-> allocated h1 q) ->
            forall q, allocated (knot_pkt_free p h2) q <-> allocated h q).
  { intros h2 Hsame q.
    destruct (knot_pkt_free_frees h2 p) as [Hgone Hrest].
    split.
    - intros Hq. assert (q <> p) by (intros ->; contradiction).
      apply Hothers; [assumption|]. apply Hsame. now apply Hrest.
    - intros Hq. assert (q <> p) by (intros ->; contradiction).
      apply Hrest; [assumption|]. apply Hsame. now apply Hothers. }
  destruct (kr_rplan_next (rplan ctx)) as [qry|].
  2:{ split; [now right|]. split; [discriminate|]. intros _.
      split; [apply Hfreed; reflexivity|].
      split; [discriminate | congruence]. }
  cbv zeta. cbn [ans txn].
  set (h2 := knot_wire_set_qr p
               (knot_wire_set_rcode_servfail p
                  (knot_pkt_put_question p qry h1))).
  assert (Hsame : forall q, allocated h2 q <-> allocated h1 q).
  { intros q. subst h2.
    rewrite knot_wire_set_qr_keeps, knot_wire_set_rcode_keeps.
    apply knot_pkt_put_question_keeps. }
  destruct (kr_cache_txn_begin (cache ctx)) as [t|].
  - split; [now left|]. split; [|discriminate]. intros _.
    exists p, t. cbn [ans txn].
    split; [reflexivity|]. split; [reflexivity|].
    split; [now apply Hsame|]. split; [exact Hfresh|].
    intros q Hq. rewrite Hsame. now apply Hothers.
  - split; [now right|]. split; [discriminate|]. intros _. cbn [ans].
    split; [now apply Hfreed|]. split.
    + intros p' [= <-]. apply knot_pkt_free_frees.
    + intros _ _. split; [discriminate | reflexivity].
Qed.

(** With a query in the plan and a cache that cannot begin a
    transaction, the call fails, the heap is empty as before, and
    [result->ans] names packet 1, which is not allocated. *)
Lemma kr_result_init_packet_witness :
  @kr_result_init numbered_packets
    {| rplan := Some tt; cache := false |} []
  = (-1, {| ans := Some 1%nat; txn := None |}, []) /\
  ~ @allocated numbered_packets [] 1%nat.
Proof.
  split; [reflexivity|].
  pose proof (@kr_result_init_packet numbered_packets
                {| rplan := Some tt; cache := false |} []) as Hpacket.
  cbn in Hpacket.
  exact (proj1 (proj2 (proj2 (proj2 Hpacket) eq_refl)) 1%nat eq_refl).
Defined.

End ContextResultProofs.

Module TrustedProofs.
Import Dnssec DnssecProofs ValidateProofs.

Section Trusted.
Context `{Defines} `{Libknot} `{Libdnssec} `{!Validators}.

(** (a) by the flags word of the DNSKEY record, its first two bytes:
    the zone-key flag, mask 0x0100, is set and the revoke flag, mask
    0x0080, is clear. *)
Definition zone_key_not_revoked (rdata : list Z) : Prop :=
  Z.land (wire_read_u16 rdata) 0x0100 <> 0 /\
  Z.land (wire_read_u16 rdata) 0x0080 = 0.

(** The key object that libdnssec makes of a DNSKEY record: a new key
    that is given the record and the owner name, every step succeeding. *)
Definition key_made (kown : knot_dname_t) (rdata : list Z)
    (key : dnssec_key_t) : Prop :=
  rdata <> [] /\
  fst dnssec_key_new = DNSSEC_EOK /\
  fst (dnssec_key_set_rdata (snd dnssec_key_new) rdata) = DNSSEC_EOK /\
  dnssec_key_set_dname
    (snd (dnssec_key_set_rdata (snd dnssec_key_new) rdata)) kown
  = (DNSSEC_EOK, key).

(** The record at position [i] of the DNSKEY set is a key that makes the
    set trusted: (a) a zone key that is not revoked, (b) authenticated
    against the trust anchor, (c) with a signature over the DNSKEY set
    itself in the section that is accepted under it. *)
Definition trusted_key (pkt : knot_pkt_t) (section_id : knot_section_t)
    (keys ta : knot_rrset_t) (zone_name : option knot_dname_t) (now : Z)
    (has_nsec3 : bool) (i : nat) : Prop :=
  exists key_data key,
    rrs keys !! i = Some key_data /\
    zone_key_not_revoked key_data /\
    key_made (owner keys) key_data key /\
    kr_authenticate_referral ta key = 0 /\
    exists z rrsig j,
      zone_name = Some z /\
      In rrsig (knot_pkt_section pkt section_id) /\
      type rrsig = KNOT_RRTYPE_RRSIG /\ (j < length (rrs rrsig))%nat /\
      sig_accepted pkt keys keys i key z now has_nsec3 rrsig j.

Lemma key_flags_checked (rdata : list Z) :
  kr_dnssec_key_zsk rdata = true /\ kr_dnssec_key_revoked rdata = false
  <-> zone_key_not_revoked rdata.
Proof.
  unfold kr_dnssec_key_zsk, kr_dnssec_key_revoked, zone_key_not_revoked,
    c_true.
  rewrite negb_true_iff, negb_false_iff, Z.eqb_neq, Z.eqb_eq. reflexivity.
Qed.

Lemma kr_dnssec_key_from_rdata_made kown rdata key :
  kr_dnssec_key_from_rdata (Some kown) (Some rdata) = (0, Some key)
  <-> key_made kown rdata key.
Proof.
  unfold kr_dnssec_key_from_rdata, key_made.
  destruct (Z.eqb_spec (Z.of_nat (length rdata)) 0) as [Hlen|Hlen].
  { assert (rdata = []) as -> by (destruct rdata; [reflexivity|simpl in Hlen; lia]).
    split; [discriminate | intros [Hne _]; contradiction]. }
  assert (Hne : rdata <> []) by (intros ->; simpl in Hlen; lia).
  destruct dnssec_key_new as [r0 k0]. cbn [fst snd].
  destruct (Z.eqb_spec r0 DNSSEC_EOK) as [E0|E0]; cbn [negb].
  2:{ split; [discriminate | intros (_ & E & _); contradiction]. }
  destruct (dnssec_key_set_rdata k0 rdata) as [r1 k1]. cbn [fst snd].
  destruct (Z.eqb_spec r1 DNSSEC_EOK) as [E1|E1]; cbn [negb].
  2:{ split; [discriminate | intros (_ & _ & E & _); contradiction]. }
  destruct (dnssec_key_set_dname k1 kown) as [r2 k2].
  destruct (Z.eqb_spec r2 DNSSEC_EOK) as [E2|E2]; cbn [negb].
  - rewrite kr_ok_zero. split.
    + intros [= <-]. rewrite E2. auto.
    + intros (_ & _ & _ & [= _ <-]). reflexivity.
  - split; [discriminate|]. intros (_ & _ & _ & [= E _]). contradiction.
Qed.

Lemma kr_rrset_validate_with_key_accepted pkt section_id covered keys key_pos
    key zone_name timestamp has_nsec3 :
  kr_rrset_validate_with_key pkt section_id covered keys key_pos (Some key)
    zone_name timestamp has_nsec3 = 0
  <->
  exists z rrsig j,
    zone_name = Some z /\
    In rrsig (knot_pkt_section pkt section_id) /\
    type rrsig = KNOT_RRTYPE_RRSIG /\ (j < length (rrs rrsig))%nat /\
    sig_accepted pkt covered keys key_pos key z timestamp has_nsec3 rrsig j.
Proof.
  split.
  - intros Hz. apply kr_rrset_validate_with_key_zero in Hz
      as (k & z & rrsig & j & Hk & -> & Hin & Ht & Hj & Hacc).
    destruct Hk as [[= <-] | [[=] _]]. exists z, rrsig, j. auto.
  - intros (z & rrsig & j & -> & Hin & Ht & Hj & Hacc).
    unfold kr_rrset_validate_with_key, with_key_key.
    now apply with_key_section_loop_accepts with (rrsig := rrsig) (j := j).
Qed.

(** The turn of the loop of [kr_dnskeys_trusted] on record [i] reaches
    [return kr_ok()] exactly for such a key. *)
Lemma usable_key_trusted pkt section_id keys ta zone_name now has_nsec3 i :
  usable_key pkt section_id keys ta zone_name now has_nsec3 i
  <-> trusted_key pkt section_id keys ta zone_name now has_nsec3 i.
Proof.
  unfold usable_key, trusted_key. split.
  - intros (key_data & key & Hi & Hflags & Hkey & Hauth & Hval).
    exists key_data, key. split; [exact Hi|].
    split; [now apply key_flags_checked|].
    split; [now apply kr_dnssec_key_from_rdata_made|].
    split; [exact Hauth|].
    now apply kr_rrset_validate_with_key_accepted.
  - intros (key_data & key & Hi & Hflags & Hkey & Hauth & Hval).
    exists key_data, key. split; [exact Hi|].
    split; [now apply key_flags_checked|].
    split; [now apply kr_dnssec_key_from_rdata_made|].
    split; [exact Hauth|].
    now apply kr_rrset_validate_with_key_accepted.
Qed.

(** C2, as the code has it.  Given a packet, a DNSKEY set and a trust
    anchor, [kr_dnskeys_trusted] returns 0 if and only if some record of
    the DNSKEY set (a) has the zone-key flag set and the revoke flag
    clear, (b) makes a key that authenticates against the trust anchor,
    and (c) is a key under which a signature of the section over the
    DNSKEY set itself is accepted; when there is no such record it
    returns the error of ENOENT.  Without a packet, a DNSKEY set or a
    trust anchor it returns the error of EINVAL.  Neither error is 0. *)
Theorem kr_dnskeys_trusted_iff (pkt : knot_pkt_t)
    (section_id : knot_section_t) (keys ta : knot_rrset_t)
    (zone_name : option knot_dname_t) (now : Z) (has_nsec3 : bool)
    (opkt : option knot_pkt_t) (okeys ota : option knot_rrset_t) :
  let ret := kr_dnskeys_trusted (Some pkt) section_id (Some keys) (Some ta)
               zone_name now has_nsec3 in
  (ret = 0 <->
   exists i, trusted_key pkt section_id keys ta zone_name now has_nsec3 i) /\
  (~ (exists i, trusted_key pkt section_id keys ta zone_name now has_nsec3 i)
   -> ret = kr_error ENOENT) /\
  (opkt = None \/ okeys = None \/ ota = None ->
   kr_dnskeys_trusted opkt section_id okeys ota zone_name now has_nsec3
   = kr_error EINVAL) /\
  kr_error ENOENT <> 0 /\ kr_error EINVAL <> 0.
Proof.
  cbv zeta.
  assert (Hiff : kr_dnskeys_trusted (Some pkt) section_id (Some keys)
                   (Some ta) zone_name now has_nsec3 = 0 <->
                 exists i, trusted_key pkt section_id keys ta zone_name now
                             has_nsec3 i).
  { unfold kr_dnskeys_trusted.
    destruct (dnskeys_trusted_loop_spec pkt section_id keys ta zone_name now
                has_nsec3 (length (rrs keys)) 0) as [[L1 L2] _].
    split.
    - intros Hz. destruct (L1 Hz) as (i & _ & Hu). exists i.
      now apply usable_key_trusted.
    - intros (i & Ht). apply L2. exists i.
      split; [|now apply usable_key_trusted].
      destruct Ht as (kd & _ & Hl & _). apply lookup_lt_Some in Hl. lia. }
  split; [exact Hiff|]. split; [|split; [|split]].
  - intros Hno. unfold kr_dnskeys_trusted in *.
    destruct (dnskeys_trusted_loop_spec pkt section_id keys ta zone_name now
                has_nsec3 (length (rrs keys)) 0) as [_ [Hz|He]]; [|exact He].
    exfalso. apply Hno, Hiff, Hz.
  - apply kr_dnskeys_trusted_null.
  - apply Z.eqb_neq, kr_error_nonzero. reflexivity.
  - apply kr_error_EINVAL_nonzero.
Qed.

End Trusted.

(** The zone's key is a zone key, not revoked, listed by the trust
    anchor, and the DNSKEY set is signed with it: the set is trusted,
    and so the zone has a key that makes it so. *)
Lemma kr_dnskeys_trusted_iff_witness :
  @kr_dnskeys_trusted upstream_defines wire_knot rdata_keys toy_validators
    (Some Zone.pkt) KNOT_ANSWER (Some Zone.keys) (Some Zone.keys)
    (Some Zone.cut) 1500 false = 0 /\
  exists i,
    @trusted_key wire_knot rdata_keys toy_validators
      Zone.pkt KNOT_ANSWER Zone.keys Zone.keys (Some Zone.cut) 1500 false i.
Proof.
  split; [vm_compute; reflexivity|].
  apply (proj1 (proj1 (@kr_dnskeys_trusted_iff upstream_defines wire_knot
                         rdata_keys toy_validators Zone.pkt KNOT_ANSWER
                         Zone.keys Zone.keys (Some Zone.cut) 1500 false
                         None None None))).
  vm_compute. reflexivity.
Defined.

(** C2 as stated fails for a call without a DNSKEY set or without a
    packet: no key of the set is found, since none is looked at, and
    the return value is the error of EINVAL, -22, not that of ENOENT,
    -2. *)
Lemma kr_dnskeys_trusted_null_is_not_enoent :
  @kr_dnskeys_trusted upstream_defines wire_knot rdata_keys toy_validators
    (Some Zone.pkt) KNOT_ANSWER None (Some Zone.keys)
    (Some Zone.cut) 1500 false = -22 /\
  @kr_dnskeys_trusted upstream_defines wire_knot rdata_keys toy_validators
    None KNOT_ANSWER (Some Zone.keys) (Some Zone.keys)
    (Some Zone.cut) 1500 false = -22 /\
  @kr_error upstream_defines ENOENT = -2 /\ -22 <> -2.
Proof. repeat split; try reflexivity. lia. Qed.

End TrustedProofs.
